(** * Metropolis Monte Carlo of Lennard-Jones particles in a periodic box

    A shallow embedding of the simulation engine of [mm_2019_sss_1]:

    - [Geom]    from [mm_2019_ss_1_package/geom.py]  (periodic box, file I/O),
    - [Energy]  from [mm_2019_sss_1/energy.py]       (pair energies),
    - [MC]      from [mm_2019_ss_1_package/mc.py]    (the driver); the copy in
                [mm_2019_sss_1/mc.py] has the same constructor, acceptance
                test, tuning rule and step loop (only the log text and a
                timer differ) and a different [get_energy], embedded as
                [MC_sss.get_energy].

    ** Modelling conventions

    - Numbers.  The engine ([Geom], [Energy], [MC]) is embedded over exact
      rationals [Q]: [+ - * /], comparisons and [np.round] (round half to
      even) are the exact operations, so rounding error, [inf] and [nan] are
      outside that model ([x / 0] is [0] in [Q]; statements that need a
      non-zero divisor say so).  [np.pi] is the rational value of the
      binary64 constant.  [np.exp] and [np.cbrt] have no rational
      counterpart and are parameters ([Libm]).  A statement over [Q] is a
      statement about the code only where it does not depend on a rounding;
      the ones that do are marked as holding in exact arithmetic.
    - binary64.  The functions whose properties depend on rounding, [wrap],
      [minimum_image_distance] and the selection of the squared distances in
      [get_particle_energy], are embedded a second time over IEEE binary64
      ([B64], [Geom64], [Energy64]): the numbers are the standard library's
      [spec_float] with 53 bits of precision, every operation rounds to
      nearest with ties to even, and [inf], [nan] and the signed zeros are
      values like any other.
    - Arrays.  A 1-d array is a [list Q], the N x 3 coordinate array a list of
      rows; element-wise operations are [map] and [zip_with], indexing and
      in-place assignment are stdpp's [!!] and [<[ i := x ]>], with NumPy's
      bounds check written out as [IndexError].
    - Exceptions.  A raising call returns [Raise e], see [result].
    - Randomness.  NumPy's global generator is an explicit state of a type
      with a [RandomSource] instance, threaded through every draw.
    - Files.  The file system is a finite map from paths to text files; a text
      file is the list of its lines and a line the list of its numeric
      fields.  [%.18e] prints 19 significant digits, which reads back as the
      same binary64 value, so a field is embedded as the number itself. *)

From stdpp Require Import base list gmap strings pretty.
From Stdlib Require Import QArith Qround Qabs Lqa Lia ZArith SpecFloat.

Open Scope Q_scope.

(** ** Numbers *)

(** Python's [x < y] on floats. *)
Definition Qltb (x y : Q) : bool :=
  match Qcompare x y with Lt => true | _ => false end.

(** [np.round]: the nearest integer, ties going to the even one. *)
Definition np_round (x : Q) : Z :=
  let f := Qfloor x in
  match Qcompare (x - inject_Z f) (1 # 2) with
  | Lt => f
  | Gt => (f + 1)%Z
  | Eq => if Z.even f then f else (f + 1)%Z
  end.

(** [np.pi], the binary64 number 0x400921FB54442D18. *)
Definition np_pi : Q := 884279719003555 # 281474976710656.

(** [np.mod] on integers; NumPy returns 0 for a zero divisor. *)
Definition np_mod (a b : Z) : Z :=
  if (b =? 0)%Z then 0%Z else (a mod b)%Z.

(** [int(x)], also what [%d] prints of a float: truncation toward zero. *)
Definition py_int (x : Q) : Z := Z.quot (Qnum x) (Z.pos (Qden x)).

(** [np.sum] of a 1-d array. *)
Definition np_sum (l : list Q) : Q := foldr Qplus 0 l.

(** The transcendental functions the code takes from NumPy. *)
Class Libm := {
  np_exp : Q -> Q;
  np_cbrt : Q -> Q
}.

(** ** Exceptions *)

Inductive exn :=
| ValueError (msg : string)
| TypeError
| IndexError
| ZeroDivisionError
| FileNotFoundError.

Inductive result (A : Type) :=
| Ok (a : A)
| Raise (e : exn).
Arguments Ok {A} a.
Arguments Raise {A} e.

(** The error monad, with stdpp's [x ← r; k] notation. *)
#[global] Instance result_ret : MRet result := fun A a => Ok a.
#[global] Instance result_bind : MBind result := fun A B k r =>
  match r with
  | Ok a => k a
  | Raise e => Raise e
  end.

(** ** The random number generator *)

Class RandomSource (G : Type) := {
  (** [np.random.rand()]: one uniform draw in [0,1). *)
  rand : G -> Q * G;
  (** [np.random.randint(high)] for [0 < high]: one draw in [0, high). *)
  randint : Q -> G -> nat * G
}.

(** [np.random.rand(n)]: [n] draws, in order. *)
Fixpoint rand_vec `{RandomSource G} (n : nat) (g : G) : list Q * G :=
  match n with
  | O => ([], g)
  | S n' =>
      let '(u, g1) := rand g in
      let '(us, g2) := rand_vec n' g1 in
      (u :: us, g2)
  end.

(** [np.random.rand(n, m)]: [n] rows of [m] draws, row by row. *)
Fixpoint rand_matrix `{RandomSource G} (n m : nat) (g : G)
  : list (list Q) * G :=
  match n with
  | O => ([], g)
  | S n' =>
      let '(row, g1) := rand_vec m g in
      let '(rows, g2) := rand_matrix n' m g1 in
      (row :: rows, g2)
  end.

(** ** Files *)

(** A text file: its lines, each the list of its numeric fields. *)
Definition file : Type := list (list Q).

(** ** geom.py *)

Module Geom.

Record t := mk {
  num_particles : Q;
  box_length : Q;
  volume : Q;
  coordinates : list (list Q)
}.

(** The keyword arguments of the constructor; [None] is Python's [None]. *)
Record kwargs := mk_kwargs {
  kw_num_particles : option Z;
  kw_reduced_den : option Q;
  kw_file_name : option string
}.

(** [np.fromstring(line, dtype=float, sep=',')[0]]: the first number of the
    line. *)
Definition first_number (line : list Q) : result Q :=
  match line !! 0%nat with
  | Some x => Ok x
  | None => Raise IndexError
  end.

(** One row of [np.loadtxt(..., usecols=(1,2,3))]; a row without a field 3
    raises ([IndexError] from the list indexing inside [loadtxt]; later
    NumPy releases report the same condition as a [ValueError]). *)
Definition usecols_1_2_3 (row : list Q) : result (list Q) :=
  match row !! 1%nat, row !! 2%nat, row !! 3%nat with
  | Some x, Some y, Some z => Ok [x; y; z]
  | _, _, _ => Raise IndexError
  end.

(** [np.loadtxt(file_name, skiprows=2, usecols=(1,2,3))]: the first two
    lines are dropped, blank lines are skipped, every other line gives its
    fields 1, 2 and 3. *)
Definition loadtxt (lines : file) : result (list (list Q)) :=
  mapM usecols_1_2_3
    (List.filter (fun row => negb (Nat.eqb (length row) 0)) (drop 2 lines)).

(** [shape[0]] of what [loadtxt] returns: an array read from a single row
    is squeezed to one dimension, of length 3. *)
Definition loadtxt_shape0 (rows : list (list Q)) : nat :=
  match rows with
  | [_] => 3
  | _ => length rows
  end.

(** [generate_initial_state], called by [__init__].  When the file holds a
    single coordinate row and declares 3 particles NumPy keeps the squeezed
    1-d array; the embedding keeps the row. *)
Definition generate_initial_state `{Libm} `{RandomSource G}
    (fs : gmap string file) (method : string) (kw : kwargs) (g : G)
  : result t * G :=
  if String.eqb method "random" then
    match kw_num_particles kw, kw_reduced_den kw with
    | Some n, Some den =>
        if Qeq_bool den 0 then (Raise ZeroDivisionError, g)
        else if (n <? 0)%Z
        then (Raise (ValueError "negative dimensions are not allowed"), g)
        else
          let L := np_cbrt (inject_Z n / den) in
          let '(r, g') := rand_matrix (Z.to_nat n) 3 g in
          (Ok {| num_particles := inject_Z n;
                 box_length := L;
                 volume := L ^ 3;
                 coordinates := map (map (fun u => ((1 # 2) - u) * L)) r |},
           g')
    | _, _ =>
        (Raise (ValueError "'num_particles' and 'reduced_den' arguments must be set for method=random!"), g)
    end
  else if String.eqb method "file" then
    match kw_file_name kw with
    | None =>
        (Raise (ValueError "'filename' argument must be set for method = file!"), g)
    | Some file_name =>
        match fs !! file_name with
        | None => (Raise FileNotFoundError, g)
        | Some lines =>
            (line0 ← match lines !! 0%nat with
                     | Some l => Ok l | None => Raise IndexError end;
             L ← first_number line0;
             line1 ← match lines !! 1%nat with
                     | Some l => Ok l | None => Raise IndexError end;
             n ← first_number line1;
             rows ← loadtxt lines;
             if Qeq_bool n (inject_Z (Z.of_nat (loadtxt_shape0 rows)))
             then Ok {| num_particles := n;
                        box_length := L;
                        volume := L ^ 3;
                        coordinates := rows |}
             else Raise (ValueError "Inconsistent value of number of particles in file!"),
             g)
        end
    end
  else (Raise TypeError, g).

(** [Geom(method, **kwargs)]: [__init__] only calls
    [generate_initial_state]. *)
Definition init `{Libm} `{RandomSource G} (fs : gmap string file)
    (method : string) (kw : kwargs) (g : G) : result t * G :=
  generate_initial_state fs method kw g.

(** [minimum_image_distance(r_i, coords)] for a single point [coords]. *)
Definition minimum_image_distance (self : t) (r_i coords : list Q) : Q :=
  let rij := zip_with Qminus r_i coords in
  let rij := map (fun d => d - box_length self
                              * inject_Z (np_round (d / box_length self)))
                 rij in
  np_sum (map (fun d => d ^ 2) rij).

(** [minimum_image_distance(r_i, coords)] for an array of points: NumPy
    broadcasts [r_i] against every row and sums along the last axis. *)
Definition minimum_image_distances (self : t) (r_i : list Q)
    (coords : list (list Q)) : list Q :=
  map (minimum_image_distance self r_i) coords.

Definition wrap (self : t) (v : list Q) : list Q :=
  map (fun x => x - box_length self
                    * inject_Z (np_round (x / box_length self))) v.

Definition get_particle_coordinates (self : t) : list (list Q) :=
  coordinates self.

(** [save_state]: the box length three times, the particle count printed
    with [%d], then [np.savetxt] of the coordinate array, one row a line. *)
Definition save_state (self : t) (fs : gmap string file)
    (file_name : string) : result (gmap string file) :=
  match fs !! file_name with
  | Some _ => Raise (ValueError "File already exists!")
  | None =>
      Ok (<[file_name :=
              [box_length self; box_length self; box_length self]
              :: [inject_Z (py_int (num_particles self))]
              :: coordinates self]> fs)
  end.

End Geom.

(** ** energy.py *)

Module Energy.

(** [self.Geom] is the engine's own [Geom] object, which [MC.run] mutates
    in place; the methods below therefore take the current geometry as an
    argument instead of a copy stored at construction. *)
Record t := mk {
  cutoff : Q;
  cutoff2 : Q
}.

Definition init (cutoff : Q) : t :=
  {| cutoff := cutoff; cutoff2 := cutoff ^ 2 |}.

Definition lennard_jones_potential (rij2 : Q) : Q :=
  let sig_by_r6 := (1 / rij2) ^ 3 in
  let sig_by_r12 := sig_by_r6 ^ 2 in
  4 * (sig_by_r12 - sig_by_r6).

(** The squared distances [red[red < self.cutoff2]] that
    [get_particle_energy] hands to [lennard_jones_potential]. *)
Definition potential_arguments (self : t) (geom : Geom.t) (i_particle : nat)
    (r_i : list Q) (coordinates : list (list Q)) : list Q :=
  let rij2 := Geom.minimum_image_distances geom r_i coordinates in
  let red := delete i_particle rij2 in
  List.filter (fun r => Qltb r (cutoff2 self)) red.

Definition get_particle_energy (self : t) (geom : Geom.t) (i_particle : nat)
    (coordinates : list (list Q)) : result Q :=
  match coordinates !! i_particle with
  | None => Raise IndexError
  | Some r_i =>
      let pot := map lennard_jones_potential
                   (potential_arguments self geom i_particle r_i coordinates) in
      Ok (np_sum pot)
  end.

(** The loop of [calculate_total_pair_energy] over the particle indices. *)
Fixpoint total_pair_energy_loop (self : t) (geom : Geom.t)
    (indices : list nat) (e_total : Q) : result Q :=
  match indices with
  | [] => Ok e_total
  | i_particle :: rest =>
      e ← get_particle_energy self geom i_particle (Geom.coordinates geom);
      total_pair_energy_loop self geom rest (e_total + e)
  end.

Definition calculate_total_pair_energy (self : t) (geom : Geom.t)
  : result Q :=
  let particle_count := length (Geom.coordinates geom) in
  e_total ← total_pair_energy_loop self geom (seq 0 particle_count) 0;
  Ok (e_total / 2).

Definition calculate_tail_correction (self : t) (geom : Geom.t) : Q :=
  let num_particles := Geom.num_particles geom in
  let sig_by_cutoff3 := (1 / cutoff self) ^ 3 in
  let sig_by_cutoff9 := sig_by_cutoff3 ^ 3 in
  let e_correction := sig_by_cutoff9 - 3 * sig_by_cutoff3 in
  e_correction
  * ((8 / 9) * np_pi * num_particles / Geom.volume geom * num_particles).

End Energy.

(** ** mc.py *)

(** [a[i] = x] on a 1-d array. *)
Definition setitem (a : list Q) (i : nat) (x : Q) : result (list Q) :=
  if (i <? length a)%nat then Ok (<[i := x]> a) else Raise IndexError.

(** [v is None] for a field that holds an array object: never true. *)
Definition is_None (v : list Q) : bool := false.

Module MC.

Record t := mk {
  beta : Q;
  _n_trials : Z;
  _n_accept : Z;
  max_displacement : Q;
  tune_displacement : bool;
  _energy_array : list Q;
  current_step : nat;
  _Geom : Geom.t;
  _Energy : Energy.t;
  freq : option Z
}.

(** What the engine acts on besides itself: NumPy's generator, the file
    system, and the lines of [results.log] as (step, energy) pairs. *)
Record world (G : Type) := mk_world {
  rng : G;
  files : gmap string file;
  log : list (Z * Q)
}.
Arguments mk_world {G} _ _ _.
Arguments rng {G} _.
Arguments files {G} _.
Arguments log {G} _.

Definition set_counters (self : t) (trials accept : Z) : t :=
  mk (beta self) trials accept (max_displacement self)
     (tune_displacement self) (_energy_array self) (current_step self)
     (_Geom self) (_Energy self) (freq self).

Definition set_max_displacement (self : t) (d : Q) : t :=
  mk (beta self) (_n_trials self) (_n_accept self) d
     (tune_displacement self) (_energy_array self) (current_step self)
     (_Geom self) (_Energy self) (freq self).

Definition set_energy_array (self : t) (a : list Q) : t :=
  mk (beta self) (_n_trials self) (_n_accept self) (max_displacement self)
     (tune_displacement self) a (current_step self)
     (_Geom self) (_Energy self) (freq self).

Definition set_current_step (self : t) (k : nat) : t :=
  mk (beta self) (_n_trials self) (_n_accept self) (max_displacement self)
     (tune_displacement self) (_energy_array self) k
     (_Geom self) (_Energy self) (freq self).

Definition set_freq (self : t) (f : Z) : t :=
  mk (beta self) (_n_trials self) (_n_accept self) (max_displacement self)
     (tune_displacement self) (_energy_array self) (current_step self)
     (_Geom self) (_Energy self) (Some f).

(** [self._Geom.coordinates = c] (an assignment into the shared array). *)
Definition set_coordinates (self : t) (c : list (list Q)) : t :=
  mk (beta self) (_n_trials self) (_n_accept self) (max_displacement self)
     (tune_displacement self) (_energy_array self) (current_step self)
     (Geom.mk (Geom.num_particles (_Geom self)) (Geom.box_length (_Geom self))
              (Geom.volume (_Geom self)) c)
     (_Energy self) (freq self).

Definition init `{Libm} `{RandomSource G} (fs : gmap string file)
    (method : string) (reduced_temp max_displacement cutoff : Q)
    (num_particles : option Z) (file_name : option string)
    (tune_displacement : bool) (reduced_den : option Q) (g : G)
  : result t * G :=
  if Qeq_bool reduced_temp 0 then (Raise ZeroDivisionError, g)
  else
    let beta := 1 / reduced_temp in
    let '(geom, g') :=
      if String.eqb method "random" then
        Geom.init fs method (Geom.mk_kwargs num_particles reduced_den None) g
      else if String.eqb method "file" then
        Geom.init fs method (Geom.mk_kwargs None None file_name) g
      else (Raise (ValueError "Method must be either 'file' or 'random'"), g)
    in
    (geom ← geom;
     den ← match reduced_den with
           | Some d => Ok d
           | None => Raise TypeError
           end;
     if Qltb den 0 || Qltb reduced_temp 0
     then Raise (ValueError "reduced temperature and density must be greater than zero.")
     else Ok (mk beta 0 0 max_displacement tune_displacement [] 0 geom
                 (Energy.init cutoff) None),
     g').

Definition _accept_or_reject `{Libm} `{RandomSource G} (self : t)
    (delta_e : Q) (g : G) : bool * G :=
  if Qltb delta_e 0 then (true, g)
  else
    let '(random_number, g') := rand g in
    let p_acc := np_exp (- beta self * delta_e) in
    if Qltb random_number p_acc then (true, g') else (false, g').

Definition _adjust_displacement (self : t) : result t :=
  if (_n_trials self =? 0)%Z then Raise ZeroDivisionError
  else
    let acc_rate := inject_Z (_n_accept self) / inject_Z (_n_trials self) in
    let self :=
      if Qltb acc_rate (38 # 100)
      then set_max_displacement self (max_displacement self * (8 # 10))
      else if Qltb (42 # 100) acc_rate
      then set_max_displacement self (max_displacement self * (12 # 10))
      else self in
    Ok (set_counters self 0 0).

(** [get_energy] of [mm_2019_ss_1_package/mc.py]. *)
Definition get_energy (self : t) : result (list Q) :=
  if is_None (_energy_array self)
  then Raise (ValueError "Simulation has not started running!")
  else Ok (_energy_array self).

Definition get_snapshot (self : t) : Geom.t := _Geom self.

Definition save_snapshot (self : t) (fs : gmap string file)
    (file_name : string) : result (gmap string file) :=
  Geom.save_state (_Geom self) fs file_name.

(** The trial move of one step of [run]: the block from [current_energy]
    to the end of the [if accept: ... else: ...]. *)
Definition trial_move `{Libm} `{RandomSource G} (self : t)
    (total_pair_energy : Q) (i_particle : nat)
    (random_displacement : list Q) (g : G) : result (t * Q * G) :=
  let coords := Geom.coordinates (_Geom self) in
  current_energy ←
    Energy.get_particle_energy (_Energy self) (_Geom self) i_particle coords;
  old_coordinate ← match coords !! i_particle with
                   | Some r => Ok r
                   | None => Raise IndexError
                   end;
  let proposed_coordinate :=
    Geom.wrap (_Geom self) (zip_with Qplus old_coordinate random_displacement) in
  let self := set_coordinates self (<[i_particle := proposed_coordinate]> coords) in
  proposed_energy ←
    Energy.get_particle_energy (_Energy self) (_Geom self) i_particle
      (Geom.coordinates (_Geom self));
  let delta_e := proposed_energy - current_energy in
  let '(accept, g') := _accept_or_reject self delta_e g in
  if accept
  then Ok (set_counters self (_n_trials self) (_n_accept self + 1),
           total_pair_energy + delta_e, g')
  else Ok (set_coordinates self
             (<[i_particle := old_coordinate]> (Geom.coordinates (_Geom self))),
           total_pair_energy, g').

(** The variables live across the iterations of the loop of [run]. *)
Record loop_state (G : Type) := mk_loop {
  engine : t;
  total_pair_energy : Q;
  env : world G
}.
Arguments mk_loop {G} _ _ _.
Arguments engine {G} _.
Arguments total_pair_energy {G} _.
Arguments env {G} _.

(** One iteration of [for i_step in range(1, n_steps+1)]. *)
Definition run_step `{Libm} `{RandomSource G} (tail_correction : Q)
    (freq : Z) (save_dir : string) (save_snaps : bool) (i_step : nat)
    (st : loop_state G) : result (loop_state G) :=
  let self := engine st in
  let self := set_current_step self (current_step self + 1) in
  let self := set_counters self (_n_trials self + 1) (_n_accept self) in
  let num_particles := Geom.num_particles (_Geom self) in
  if Qle_bool num_particles 0 then Raise (ValueError "high <= 0")
  else
    let '(i_particle, g1) := randint num_particles (rng (env st)) in
    let '(u, g2) := rand_vec 3 g1 in
    let random_displacement :=
      map (fun x => (2 * x - 1) * max_displacement self) u in
    '(self, total_pair_energy, g3) ←
      trial_move self (total_pair_energy st) i_particle random_displacement g2;
    let total_energy := (total_pair_energy + tail_correction) / num_particles in
    a ← setitem (_energy_array self) (current_step self) total_energy;
    let self := set_energy_array self a in
    if (np_mod (Z.of_nat i_step + 1) freq =? 0)%Z then
      let log' := log (env st) ++ [((Z.of_nat i_step + 1)%Z, total_energy)] in
      fs ← (if save_snaps
            then save_snapshot self (files (env st))
                   (save_dir +:+ "/snap_" +:+ pretty (i_step + 1)%nat +:+ ".txt")
            else Ok (files (env st)));
      self ← (if tune_displacement self
              then _adjust_displacement self else Ok self);
      Ok (mk_loop self total_pair_energy (mk_world g3 fs log'))
    else
      Ok (mk_loop self total_pair_energy
            (mk_world g3 (files (env st)) (log (env st)))).

Fixpoint run_loop `{Libm} `{RandomSource G} (tail_correction : Q)
    (freq : Z) (save_dir : string) (save_snaps : bool) (steps : list nat)
    (st : loop_state G) : result (loop_state G) :=
  match steps with
  | [] => Ok st
  | i_step :: rest =>
      st' ← run_step tail_correction freq save_dir save_snaps i_step st;
      run_loop tail_correction freq save_dir save_snaps rest st'
  end.

(** The state in which [run] enters its loop.  Creating the result
    directory and opening [results.log] (mode [w+], which empties it) are
    taken to succeed. *)
Definition run_enter {G} (self : t) (n_steps : nat) (freq : Z) (w : world G)
  : result (loop_state G) :=
  let self := set_freq self freq in
  let w := mk_world (rng w) (files w) [] in
  total_pair_energy ←
    Energy.calculate_total_pair_energy (_Energy self) (_Geom self);
  self ← (if (current_step self =? 0)%nat then
            a ← setitem (_energy_array self ++ replicate (n_steps + 1) 0)
                  0 total_pair_energy;
            Ok (set_energy_array self a)
          else
            Ok (set_energy_array self
                  (_energy_array self ++ replicate n_steps 0)));
  Ok (mk_loop self total_pair_energy w).

Definition run `{Libm} `{RandomSource G} (self : t) (n_steps : nat)
    (freq : Z) (save_dir : string) (save_snaps : bool) (w : world G)
  : result (t * world G) :=
  let tail_correction :=
    Energy.calculate_tail_correction (_Energy self) (_Geom self) in
  st ← run_enter self n_steps freq w;
  st ← run_loop tail_correction freq save_dir save_snaps (seq 1 n_steps) st;
  Ok (engine st, env st).

End MC.

(** [get_energy] of [mm_2019_sss_1/mc.py]. *)
Module MC_sss.

Definition get_energy (self : MC.t) : result (list Q) :=
  if (length (MC._energy_array self) =? 0)%nat
  then Raise (ValueError "Simulation has not started running!")
  else Ok (MC._energy_array self).

End MC_sss.

(** ** binary64 arithmetic *)

Module B64.

(** A NumPy [float64]: IEEE 754 binary64. *)
Definition t : Type := spec_float.

Definition prec : Z := 53.
Definition emax : Z := 1024.

Definition add : t -> t -> t := SFadd prec emax.
Definition sub : t -> t -> t := SFsub prec emax.
Definition mul : t -> t -> t := SFmul prec emax.
Definition div : t -> t -> t := SFdiv prec emax.

(** Python's [x < y] and [x == y]; both are false on [nan]. *)
Definition ltb : t -> t -> bool := SFltb.
Definition eqb : t -> t -> bool := SFeqb.

Definition zero : t := S754_zero false.

(** An integer as a float. *)
Definition of_Z (n : Z) : t := binary_normalize prec emax n 0%Z false.

(** The decimal literal [n/d]: the binary64 number nearest to it. *)
Definition literal (n : Z) (d : positive) : t :=
  match n with
  | Z0 => zero
  | Zpos p => div (S754_finite false p 0) (S754_finite false d 0)
  | Zneg p => div (S754_finite true p 0) (S754_finite false d 0)
  end.

(** [x == 0.0], true of both zeros. *)
Definition is_zero (x : t) : bool :=
  match x with
  | S754_zero _ => true
  | _ => false
  end.

(** [np.isfinite]. *)
Definition is_finite (x : t) : bool :=
  match x with
  | S754_zero _ | S754_finite _ _ _ => true
  | _ => false
  end.

(** The sign bit is clear, or the number is [nan]: [+0], a positive number
    or [+inf]. *)
Definition sign_clear (x : t) : bool :=
  match x with
  | S754_zero s | S754_infinity s | S754_finite s _ _ => negb s
  | S754_nan => true
  end.

(** The integer nearest to [m / 2^k], ties going to the even one. *)
Definition round_half_even (m k : Z) : Z :=
  let q := Z.shiftr m k in
  let r := (m - Z.shiftl q k)%Z in
  match Z.compare (2 * r) (Z.shiftl 1 k) with
  | Lt => q
  | Gt => (q + 1)%Z
  | Eq => if Z.even q then q else (q + 1)%Z
  end.

(** [np.round] with no decimals, that is [np.rint]: the nearest integer as a
    float, ties going to the even one; zeros, [inf] and [nan] are returned
    as they are and the sign is kept, so [np.round(-0.3)] is [-0.0]. *)
Definition np_round (x : t) : t :=
  match x with
  | S754_finite s m e =>
      if (0 <=? e)%Z then x
      else binary_normalize prec emax
             (cond_Zopp s (round_half_even (Zpos m) (- e))) 0%Z s
  | _ => x
  end.

(** [np.sum] along an axis of fewer than eight elements: the elements are
    added to zero one after the other. *)
Definition np_sum (l : list t) : t := foldl add zero l.

End B64.

Declare Scope b64_scope.
Delimit Scope b64_scope with b64.
Infix "+" := B64.add : b64_scope.
Infix "-" := B64.sub : b64_scope.
Infix "*" := B64.mul : b64_scope.
Infix "/" := B64.div : b64_scope.

(** ** geom.py over binary64 *)

Module Geom64.

Record t := mk {
  num_particles : B64.t;
  box_length : B64.t;
  volume : B64.t;
  coordinates : list (list B64.t)
}.

(** [minimum_image_distance(r_i, coords)] for a single point [coords];
    [rij**2] is [rij * rij]. *)
Definition minimum_image_distance (self : t) (r_i coords : list B64.t)
  : B64.t :=
  let rij := zip_with B64.sub r_i coords in
  let rij := map (fun d => d - box_length self
                              * B64.np_round (d / box_length self))%b64
                 rij in
  B64.np_sum (map (fun d => d * d)%b64 rij).

(** The same for an array of points, row by row. *)
Definition minimum_image_distances (self : t) (r_i : list B64.t)
    (coords : list (list B64.t)) : list B64.t :=
  map (minimum_image_distance self r_i) coords.

Definition wrap (self : t) (v : list B64.t) : list B64.t :=
  map (fun x => x - box_length self
                    * B64.np_round (x / box_length self))%b64 v.

End Geom64.

(** ** energy.py over binary64 *)

Module Energy64.

Record t := mk {
  cutoff : B64.t;
  cutoff2 : B64.t
}.

Definition init (cutoff : B64.t) : t :=
  {| cutoff := cutoff; cutoff2 := B64.mul cutoff cutoff |}.

(** The squared distances [red[red < self.cutoff2]] that
    [get_particle_energy] hands to [lennard_jones_potential], which starts
    by dividing 1 by each of them. *)
Definition potential_arguments (self : t) (geom : Geom64.t)
    (i_particle : nat) (r_i : list B64.t) (coordinates : list (list B64.t))
  : list B64.t :=
  let rij2 := Geom64.minimum_image_distances geom r_i coordinates in
  let red := delete i_particle rij2 in
  List.filter (fun r => B64.ltb r (cutoff2 self)) red.

End Energy64.

(** ** Instances on which the engine can be run

    The theorems below hold for every [Libm] and every [RandomSource]; the
    two instances here serve to evaluate the definitions on given inputs. *)

(** A generator that replays a script of draws (and yields 0 once the script
    is exhausted). *)
Record script := mk_script {
  unit_draws : list Q;
  int_draws : list nat
}.

#[global] Instance script_source : RandomSource script := {
  rand g :=
    match unit_draws g with
    | [] => (0, g)
    | u :: us => (u, mk_script us (int_draws g))
    end;
  randint high g :=
    match int_draws g with
    | [] => (0%nat, g)
    | i :: rest => (i, mk_script (unit_draws g) rest)
    end
}.

(** A generator that counts its draws: the [k]-th uniform draw is
    [(k mod 16) / 16], the [k]-th index below [high] is [k] modulo the
    integer part of [high]. *)
Record counter := mk_counter { count : nat }.

#[global] Instance counter_source : RandomSource counter := {
  rand g := (Z.of_nat (count g mod 16) # 16, mk_counter (S (count g)));
  randint high g :=
    ((count g mod Z.to_nat (py_int high))%nat, mk_counter (S (count g)))
}.

(** Rational approximations: the Taylor polynomial of degree [n] of the
    exponential, and Newton's iteration for the cube root. *)
Fixpoint exp_taylor (n : nat) (k : Z) (x : Q) : Q :=
  match n with
  | O => 1
  | S n' => 1 + x / inject_Z k * exp_taylor n' (k + 1) x
  end.

Fixpoint cbrt_newton (n : nat) (a x : Q) : Q :=
  match n with
  | O => x
  | S n' => cbrt_newton n' a ((2 * x + a / (x * x)) / 3)
  end.

Definition libm_approx : Libm := {|
  np_exp x := exp_taylor 12 1 x;
  np_cbrt a := cbrt_newton 4 a 1
|}.

(** A box of edge 4 with two particles at squared distance 2: as a
    configuration file (index column first), as the geometry read from it,
    and as the engine built on it at reduced temperature 1, maximum
    displacement 0.1 and cutoff 3. *)
Definition two_particles : file :=
  [[4]; [2]; [1; 0; 0; 0]; [2; 1; 1; 0]].

Definition two_particle_box : Geom.t :=
  Geom.mk 2 4 (4 ^ 3) [[0; 0; 0]; [1; 1; 0]].

Definition two_particle_engine : MC.t :=
  MC.mk (1 / 1) 0 0 (1 # 10) true [] 0 two_particle_box (Energy.init 3) None.

(** A file system that holds the configuration file. *)
Definition start_files : gmap string file :=
  {[ "start.txt" := two_particles ]}.

(** A box of edge 2 with two particles that are distinct points and periodic
    images of one another. *)
Definition image_pair_box : Geom.t :=
  Geom.mk 2 2 (2 ^ 3) [[0; 0; 0]; [2; 0; 0]].

(** The same boxes over binary64.  [two_particle_box64] is
    [two_particle_box]; [decimal_box64] has edge 10 and particles at
    [(0.1, 0, 0)] and [(0.3, 0, 0)]; [narrow_box64] has edge 1.2 and one
    particle; [tiny_gap_box64] has edge 10 and particles at the origin and
    at [(1e-200, 0, 0)]. *)
Definition two_particle_box64 : Geom64.t :=
  Geom64.mk (B64.of_Z 2) (B64.of_Z 4) (B64.of_Z 64)
    [[B64.zero; B64.zero; B64.zero]; [B64.of_Z 1; B64.of_Z 1; B64.zero]].


Definition narrow_box64 : Geom64.t :=
  let L := B64.literal 12 10 in
  Geom64.mk (B64.of_Z 1) L (B64.mul (B64.mul L L) L)
    [[B64.of_Z 3; B64.zero; B64.zero]].

Definition tiny_gap_box64 : Geom64.t :=
  Geom64.mk (B64.of_Z 2) (B64.of_Z 10) (B64.of_Z 1000)
    [[B64.zero; B64.zero; B64.zero];
     [B64.literal 1 (10 ^ 200); B64.zero; B64.zero]].


(** ** Vocabulary of the statements *)

(** Two points are periodic images of one another in a box of edge [L] when
    they differ, component by component, by whole numbers of box lengths. *)
Definition periodic_images (L : Q) (p q : list Q) : Prop :=
  Forall2 (fun x y => exists k : Z, x - y == inject_Z k * L) p q.

(** What a pair of points contributes to a particle energy: the potential
    at their minimum-image distance within the cutoff, nothing beyond. *)
Definition pair_term (self : Energy.t) (geom : Geom.t) (p q : list Q) : Q :=
  let r := Geom.minimum_image_distance geom p q in
  if Qltb r (Energy.cutoff2 self) then Energy.lennard_jones_potential r else 0.

(** The pair terms of a point against the points of a list, summed. *)
Definition row_energy (self : Energy.t) (geom : Geom.t) (p : list Q)
    (l : list (list Q)) : Q :=
  np_sum (map (pair_term self geom p) l).

(** The pair terms of every point of a list with itself, summed, and the
    rows of pair terms of every point of a list against an array, summed. *)
Definition self_terms (self : Energy.t) (geom : Geom.t)
    (l : list (list Q)) : Q :=
  np_sum (map (fun q => pair_term self geom q q) l).

Definition rows_energy (self : Energy.t) (geom : Geom.t)
    (l c : list (list Q)) : Q :=
  np_sum (map (fun q => row_energy self geom q c) l).

(** The accumulator of the loop of [run] is exact when it is the total pair
    energy of the coordinates the engine holds. *)
Definition accumulator_exact {G} (st : MC.loop_state G) : Prop :=
  exists T,
    Energy.calculate_total_pair_energy (MC._Energy (MC.engine st))
      (MC._Geom (MC.engine st)) = Ok T
    /\ MC.total_pair_energy st == T.

(** The path of the snapshot written at iteration [i_step] of [run]. *)
Definition snapshot_path (save_dir : string) (i_step : nat) : string :=
  save_dir +:+ "/snap_" +:+ pretty (i_step + 1)%nat +:+ ".txt".

(** The coordinates of a box lie in its primary cell when they form an
    N x 3 array whose components are within half a box length of zero. *)
Definition in_primary_cell (geom : Geom.t) : Prop :=
  Forall (fun r => length r = 3%nat
                   /\ Forall (fun x => - (Geom.box_length geom / 2) <= x
                                       /\ x <= Geom.box_length geom / 2) r)
    (Geom.coordinates geom).

(** Two geometries describe the same box with as many particles. *)
Definition same_box (geom geom' : Geom.t) : Prop :=
  Geom.num_particles geom' = Geom.num_particles geom
  /\ Geom.box_length geom' = Geom.box_length geom
  /\ Geom.volume geom' = Geom.volume geom
  /\ length (Geom.coordinates geom') = length (Geom.coordinates geom).

(** The iterations of a run of [n_steps] steps that write a log line. *)
Definition logging_steps (freq : Z) (first n_steps : nat) : list nat :=
  List.filter (fun i_step => (np_mod (Z.of_nat i_step + 1) freq =? 0)%Z)
    (seq first n_steps).

(** * Properties *)

(** ** Comparison and rounding *)

Lemma Qltb_lt (x y : Q) : Qltb x y = true <-> x < y.
Proof.
  unfold Qltb. rewrite Qlt_alt.
  destruct (Qcompare x y); split; intros E; congruence.
Qed.

Lemma Qltb_ge (x y : Q) : Qltb x y = false <-> y <= x.
Proof.
  rewrite <- not_true_iff_false, Qltb_lt. split; intros E.
  - now apply Qnot_lt_le.
  - now apply Qle_not_lt.
Qed.

Lemma np_round_comp (x y : Q) : x == y -> np_round x = np_round y.
Proof.
  intros E. unfold np_round.
  rewrite (Qfloor_comp _ _ E).
  assert (C : Qcompare (x - inject_Z (Qfloor y)) (1 # 2)
              = Qcompare (y - inject_Z (Qfloor y)) (1 # 2))
    by (apply Qcompare_comp; [rewrite E |]; reflexivity).
  now rewrite C.
Qed.

#[global] Instance np_round_proper : Proper (Qeq ==> eq) np_round.
Proof. exact np_round_comp. Qed.

(** The fractional part seen by [np_round]. *)
Lemma Qfloor_frac (x : Q) : 0 <= x - inject_Z (Qfloor x) < 1.
Proof.
  pose proof (Qfloor_le x) as Hl. pose proof (Qlt_floor x) as Hu.
  rewrite inject_Z_plus in Hu. change (inject_Z 1) with 1 in Hu.
  split; lra.
Qed.

Lemma Qfloor_shift (x : Q) (k : Z) :
  Qfloor (x + inject_Z k) = (Qfloor x + k)%Z.
Proof.
  pose proof (Qfloor_frac x) as [Hl Hu].
  pose proof (Qfloor_frac (x + inject_Z k)) as [Hl' Hu'].
  set (a := Qfloor x) in *. set (b := Qfloor (x + inject_Z k)) in *.
  assert (Hlt1 : inject_Z b < inject_Z (a + k + 1)).
  { rewrite !inject_Z_plus. change (inject_Z 1) with 1. lra. }
  assert (Hlt2 : inject_Z (a + k) < inject_Z (b + 1)).
  { rewrite !inject_Z_plus. change (inject_Z 1) with 1. lra. }
  rewrite <- Zlt_Qlt in Hlt1, Hlt2. lia.
Qed.

(** [np.round] moves its argument by at most one half. *)
Lemma np_round_residual (x : Q) :
  - (1 # 2) <= x - inject_Z (np_round x) <= 1 # 2.
Proof.
  pose proof (Qfloor_frac x) as [Hl Hu]. unfold np_round.
  destruct (Qcompare (x - inject_Z (Qfloor x)) (1 # 2)) eqn:C.
  - apply Qeq_alt in C.
    destruct (Z.even (Qfloor x)).
    + split; lra.
    + rewrite inject_Z_plus. change (inject_Z 1) with 1. split; lra.
  - apply Qlt_alt in C. split; lra.
  - apply Qgt_alt in C. rewrite inject_Z_plus. change (inject_Z 1) with 1.
    split; lra.
Qed.

(** Everything within one half of zero, both ends included, rounds to 0. *)
Lemma np_round_half_unit (y : Q) :
  - (1 # 2) <= y <= 1 # 2 -> np_round y = 0%Z.
Proof.
  intros [Hl Hu].
  pose proof (Qfloor_frac y) as [Fl Fu].
  assert (Hf : Qfloor y = 0%Z \/ Qfloor y = (-1)%Z).
  { assert (inject_Z (-2) < inject_Z (Qfloor y)) as H1
      by (change (inject_Z (-2)) with (-2 # 1); lra).
    assert (inject_Z (Qfloor y) < inject_Z 1) as H2
      by (change (inject_Z 1) with 1; lra).
    rewrite <- Zlt_Qlt in H1, H2. lia. }
  unfold np_round.
  destruct Hf as [Hf | Hf]; rewrite Hf in *; simpl Z.even; cbv iota.
  - change (inject_Z 0) with 0 in *.
    destruct (Qcompare (y - 0) (1 # 2)) eqn:C; try reflexivity.
    apply Qgt_alt in C. lra.
  - change (inject_Z (-1)) with (-1 # 1) in *.
    destruct (Qcompare (y - (-1 # 1)) (1 # 2)) eqn:C; try reflexivity.
    apply Qlt_alt in C. lra.
Qed.

Lemma Qsquare_eq_or_opp (u v : Q) : u == v \/ u == - v -> u ^ 2 == v ^ 2.
Proof.
  intros [E | E]; rewrite E; [reflexivity | simpl; ring].
Qed.

(** The squared distance to the rounded value is invariant under integer
    shifts: off a tie the rounded value shifts along, on a tie the residual
    is one half up to sign. *)
Lemma np_round_shift_sq (x : Q) (k : Z) :
  (x + inject_Z k - inject_Z (np_round (x + inject_Z k))) ^ 2
  == (x - inject_Z (np_round x)) ^ 2.
Proof.
  unfold np_round. rewrite Qfloor_shift.
  assert (C : Qcompare (x + inject_Z k - inject_Z (Qfloor x + k)) (1 # 2)
              = Qcompare (x - inject_Z (Qfloor x)) (1 # 2)).
  { apply Qcompare_comp; [| reflexivity]. rewrite inject_Z_plus. ring. }
  rewrite C.
  destruct (Qcompare (x - inject_Z (Qfloor x)) (1 # 2)) eqn:D.
  - apply Qeq_alt in D.
    destruct (Z.even (Qfloor x + k)), (Z.even (Qfloor x));
      rewrite ?inject_Z_plus; change (inject_Z 1) with 1;
      apply Qsquare_eq_or_opp; first [left; lra | right; lra].
  - rewrite inject_Z_plus. apply Qsquare_eq_or_opp. left. ring.
  - rewrite !inject_Z_plus. change (inject_Z 1) with 1.
    apply Qsquare_eq_or_opp. left. ring.
Qed.

(** ** The periodic box: [wrap] and [minimum_image_distance] *)

Section Box.

Variable L : Q.
Hypothesis L_pos : 0 < L.

(** One component of [wrap] is [L] times the rounding residual. *)
Lemma wrap_component_residual (x : Q) :
  x - L * inject_Z (np_round (x / L))
  == L * (x / L - inject_Z (np_round (x / L))).
Proof. field. lra. Qed.

Lemma wrap_component_range (x : Q) :
  - (L / 2) <= x - L * inject_Z (np_round (x / L)) <= L / 2.
Proof.
  rewrite wrap_component_residual.
  pose proof (np_round_residual (x / L)) as [Hl Hu].
  set (r := x / L - inject_Z (np_round (x / L))) in *.
  assert (E1 : L / 2 == L * (1 # 2)) by field.
  assert (E2 : - (L / 2) == L * - (1 # 2)) by field.
  rewrite E1, E2. split; apply Qmult_le_l; assumption.
Qed.

(** A wrapped component divided by [L] rounds to zero. *)
Lemma wrap_component_round (x : Q) :
  np_round ((x - L * inject_Z (np_round (x / L))) / L) = 0%Z.
Proof.
  apply np_round_half_unit.
  assert (E : (x - L * inject_Z (np_round (x / L))) / L
              == x / L - inject_Z (np_round (x / L))) by (field; lra).
  rewrite E. apply np_round_residual.
Qed.

Lemma wrap_component_idempotent (x : Q) :
  let w := x - L * inject_Z (np_round (x / L)) in
  w - L * inject_Z (np_round (w / L)) == w.
Proof.
  intros w. unfold w. rewrite wrap_component_round.
  change (inject_Z 0) with 0. ring.
Qed.

(** A squared minimum-image component does not see a shift of the raw
    difference by a whole number of box lengths. *)
Lemma image_component_shift (d : Q) (k : Z) :
  (d + inject_Z k * L
     - L * inject_Z (np_round ((d + inject_Z k * L) / L))) ^ 2
  == (d - L * inject_Z (np_round (d / L))) ^ 2.
Proof.
  assert (E : (d + inject_Z k * L) / L == d / L + inject_Z k)
    by (field; lra).
  rewrite E.
  assert (S1 : d + inject_Z k * L
                 - L * inject_Z (np_round (d / L + inject_Z k))
               == L * (d / L + inject_Z k
                         - inject_Z (np_round (d / L + inject_Z k))))
    by (field; lra).
  rewrite S1, wrap_component_residual. simpl.
  pose proof (np_round_shift_sq (d / L) k) as Hs. simpl in Hs.
  set (a := d / L + inject_Z k - inject_Z (np_round (d / L + inject_Z k))) in *.
  set (b := d / L - inject_Z (np_round (d / L))) in *.
  transitivity (L * L * (a * a)); [ring |].
  rewrite Hs. ring.
Qed.

End Box.

(** In exact arithmetic, in a box of positive length, [wrap] is idempotent
    and every component of [wrap v] lies in the closed interval
    [[-length/2, length/2]].  Neither half survives the roundings of
    binary64, see [wrap64_overshoots] below. *)
Theorem wrap_idempotent_closed_range (self : Geom.t) (v : list Q) :
  0 < Geom.box_length self ->
  Forall2 Qeq (Geom.wrap self (Geom.wrap self v)) (Geom.wrap self v)
  /\ Forall (fun c => - (Geom.box_length self / 2) <= c
                      /\ c <= Geom.box_length self / 2)
       (Geom.wrap self v).
Proof.
  intros HL. unfold Geom.wrap. split.
  - induction v as [| x v IH]; simpl; constructor; [| exact IH].
    apply (wrap_component_idempotent _ HL).
  - induction v as [| x v IH]; simpl; constructor; [| exact IH].
    apply (wrap_component_range _ HL).
Qed.

Lemma wrap_idempotent_closed_range_witness :
  let box := two_particle_box in
  Forall2 Qeq (Geom.wrap box (Geom.wrap box [3; -1; 1 # 2]))
              (Geom.wrap box [3; -1; 1 # 2])
  /\ Forall (fun c => - (Geom.box_length box / 2) <= c
                      /\ c <= Geom.box_length box / 2)
       (Geom.wrap box [3; -1; 1 # 2]).
Proof.
  intros box.
  apply (wrap_idempotent_closed_range box [3; -1; 1 # 2]).
  reflexivity.
Defined.

(** *** [wrap] over binary64 *)






(** In binary64 the closed range and the idempotence fail as well: in a box
    of length 1.2 the component 3.0 is wrapped to 0.60000000000000009, which
    is above [length / 2 = 0.59999999999999998], and wrapping the result
    again gives -0.59999999999999987.  In the box of length 4 the vector
    [(2, 0, 0)] is wrapped to itself, as in exact arithmetic. *)
Lemma wrap64_overshoots :
  let L := Geom64.box_length narrow_box64 in
  let w := Geom64.wrap narrow_box64 [B64.of_Z 3] in
  w = [S754_finite false 5404319552844596 (-53)]
  /\ Geom64.wrap narrow_box64 w = [S754_finite true 5404319552844594 (-53)]
  /\ Forall (fun c => B64.ltb (L / B64.of_Z 2)%b64 c = true) w
  /\ Geom64.wrap two_particle_box64 [B64.of_Z 2; B64.zero; B64.zero]
     = [B64.of_Z 2; B64.zero; B64.zero].
Proof.
  vm_compute. split; [reflexivity |]. split; [reflexivity |].
  split; [| reflexivity]. repeat constructor.
Qed.




(** ** The acceptance test *)

(** C2: a negative energy change is accepted without touching the generator;
    a non-negative one consumes exactly one draw [u] and is accepted if and
    only if [u < exp (- beta * delta_e)]; the decision depends on the engine
    and the generator only through [beta] and that draw. *)
Theorem accept_or_reject_metropolis `{Libm} `{RandomSource G}
    (self : MC.t) (delta_e : Q) (g : G) :
  (delta_e < 0 -> MC._accept_or_reject self delta_e g = (true, g))
  /\ (0 <= delta_e ->
      snd (MC._accept_or_reject self delta_e g) = snd (rand g)
      /\ (fst (MC._accept_or_reject self delta_e g) = true
          <-> fst (rand g) < np_exp (- MC.beta self * delta_e)))
  /\ (forall (self' : MC.t) (g' : G),
        MC.beta self' = MC.beta self ->
        fst (rand g') = fst (rand g) ->
        fst (MC._accept_or_reject self' delta_e g')
        = fst (MC._accept_or_reject self delta_e g)).
Proof.
  unfold MC._accept_or_reject. split; [| split].
  - intros Hneg. apply Qltb_lt in Hneg. now rewrite Hneg.
  - intros Hpos. apply Qltb_ge in Hpos. rewrite Hpos.
    destruct (rand g) as [u g1]. simpl.
    split; [now destruct (Qltb u _) |].
    rewrite <- Qltb_lt. now destruct (Qltb u _).
  - intros self' g' Hb Hu. rewrite Hb.
    destruct (Qltb delta_e 0); [reflexivity |].
    destruct (rand g) as [u g1], (rand g') as [u' g1']. simpl in Hu. subst u'.
    now destruct (Qltb u _).
Qed.

Lemma accept_or_reject_metropolis_witness :
  let g := mk_script [1 # 4; 3 # 4] [] in
  @MC._accept_or_reject libm_approx _ _ two_particle_engine (- (1)) g = (true, g)
  /\ (fst (@MC._accept_or_reject libm_approx _ _ two_particle_engine 1 g) = true
      <-> 1 # 4 < @np_exp libm_approx (- (1) * 1)).
Proof.
  intros g.
  destruct (@accept_or_reject_metropolis libm_approx _ _ two_particle_engine
              (- (1)) g) as [Hneg _].
  destruct (@accept_or_reject_metropolis libm_approx _ _ two_particle_engine
              1 g) as [_ [Hpos _]].
  split.
  - apply Hneg. reflexivity.
  - apply Hpos. discriminate.
Defined.

(** ** The displacement tuning rule *)

(** C5: with a positive trial count the tuning rule returns normally; the new
    maximum displacement is the old one times 0.8 when
    [acceptCount / trialCount < 0.38], times 1.2 when the rate exceeds 0.42,
    and the old one in between; both counters are zero afterwards. *)
Theorem adjust_displacement_rule (self : MC.t) :
  (0 < MC._n_trials self)%Z ->
  let acc_rate :=
    inject_Z (MC._n_accept self) / inject_Z (MC._n_trials self) in
  exists self',
    MC._adjust_displacement self = Ok self'
    /\ (acc_rate < 38 # 100 ->
        MC.max_displacement self' = MC.max_displacement self * (8 # 10))
    /\ (42 # 100 < acc_rate ->
        MC.max_displacement self' = MC.max_displacement self * (12 # 10))
    /\ (38 # 100 <= acc_rate /\ acc_rate <= 42 # 100 ->
        MC.max_displacement self' = MC.max_displacement self)
    /\ MC._n_trials self' = 0%Z
    /\ MC._n_accept self' = 0%Z.
Proof.
  intros Hpos acc_rate. unfold MC._adjust_displacement.
  destruct (Z.eqb_spec (MC._n_trials self) 0) as [E | _]; [lia |].
  fold acc_rate. eexists. split; [reflexivity |].
  destruct (Qltb acc_rate (38 # 100)) eqn:Lo;
    [| destruct (Qltb (42 # 100) acc_rate) eqn:Hi];
    rewrite ?Qltb_lt, ?Qltb_ge in *; simpl;
    repeat split; try reflexivity; intros; lra.
Qed.

(** The three cases of the rule on a window of 100 trials. *)
Lemma adjust_displacement_rule_witness :
  let window accepted := MC.set_counters two_particle_engine 100 accepted in
  (exists self', MC._adjust_displacement (window 30%Z) = Ok self'
     /\ MC.max_displacement self' = (1 # 10) * (8 # 10)
     /\ MC._n_trials self' = 0%Z /\ MC._n_accept self' = 0%Z)
  /\ (exists self', MC._adjust_displacement (window 50%Z) = Ok self'
     /\ MC.max_displacement self' = (1 # 10) * (12 # 10)
     /\ MC._n_trials self' = 0%Z /\ MC._n_accept self' = 0%Z)
  /\ (exists self', MC._adjust_displacement (window 40%Z) = Ok self'
     /\ MC.max_displacement self' = 1 # 10
     /\ MC._n_trials self' = 0%Z /\ MC._n_accept self' = 0%Z).
Proof.
  intros window. split; [| split].
  - destruct (adjust_displacement_rule (window 30%Z)) as (s & E & Lo & _ & _ & T & A);
      [reflexivity |].
    exists s. repeat split; [exact E | apply Lo; reflexivity | exact T | exact A].
  - destruct (adjust_displacement_rule (window 50%Z)) as (s & E & _ & Hi & _ & T & A);
      [reflexivity |].
    exists s. repeat split; [exact E | apply Hi; reflexivity | exact T | exact A].
  - destruct (adjust_displacement_rule (window 40%Z)) as (s & E & _ & _ & Mid & T & A);
      [reflexivity |].
    exists s. repeat split; [exact E | apply Mid; split; discriminate | exact T | exact A].
Defined.

(** ** The trial move *)

(** Assigning a row and then assigning the saved row back restores the
    array. *)
Lemma assign_then_restore {A} (a : list A) (i : nat) (old new : A) :
  a !! i = Some old -> <[i := old]> (<[i := new]> a) = a.
Proof.
  intros Hi. rewrite list_insert_insert_eq. now apply list_insert_id.
Qed.

(** [trial_move] on a particle of the array, with the two energy evaluations
    and the two assignments carried out. *)
Lemma trial_move_unfold `{Libm} `{RandomSource G} (self : MC.t)
    (total_pair_energy : Q) (i_particle : nat)
    (random_displacement old_coordinate : list Q) (g : G) :
  Geom.coordinates (MC._Geom self) !! i_particle = Some old_coordinate ->
  let coords := Geom.coordinates (MC._Geom self) in
  let energy_of r c :=
    np_sum (map Energy.lennard_jones_potential
              (Energy.potential_arguments (MC._Energy self) (MC._Geom self)
                 i_particle r c)) in
  let proposed_coordinate :=
    Geom.wrap (MC._Geom self) (zip_with Qplus old_coordinate random_displacement) in
  let moved := <[i_particle := proposed_coordinate]> coords in
  let delta_e :=
    energy_of proposed_coordinate moved - energy_of old_coordinate coords in
  MC.trial_move self total_pair_energy i_particle random_displacement g
  = if fst (MC._accept_or_reject self delta_e g)
    then Ok (MC.set_counters (MC.set_coordinates self moved)
               (MC._n_trials self) (MC._n_accept self + 1),
             total_pair_energy + delta_e,
             snd (MC._accept_or_reject self delta_e g))
    else Ok (MC.set_coordinates self coords, total_pair_energy,
             snd (MC._accept_or_reject self delta_e g)).
Proof.
  intros Hi. cbv zeta.
  pose proof (lookup_lt_Some _ _ _ Hi) as Hlt.
  unfold MC.trial_move, Energy.get_particle_energy.
  rewrite Hi. cbn [mbind result_bind].
  cbn [MC.set_coordinates MC._Geom MC._Energy Geom.coordinates].
  rewrite list_lookup_insert_eq by exact Hlt.
  cbn [mbind result_bind].
  match goal with
  | |- context [MC._accept_or_reject self ?d g] =>
      remember (MC._accept_or_reject self d g) as decision eqn:Edec
  end.
  match goal with
  | |- context [MC._accept_or_reject ?s ?d g] =>
      replace (MC._accept_or_reject s d g) with decision
        by (rewrite Edec; reflexivity)
  end.
  destruct decision as [[|] g']; cbn [fst snd].
  - reflexivity.
  - rewrite (assign_then_restore _ _ _ _ Hi). now destruct self as [? ? ? ? ? ? ? []].
Qed.

(** C6: a trial move on a particle [i] of the array either commits or
    reverts as a whole.  With [delta_e] the change of the energy of particle
    [i] and [accept] the outcome of the acceptance test: on acceptance row
    [i] is the wrapped proposal, the accumulator has grown by [delta_e] and
    the accept counter by one; on rejection the coordinate array and the
    accumulator are what they were; all other rows are untouched in both
    cases. *)
Theorem trial_move_atomic `{Libm} `{RandomSource G} (self : MC.t)
    (total_pair_energy : Q) (i_particle : nat)
    (random_displacement old_coordinate : list Q) (g : G) :
  Geom.coordinates (MC._Geom self) !! i_particle = Some old_coordinate ->
  let coords := Geom.coordinates (MC._Geom self) in
  let proposed_coordinate :=
    Geom.wrap (MC._Geom self) (zip_with Qplus old_coordinate random_displacement) in
  exists current_energy proposed_energy self' total',
    Energy.get_particle_energy (MC._Energy self) (MC._Geom self) i_particle coords
      = Ok current_energy
    /\ Energy.get_particle_energy (MC._Energy self) (MC._Geom self) i_particle
         (<[i_particle := proposed_coordinate]> coords)
      = Ok proposed_energy
    /\ let delta_e := proposed_energy - current_energy in
       let accept := fst (MC._accept_or_reject self delta_e g) in
       MC.trial_move self total_pair_energy i_particle random_displacement g
         = Ok (self', total', snd (MC._accept_or_reject self delta_e g))
       /\ (accept = true ->
           Geom.coordinates (MC._Geom self')
             = <[i_particle := proposed_coordinate]> coords
           /\ total' = total_pair_energy + delta_e
           /\ MC._n_accept self' = (MC._n_accept self + 1)%Z)
       /\ (accept = false ->
           Geom.coordinates (MC._Geom self') = coords
           /\ Geom.coordinates (MC._Geom self') !! i_particle = Some old_coordinate
           /\ total' = total_pair_energy
           /\ MC._n_accept self' = MC._n_accept self)
       /\ (forall j, j <> i_particle ->
           Geom.coordinates (MC._Geom self') !! j = coords !! j).
Proof.
  intros Hi coords proposed_coordinate.
  pose proof (lookup_lt_Some _ _ _ Hi) as Hlt.
  pose proof (trial_move_unfold self total_pair_energy i_particle
                random_displacement old_coordinate g Hi) as Hmove.
  cbv zeta in Hmove.
  unfold Energy.get_particle_energy.
  change (Geom.coordinates (MC._Geom self)) with coords in Hi, Hmove |- *.
  fold proposed_coordinate in Hmove.
  rewrite Hi, list_lookup_insert_eq by exact Hlt.
  do 2 eexists.
  destruct (fst (MC._accept_or_reject self _ g)) eqn:Hacc in Hmove.
  - do 2 eexists. split; [reflexivity |]. split; [reflexivity |].
    cbv zeta. split; [exact Hmove |]. rewrite Hacc.
    split; [| split].
    + intros _. repeat split; reflexivity.
    + discriminate.
    + intros j Hj. cbn. now apply list_lookup_insert_ne.
  - do 2 eexists. split; [reflexivity |]. split; [reflexivity |].
    cbv zeta. split; [exact Hmove |]. rewrite Hacc.
    split; [discriminate |]. split.
    + intros _. repeat split; try reflexivity. exact Hi.
    + intros j _. reflexivity.
Qed.

Lemma trial_move_atomic_witness :
  let g := mk_script [9 # 10] [] in
  exists self' total' g',
    @MC.trial_move libm_approx _ _ two_particle_engine (- (7 # 16)) 0
      [1 # 20; 0; 0] g = Ok (self', total', g')
    /\ (forall j, j <> 0%nat ->
        Geom.coordinates (MC._Geom self') !! j
        = Geom.coordinates two_particle_box !! j).
Proof.
  intros g.
  destruct (@trial_move_atomic libm_approx _ _ two_particle_engine
              (- (7 # 16)) 0 [1 # 20; 0; 0] [0; 0; 0] g eq_refl)
    as (current_energy & proposed_energy & self' & total' & _ & _ & Hrest).
  cbv zeta in Hrest. destruct Hrest as (Hmove & _ & _ & Hothers).
  exists self', total'. eexists. split; [exact Hmove | exact Hothers].
Defined.

(** ** Pair energies *)

Lemma Qsquare_nonneg (d : Q) : 0 <= d ^ 2.
Proof. simpl. nra. Qed.

Lemma Qsquare_zero (d : Q) : d ^ 2 == 0 -> d == 0.
Proof. simpl. intros E. nra. Qed.

Lemma sum_of_squares_nonneg (l : list Q) :
  0 <= np_sum (map (fun d => d ^ 2) l).
Proof.
  induction l as [| d l IH]; cbn [map np_sum foldr]; [lra |].
  fold (np_sum (map (fun d => d ^ 2) l)).
  pose proof (Qsquare_nonneg d). lra.
Qed.

Lemma minimum_image_distance_nonneg (geom : Geom.t) (p q : list Q) :
  0 <= Geom.minimum_image_distance geom p q.
Proof. apply sum_of_squares_nonneg. Qed.

(** In a box of positive edge, two points of the same dimension at
    minimum-image distance zero are periodic images of one another. *)
Lemma minimum_image_distance_zero (geom : Geom.t) (p q : list Q) :
  0 < Geom.box_length geom ->
  length p = length q ->
  Geom.minimum_image_distance geom p q == 0 ->
  periodic_images (Geom.box_length geom) p q.
Proof.
  intros HL. unfold Geom.minimum_image_distance, periodic_images.
  set (L := Geom.box_length geom) in *. clearbody L.
  revert q. induction p as [| x p IH]; intros [| y q] Hlen Hz;
    simpl in Hlen; try discriminate; [constructor |].
  injection Hlen as Hlen.
  cbn [zip_with map np_sum foldr] in Hz.
  set (tail := zip_with Qminus p q) in *.
  pose proof (sum_of_squares_nonneg
                (map (fun d => d - L * inject_Z (np_round (d / L))) tail)) as Ht.
  unfold np_sum in Ht.
  pose proof (Qsquare_nonneg (x - y - L * inject_Z (np_round ((x - y) / L)))) as Hh.
  constructor.
  - exists (np_round ((x - y) / L)).
    assert (E : (x - y - L * inject_Z (np_round ((x - y) / L))) ^ 2 == 0) by lra.
    apply Qsquare_zero in E. lra.
  - apply IH; [exact Hlen |]. fold tail. unfold np_sum. lra.
Qed.

(** What [np.delete a i] keeps sits in [a] at an index other than [i]. *)
Lemma elem_of_delete_lookup {A} (a : list A) (i : nat) (x : A) :
  x ∈ delete i a -> exists j, j <> i /\ a !! j = Some x.
Proof.
  intros Hx. apply list_elem_of_lookup_1 in Hx as [j Hj].
  destruct (Nat.lt_ge_cases j i) as [Hlt | Hge].
  - rewrite list_lookup_delete_lt in Hj by exact Hlt.
    exists j. split; [lia | exact Hj].
  - rewrite list_lookup_delete_ge in Hj by exact Hge.
    exists (S j). split; [lia | exact Hj].
Qed.

(** A point is at minimum-image distance zero from itself. *)
Lemma minimum_image_distance_self (geom : Geom.t) (p : list Q) :
  Geom.minimum_image_distance geom p p == 0.
Proof.
  unfold Geom.minimum_image_distance.
  induction p as [| x p IH]; cbn [zip_with map np_sum foldr]; [reflexivity |].
  fold (np_sum) in *. unfold np_sum in IH |- *. rewrite IH.
  assert (E : x - x == 0) by ring.
  rewrite (np_round_comp _ _ (Qdiv_comp _ _ E _ _ (Qeq_refl _))), E.
  assert (Z0 : 0 / Geom.box_length geom == 0) by (unfold Qdiv; ring).
  rewrite (np_round_comp _ _ Z0).
  change (inject_Z (np_round 0)) with 0. simpl. ring.
Qed.

(** In exact arithmetic, in a box of positive edge, for a particle [i] of an
    N x d coordinate array in which no other particle is a periodic image of
    particle [i], [get_particle_energy] returns the sum of the potential over
    squared distances that are all strictly positive.  In binary64 a squared
    distance can be zero between points that are no periodic images, see
    [tiny_gap_at_zero]; the statement about the code is
    [particle_energy64_avoids_zero]. *)
Theorem particle_energy_avoids_zero (self : Energy.t) (geom : Geom.t)
    (i_particle : nat) (coordinates : list (list Q)) (r_i : list Q) :
  0 < Geom.box_length geom ->
  coordinates !! i_particle = Some r_i ->
  Forall (fun r => length r = length r_i) coordinates ->
  (forall j r_j, j <> i_particle -> coordinates !! j = Some r_j ->
                 ~ periodic_images (Geom.box_length geom) r_i r_j) ->
  let rij2 := Geom.minimum_image_distances geom r_i coordinates in
  (exists d, rij2 !! i_particle = Some d /\ d == 0)
  /\ Energy.potential_arguments self geom i_particle r_i coordinates
     = List.filter (fun r => Qltb r (Energy.cutoff2 self)) (delete i_particle rij2)
  /\ Forall (fun r => 0 < r)
       (Energy.potential_arguments self geom i_particle r_i coordinates)
  /\ Energy.get_particle_energy self geom i_particle coordinates
     = Ok (np_sum (map Energy.lennard_jones_potential
                     (Energy.potential_arguments self geom i_particle r_i
                        coordinates))).
Proof.
  intros HL Hi Hshape Himg rij2. split; [| split; [| split]].
  - exists (Geom.minimum_image_distance geom r_i r_i). split.
    + unfold rij2, Geom.minimum_image_distances.
      change (map ?f ?l) with (f <$> l). now rewrite list_lookup_fmap, Hi.
    + apply minimum_image_distance_self.
  - reflexivity.
  - unfold Energy.potential_arguments. fold rij2.
    apply Forall_forall. intros r Hr.
    apply list_elem_of_In, filter_In in Hr as [Hr _].
    apply list_elem_of_In, elem_of_delete_lookup in Hr as (j & Hj & Hr).
    unfold rij2, Geom.minimum_image_distances in Hr.
    change (map ?f ?l) with (f <$> l) in Hr. rewrite list_lookup_fmap in Hr.
    destruct (coordinates !! j) as [r_j |] eqn:Ej; [| discriminate Hr].
    injection Hr as <-.
    pose proof (minimum_image_distance_nonneg geom r_i r_j) as Hnn.
    destruct (Qeq_dec (Geom.minimum_image_distance geom r_i r_j) 0) as [Hz | Hnz].
    + exfalso. apply (Himg j r_j Hj Ej).
      apply minimum_image_distance_zero; [exact HL | | exact Hz].
      rewrite Forall_lookup in Hshape. symmetry. exact (Hshape j r_j Ej).
    + apply Qle_lteq in Hnn as [Hlt | Heq]; [exact Hlt |].
      exfalso. apply Hnz. symmetry. exact Heq.
  - unfold Energy.get_particle_energy. now rewrite Hi.
Qed.

Lemma particle_energy_avoids_zero_witness :
  Forall (fun r => 0 < r)
    (Energy.potential_arguments (Energy.init 3) two_particle_box 0
       [0; 0; 0] (Geom.coordinates two_particle_box)).
Proof.
  refine (proj1 (proj2 (proj2
    (particle_energy_avoids_zero (Energy.init 3) two_particle_box 0
       (Geom.coordinates two_particle_box) [0; 0; 0] _ _ _ _)))).
  - reflexivity.
  - reflexivity.
  - repeat constructor.
  - intros [| [| j]] r_j Hj Hr; [lia | | discriminate Hr].
    injection Hr as <-. intros Himg.
    inversion Himg as [| x y l l' [k Hk] _]; subst.
    change (Geom.box_length two_particle_box) with 4 in Hk.
    unfold Qeq in Hk. simpl in Hk. lia.
Defined.

(** *** The arguments of the potential over binary64 *)

Lemma binary_round_aux_sign (sx : bool) (mx ex : Z) (lx : location) :
  match binary_round_aux B64.prec B64.emax sx mx ex lx with
  | S754_zero s | S754_infinity s | S754_finite s _ _ => s = sx
  | S754_nan => True
  end.
Proof.
  unfold binary_round_aux.
  destruct (shr_fexp B64.prec B64.emax mx ex lx) as [mrs' e'].
  destruct (shr_fexp B64.prec B64.emax _ e' loc_Exact) as [mrs'' e''].
  destruct (shr_m mrs''); [reflexivity | | exact I].
  destruct (e'' <=? B64.emax - B64.prec)%Z; reflexivity.
Qed.

Lemma sign_clear_round (mx ex : Z) (lx : location) :
  B64.sign_clear (binary_round_aux B64.prec B64.emax false mx ex lx) = true.
Proof.
  pose proof (binary_round_aux_sign false mx ex lx) as E.
  destruct (binary_round_aux _ _ _ _ _ _); try (rewrite E); reflexivity.
Qed.

(** A square is [+0], positive, [+inf] or [nan]. *)
Lemma sign_clear_square (x : B64.t) : B64.sign_clear (x * x)%b64 = true.
Proof.
  destruct x as [[] | [] | | [] m e]; try reflexivity;
    cbn [B64.mul SFmul xorb]; apply sign_clear_round.
Qed.

Lemma sign_clear_add (x y : B64.t) :
  B64.sign_clear x = true -> B64.sign_clear y = true ->
  B64.sign_clear (x + y)%b64 = true.
Proof.
  destruct x as [[] | [] | | [] mx ex]; try discriminate;
    destruct y as [[] | [] | | [] my ey]; try discriminate;
    intros _ _; try reflexivity.
  cbn [B64.add SFadd cond_Zopp]. unfold binary_normalize.
  destruct (shl_align mx ex (Z.min ex ey)) as [ax ex'].
  destruct (shl_align my ey (Z.min ex ey)) as [ay ey'].
  cbn [fst]. change (Z.pos ax + Z.pos ay)%Z with (Z.pos (ax + ay)).
  cbv iota. unfold binary_round.
  destruct (shl_align (ax + ay) _ _) as [mz ez]. apply sign_clear_round.
Qed.

Lemma sign_clear_sum (l : list B64.t) (acc : B64.t) :
  B64.sign_clear acc = true ->
  Forall (fun x => B64.sign_clear x = true) l ->
  B64.sign_clear (foldl B64.add acc l) = true.
Proof.
  intros Hacc Hl. revert acc Hacc.
  induction Hl as [| x l Hx Hl IH]; intros acc Hacc; [exact Hacc |].
  cbn [foldl]. apply IH. now apply sign_clear_add.
Qed.

(** A squared minimum-image distance is [+0], positive, [+inf] or [nan]. *)
Lemma minimum_image_distance64_sign (geom : Geom64.t) (p q : list B64.t) :
  B64.sign_clear (Geom64.minimum_image_distance geom p q) = true.
Proof.
  unfold Geom64.minimum_image_distance, B64.np_sum.
  apply sign_clear_sum; [reflexivity |].
  apply Forall_forall. intros x Hx.
  apply list_elem_of_In, in_map_iff in Hx as (d & <- & _).
  apply sign_clear_square.
Qed.

(** What passes [r < c] and is neither negative nor zero is a positive
    finite number. *)
Lemma positive_below (r c : B64.t) :
  B64.sign_clear r = true -> B64.is_zero r = false -> B64.ltb r c = true ->
  B64.ltb B64.zero r = true /\ B64.is_finite r = true.
Proof.
  destruct r as [s | [] | | [] m e]; try discriminate.
  - destruct c as [? | [] | | ? ? ?]; discriminate.
  - intros _ _ _. split; reflexivity.
Qed.

(** [np.delete a i] keeps exactly what sits in [a] at an index other than
    [i]. *)
Lemma elem_of_delete_iff {A} (a : list A) (i : nat) (x : A) :
  x ∈ delete i a <-> exists j, j <> i /\ a !! j = Some x.
Proof.
  split; [apply elem_of_delete_lookup |].
  intros (j & Hj & Hx).
  destruct (Nat.lt_ge_cases j i) as [Hlt | Hge].
  - apply (list_elem_of_lookup_2 _ j).
    now rewrite list_lookup_delete_lt by exact Hlt.
  - destruct j as [| j]; [lia |].
    apply (list_elem_of_lookup_2 _ j).
    rewrite list_lookup_delete_ge by lia. exact Hx.
Qed.

Lemma sub_diag_finite (x : B64.t) :
  B64.is_finite x = true -> (x - x)%b64 = B64.zero.
Proof.
  destruct x as [[] | | | s m e]; try discriminate; intros _; try reflexivity.
  cbn [B64.sub SFsub]. now rewrite Z.sub_diag.
Qed.

Lemma image_of_zero (L : B64.t) :
  B64.is_finite L = true -> B64.is_zero L = false ->
  let d := B64.zero in
  let r := (d - L * B64.np_round (d / L))%b64 in
  (r * r)%b64 = B64.zero.
Proof.
  destruct L as [| | | [] m e]; try discriminate; intros _ _; reflexivity.
Qed.

(** In a box of finite non-zero length a point with finite coordinates is
    at squared distance [+0] from itself. *)
Lemma minimum_image_distance64_self (geom : Geom64.t) (p : list B64.t) :
  B64.is_finite (Geom64.box_length geom) = true ->
  B64.is_zero (Geom64.box_length geom) = false ->
  Forall (fun x => B64.is_finite x = true) p ->
  Geom64.minimum_image_distance geom p p = B64.zero.
Proof.
  intros HL HL0 Hp. unfold Geom64.minimum_image_distance, B64.np_sum.
  induction Hp as [| x p Hx Hp IH]; [reflexivity |].
  cbn [zip_with map foldl].
  rewrite (sub_diag_finite x Hx), (image_of_zero _ HL HL0).
  exact IH.
Qed.

(** C10 (as amended): in binary64, in a box of finite non-zero length, for
    a particle [i] with finite coordinates, the squared distance of the
    self-pair, entry [i] of the row of distances, is zero, and
    [get_particle_energy] deletes it by its index before the cutoff filter:
    the potential is applied to exactly the entries [j <> i] of the row that
    are below [cutoff2].  If no other particle has a computed squared
    minimum-image distance of zero to particle [i], every argument of the
    potential is a strictly positive finite number, so [1 / rij2] is never
    taken at zero.  That the positions are pairwise distinct does not give
    that hypothesis, see [image_pair_evaluated_at_zero] and
    [tiny_gap_at_zero]. *)
Theorem particle_energy64_avoids_zero (self : Energy64.t) (geom : Geom64.t)
    (i_particle : nat) (coordinates : list (list B64.t)) (r_i : list B64.t) :
  B64.is_finite (Geom64.box_length geom) = true ->
  B64.is_zero (Geom64.box_length geom) = false ->
  coordinates !! i_particle = Some r_i ->
  Forall (fun x => B64.is_finite x = true) r_i ->
  (forall j r_j, j <> i_particle -> coordinates !! j = Some r_j ->
     B64.is_zero (Geom64.minimum_image_distance geom r_i r_j) = false) ->
  let rij2 := Geom64.minimum_image_distances geom r_i coordinates in
  let args := Energy64.potential_arguments self geom i_particle r_i
                coordinates in
  rij2 !! i_particle = Some B64.zero
  /\ (forall r, r ∈ args
                <-> exists j, j <> i_particle /\ rij2 !! j = Some r
                              /\ B64.ltb r (Energy64.cutoff2 self) = true)
  /\ Forall (fun r => B64.ltb B64.zero r = true /\ B64.is_finite r = true)
       args.
Proof.
  intros HL HL0 Hi Hfin Hnz rij2 args.
  assert (Hargs : forall r, r ∈ args
            <-> exists j, j <> i_particle /\ rij2 !! j = Some r
                          /\ B64.ltb r (Energy64.cutoff2 self) = true).
  { intros r. unfold args, Energy64.potential_arguments. fold rij2.
    rewrite list_elem_of_In, filter_In, <- list_elem_of_In, elem_of_delete_iff.
    split.
    - intros [(j & Hj & Hr) Hc]. exists j. auto.
    - intros (j & Hj & Hr & Hc). split; [exists j; auto | exact Hc]. }
  split; [| split].
  - unfold rij2, Geom64.minimum_image_distances.
    change (map ?f ?l) with (f <$> l). rewrite list_lookup_fmap, Hi.
    cbn. f_equal. now apply minimum_image_distance64_self.
  - exact Hargs.
  - apply Forall_forall. intros r Hr.
    apply Hargs in Hr as (j & Hj & Hr & Hc).
    unfold rij2, Geom64.minimum_image_distances in Hr.
    change (map ?f ?l) with (f <$> l) in Hr. rewrite list_lookup_fmap in Hr.
    destruct (coordinates !! j) as [r_j |] eqn:Ej; [| discriminate Hr].
    injection Hr as <-.
    apply (positive_below _ (Energy64.cutoff2 self)).
    + apply minimum_image_distance64_sign.
    + exact (Hnz j r_j Hj Ej).
    + exact Hc.
Qed.

Lemma particle_energy64_avoids_zero_witness :
  Forall (fun r => B64.ltb B64.zero r = true /\ B64.is_finite r = true)
    (Energy64.potential_arguments (Energy64.init (B64.of_Z 3))
       two_particle_box64 0 [B64.zero; B64.zero; B64.zero]
       (Geom64.coordinates two_particle_box64)).
Proof.
  refine (proj2 (proj2
    (particle_energy64_avoids_zero (Energy64.init (B64.of_Z 3))
       two_particle_box64 0 (Geom64.coordinates two_particle_box64)
       [B64.zero; B64.zero; B64.zero] _ _ _ _ _))).
  - reflexivity.
  - reflexivity.
  - reflexivity.
  - repeat constructor.
  - intros [| [| j]] r_j Hj Hr; [lia | | discriminate Hr].
    injection Hr as <-. vm_compute. reflexivity.
Defined.

(** In binary64 the squared distance is zero also between points that are
    no periodic images of one another: in a box of length 10 the particles
    at the origin and at [(1e-200, 0, 0)] are distinct, and the square of
    their separation underflows to zero, which passes the cutoff filter and
    reaches the potential. *)
Lemma tiny_gap_at_zero :
  B64.eqb (B64.literal 1 (10 ^ 200)) B64.zero = false
  /\ B64.ltb (B64.literal 1 (10 ^ 200)) (Geom64.box_length tiny_gap_box64)
     = true
  /\ Energy64.potential_arguments (Energy64.init (B64.of_Z 3))
       tiny_gap_box64 0 [B64.zero; B64.zero; B64.zero]
       (Geom64.coordinates tiny_gap_box64)
     = [B64.zero].
Proof. vm_compute. repeat split. Qed.

(** C10, distinct positions do not suffice: the two particles of
    [image_pair_box] are distinct points one box length apart, so their
    minimum-image distance is zero and the potential of particle 0 is
    evaluated at zero. *)
Lemma image_pair_evaluated_at_zero :
  ~ Forall2 Qeq [0; 0; 0] [2; 0; 0]
  /\ Forall2 Qeq
       (Energy.potential_arguments (Energy.init 3) image_pair_box 0
          [0; 0; 0] (Geom.coordinates image_pair_box))
       [0]
  /\ ~ Forall (fun r => 0 < r)
         (Energy.potential_arguments (Energy.init 3) image_pair_box 0
            [0; 0; 0] (Geom.coordinates image_pair_box)).
Proof.
  split; [| split].
  - intros HF. inversion HF as [| x y l l' Hxy _]; subst. discriminate Hxy.
  - vm_compute. repeat constructor.
  - intros HF. vm_compute in HF.
    inversion HF as [| r l Hr _]; subst. discriminate Hr.
Qed.

(** ** Construction of the engine *)

(** Zero passes the guard [reduced_den < 0.0 or reduced_temp < 0.0]. *)
Lemma guard_passes_zero (reduced_temp : Q) :
  0 <= reduced_temp -> Qltb 0 0 || Qltb reduced_temp 0 = false.
Proof.
  intros Ht. apply Qltb_ge in Ht. now rewrite Ht.
Qed.

(** C4, a reduced density of exactly zero is not rejected: whenever the
    configuration file loads and the reduced temperature is positive,
    [MC(method='file', ..., reduced_den=0.0)] returns an engine, the guard
    being [reduced_den < 0.0 or reduced_temp < 0.0]. *)
Theorem init_accepts_zero_density `{Libm} `{RandomSource G}
    (fs : gmap string file) (reduced_temp max_displacement cutoff : Q)
    (file_name : option string) (tune_displacement : bool) (g g' : G)
    (geom : Geom.t) :
  0 < reduced_temp ->
  Geom.init fs "file" (Geom.mk_kwargs None None file_name) g = (Ok geom, g') ->
  MC.init fs "file" reduced_temp max_displacement cutoff None file_name
    tune_displacement (Some 0) g
  = (Ok (MC.mk (1 / reduced_temp) 0 0 max_displacement tune_displacement []
           0 geom (Energy.init cutoff) None), g').
Proof.
  intros Ht Hgeom. unfold MC.init.
  destruct (Qeq_bool reduced_temp 0) eqn:E.
  - apply Qeq_bool_iff in E. lra.
  - cbn [String.eqb Ascii.eqb Bool.eqb andb]. rewrite Hgeom.
    cbn [mbind result_bind].
    rewrite guard_passes_zero by lra. reflexivity.
Qed.

Lemma init_accepts_zero_density_witness :
  let g := mk_script [] [] in
  @MC.init libm_approx _ _ start_files "file" 1 (1 # 10) 3 None
    (Some "start.txt"%string) true (Some 0) g
  = (Ok two_particle_engine, g).
Proof.
  intros g.
  apply (@init_accepts_zero_density libm_approx _ _ start_files 1 (1 # 10) 3
           (Some "start.txt"%string) true g g two_particle_box).
  - reflexivity.
  - vm_compute. reflexivity.
Defined.

(** A reduced temperature of exactly zero stops the constructor at
    [1. / float(reduced_temp)], with the division error, before the guard. *)
Lemma init_zero_temperature `{Libm} `{RandomSource G}
    (fs : gmap string file) (method : string) (max_displacement cutoff : Q)
    (num_particles : option Z) (file_name : option string)
    (tune_displacement : bool) (reduced_den : option Q) (g : G) :
  MC.init fs method 0 max_displacement cutoff num_particles file_name
    tune_displacement reduced_den g
  = (Raise ZeroDivisionError, g).
Proof. reflexivity. Qed.

(** Once the geometry is built, a negative density or temperature raises the
    invalid-argument error of the guard. *)
Lemma init_rejects_negative `{Libm} `{RandomSource G}
    (fs : gmap string file) (reduced_temp max_displacement cutoff : Q)
    (file_name : option string) (tune_displacement : bool)
    (reduced_den : Q) (g g' : G) (geom : Geom.t) :
  ~ reduced_temp == 0 ->
  reduced_den < 0 \/ reduced_temp < 0 ->
  Geom.init fs "file" (Geom.mk_kwargs None None file_name) g = (Ok geom, g') ->
  MC.init fs "file" reduced_temp max_displacement cutoff None file_name
    tune_displacement (Some reduced_den) g
  = (Raise (ValueError "reduced temperature and density must be greater than zero."),
     g').
Proof.
  intros Hnz Hneg Hgeom. unfold MC.init.
  destruct (Qeq_bool reduced_temp 0) eqn:E.
  - apply Qeq_bool_iff in E. contradiction.
  - cbn [String.eqb Ascii.eqb Bool.eqb andb]. rewrite Hgeom.
    cbn [mbind result_bind].
    assert (Hg : Qltb reduced_den 0 || Qltb reduced_temp 0 = true).
    { destruct Hneg as [Hd | Ht].
      - apply Qltb_lt in Hd. now rewrite Hd.
      - apply Qltb_lt in Ht. rewrite Ht. apply orb_true_r. }
    now rewrite Hg.
Qed.

(** ** The energy trace before the first run *)

(** C9, on the engine of [mm_2019_ss_1_package]: every engine the constructor
    returns has the empty array as its trace; its [get_energy] tests
    [self._energy_array is None], which this array is not, and returns the
    empty trace instead of raising, while [get_energy] of [mm_2019_sss_1]
    tests the length and raises. *)
Theorem get_energy_before_run `{Libm} `{RandomSource G}
    (fs : gmap string file) (method : string)
    (reduced_temp max_displacement cutoff : Q) (num_particles : option Z)
    (file_name : option string) (tune_displacement : bool)
    (reduced_den : option Q) (g g' : G) (self : MC.t) :
  MC.init fs method reduced_temp max_displacement cutoff num_particles
    file_name tune_displacement reduced_den g = (Ok self, g') ->
  MC.current_step self = 0%nat
  /\ MC.get_energy self = Ok []
  /\ MC_sss.get_energy self
     = Raise (ValueError "Simulation has not started running!").
Proof.
  unfold MC.init. intros Hinit.
  destruct (Qeq_bool reduced_temp 0); [discriminate Hinit |].
  destruct (if String.eqb method "random" then _ else _) as [[geom | e] g1];
    cbn [mbind result_bind] in Hinit; [| discriminate Hinit].
  destruct reduced_den as [den |]; cbn [mbind result_bind] in Hinit;
    [| discriminate Hinit].
  destruct (Qltb den 0 || Qltb reduced_temp 0); [discriminate Hinit |].
  injection Hinit as <- _. repeat split.
Qed.

Lemma get_energy_before_run_witness :
  MC.get_energy two_particle_engine = Ok []
  /\ MC_sss.get_energy two_particle_engine
     = Raise (ValueError "Simulation has not started running!").
Proof.
  refine (proj2 (@get_energy_before_run libm_approx _ _ start_files "file"
            1 (1 # 10) 3 None (Some "start.txt"%string) true (Some 1)
            (mk_script [] []) (mk_script [] []) two_particle_engine _)).
  vm_compute. reflexivity.
Defined.

(** ** Snapshots *)

(** [loadtxt] stops at the first non-blank data line without a fourth
    field. *)
Lemma loadtxt_short_row (header counts row : list Q) (rest : file) :
  length row = 3%nat ->
  Geom.loadtxt (header :: counts :: row :: rest) = Raise IndexError.
Proof.
  intros Hrow. unfold Geom.loadtxt. cbn [drop List.filter].
  rewrite Hrow. cbn [Nat.eqb negb].
  destruct row as [| x [| y [| z [| ? ?]]]]; try discriminate Hrow.
  reflexivity.
Qed.

(** C3, the round trip fails: [save_state] writes the coordinate rows with
    their three fields and no index column, [generate_initial_state] reads
    the fields 1, 2 and 3 of every row.  For every box with at least one
    particle, saving to a fresh path succeeds and constructing a [Geom] with
    method ['file'] from the written file raises instead of reproducing the
    box. *)
Theorem save_then_load_raises `{Libm} `{RandomSource G} (self : Geom.t)
    (fs : gmap string file) (file_name : string) (g : G) :
  fs !! file_name = None ->
  Geom.coordinates self <> [] ->
  Forall (fun r => length r = 3%nat) (Geom.coordinates self) ->
  exists fs',
    Geom.save_state self fs file_name = Ok fs'
    /\ fs' !! file_name
       = Some ([Geom.box_length self; Geom.box_length self; Geom.box_length self]
               :: [inject_Z (py_int (Geom.num_particles self))]
               :: Geom.coordinates self)
    /\ Geom.init fs' "file" (Geom.mk_kwargs None None (Some file_name)) g
       = (Raise IndexError, g).
Proof.
  intros Hfresh Hne Hrows. unfold Geom.save_state. rewrite Hfresh.
  eexists. split; [reflexivity |]. split; [apply lookup_insert_eq |].
  unfold Geom.init, Geom.generate_initial_state.
  cbn [String.eqb Ascii.eqb Bool.eqb andb Geom.kw_file_name].
  rewrite lookup_insert_eq.
  destruct (Geom.coordinates self) as [| row rest]; [contradiction |].
  apply Forall_cons_1 in Hrows as [Hrow _].
  cbn [lookup list_lookup mbind result_bind Geom.first_number].
  now rewrite (loadtxt_short_row _ _ _ _ Hrow).
Qed.

Lemma save_then_load_raises_witness :
  exists fs',
    Geom.save_state two_particle_box start_files "snap_100.txt" = Ok fs'
    /\ @Geom.init libm_approx _ _ fs' "file"
         (Geom.mk_kwargs None None (Some "snap_100.txt"%string))
         (mk_script [] [])
       = (Raise IndexError, mk_script [] []).
Proof.
  destruct (@save_then_load_raises libm_approx _ _ two_particle_box
              start_files "snap_100.txt" (mk_script [] []))
    as (fs' & Hsave & _ & Hload).
  - vm_compute. reflexivity.
  - discriminate.
  - repeat constructor.
  - exists fs'. split; assumption.
Defined.

(** A file with the index column, as [generate_initial_state] expects it,
    does load back. *)
Lemma load_with_index_column :
  fst (@Geom.init libm_approx _ _ start_files "file"
         (Geom.mk_kwargs None None (Some "start.txt"%string))
         (mk_script [] []))
  = Ok two_particle_box.
Proof. vm_compute. reflexivity. Qed.

(** ** The energy trace of [run] *)

(** What a trial move leaves alone. *)
Lemma trial_move_frame `{Libm} `{RandomSource G} (self self' : MC.t)
    (total total' : Q) (i_particle : nat) (d : list Q) (g g' : G) :
  MC.trial_move self total i_particle d g = Ok (self', total', g') ->
  MC._energy_array self' = MC._energy_array self
  /\ MC.current_step self' = MC.current_step self
  /\ MC._n_trials self' = MC._n_trials self
  /\ (MC._n_accept self <= MC._n_accept self' <= MC._n_accept self + 1)%Z
  /\ MC.tune_displacement self' = MC.tune_displacement self
  /\ Geom.num_particles (MC._Geom self') = Geom.num_particles (MC._Geom self)
  /\ length (Geom.coordinates (MC._Geom self'))
     = length (Geom.coordinates (MC._Geom self)).
Proof.
  intros Hmove.
  destruct (Geom.coordinates (MC._Geom self) !! i_particle) as [old |] eqn:Hi.
  - rewrite (trial_move_unfold self total i_particle d old g Hi) in Hmove.
    cbv zeta in Hmove.
    destruct (fst (MC._accept_or_reject self _ g)); injection Hmove as <- _ _;
      cbn; rewrite ?length_insert; repeat split; lia.
  - unfold MC.trial_move, Energy.get_particle_energy in Hmove.
    rewrite Hi in Hmove. discriminate Hmove.
Qed.

(** A trial move on a particle of the array does not raise. *)
Lemma trial_move_returns `{Libm} `{RandomSource G} (self : MC.t) (total : Q)
    (i_particle : nat) (d : list Q) (g : G) :
  (i_particle < length (Geom.coordinates (MC._Geom self)))%nat ->
  exists out, MC.trial_move self total i_particle d g = Ok out.
Proof.
  intros Hlt. apply lookup_lt_is_Some_2 in Hlt as [old Hi].
  rewrite (trial_move_unfold self total i_particle d old g Hi). cbv zeta.
  destruct (fst (MC._accept_or_reject self _ g)); eexists; reflexivity.
Qed.

Lemma adjust_displacement_frame (self self' : MC.t) :
  MC._adjust_displacement self = Ok self' ->
  MC._energy_array self' = MC._energy_array self
  /\ MC.current_step self' = MC.current_step self
  /\ MC._n_trials self' = 0%Z
  /\ MC._n_accept self' = 0%Z
  /\ MC.tune_displacement self' = MC.tune_displacement self
  /\ MC._Geom self' = MC._Geom self.
Proof.
  unfold MC._adjust_displacement.
  destruct (MC._n_trials self =? 0)%Z; [discriminate |].
  intros E. injection E as <-.
  destruct (Qltb _ (38 # 100)); [| destruct (Qltb (42 # 100) _)];
    repeat split.
Qed.

Lemma setitem_Ok (a a' : list Q) (i : nat) (x : Q) :
  setitem a i x = Ok a' ->
  (i < length a)%nat /\ a' = <[i := x]> a.
Proof.
  unfold setitem. destruct (Nat.ltb_spec i (length a)); [| discriminate].
  intros E. injection E as <-. split; [assumption | reflexivity].
Qed.

(** One iteration: the step counter advances by one, the trace keeps its
    length, receives the tail-corrected energy per particle at the new step
    index and is otherwise untouched. *)
Lemma run_step_trace `{Libm} `{RandomSource G} (tail_correction : Q)
    (freq : Z) (save_dir : string) (save_snaps : bool) (i_step : nat)
    (st st' : MC.loop_state G) :
  MC.run_step tail_correction freq save_dir save_snaps i_step st = Ok st' ->
  let e := MC.engine st in
  let e' := MC.engine st' in
  MC.current_step e' = S (MC.current_step e)
  /\ length (MC._energy_array e') = length (MC._energy_array e)
  /\ MC._energy_array e' !! S (MC.current_step e)
     = Some ((MC.total_pair_energy st' + tail_correction)
             / Geom.num_particles (MC._Geom e))
  /\ (forall j, j <> S (MC.current_step e) ->
      MC._energy_array e' !! j = MC._energy_array e !! j)
  /\ Geom.num_particles (MC._Geom e') = Geom.num_particles (MC._Geom e)
  /\ length (Geom.coordinates (MC._Geom e'))
     = length (Geom.coordinates (MC._Geom e))
  /\ ((0 <= MC._n_trials e)%Z -> (0 <= MC._n_trials e')%Z).
Proof.
  intros Hstep e e'. unfold MC.run_step in Hstep. fold e in Hstep.
  set (e1 := MC.set_counters _ _ _) in Hstep.
  change (Geom.num_particles (MC._Geom e1))
    with (Geom.num_particles (MC._Geom e)) in Hstep.
  destruct (Qle_bool _ 0); [discriminate Hstep |].
  destruct (randint _ _) as [i_particle g1].
  destruct (rand_vec 3 g1) as [u g2].
  destruct (MC.trial_move e1 _ _ _ _) as [[[e2 total] g3] | ?] eqn:Hmove;
    cbn [mbind result_bind] in Hstep; [| discriminate Hstep].
  apply trial_move_frame in Hmove
    as (Harr & Hcs & Htr & _ & Htune & Hnum & Hlen).
  destruct (setitem _ _ _) as [a | ?] eqn:Hset;
    cbn [mbind result_bind] in Hstep; [| discriminate Hstep].
  apply setitem_Ok in Hset as [Hin ->].
  rewrite Harr, Hcs in Hin, Hstep.
  change (MC.current_step e1) with (MC.current_step e + 1)%nat in Hin, Hstep, Hcs.
  change (MC._energy_array e1) with (MC._energy_array e) in Hin, Hstep, Harr.
  change (MC._n_trials e1) with (MC._n_trials e + 1)%Z in Htr.
  change (Geom.num_particles (MC._Geom e1))
    with (Geom.num_particles (MC._Geom e)) in Hnum.
  change (Geom.coordinates (MC._Geom e1))
    with (Geom.coordinates (MC._Geom e)) in Hlen.
  rewrite Nat.add_1_r in Hin, Hstep, Hcs.
  set (a := <[S (MC.current_step e) := _]> (MC._energy_array e)) in Hstep.
  assert (Hcommon : forall e3 : MC.t,
    MC._energy_array e3 = a ->
    MC.current_step e3 = S (MC.current_step e) ->
    MC._Geom e3 = MC._Geom e2 ->
    (0 <= MC._n_trials e -> 0 <= MC._n_trials e3)%Z ->
    forall w, st' = MC.mk_loop e3 total w ->
    MC.current_step e' = S (MC.current_step e)
    /\ length (MC._energy_array e') = length (MC._energy_array e)
    /\ MC._energy_array e' !! S (MC.current_step e)
       = Some ((MC.total_pair_energy st' + tail_correction)
               / Geom.num_particles (MC._Geom e))
    /\ (forall j, j <> S (MC.current_step e) ->
        MC._energy_array e' !! j = MC._energy_array e !! j)
    /\ Geom.num_particles (MC._Geom e') = Geom.num_particles (MC._Geom e)
    /\ length (Geom.coordinates (MC._Geom e'))
       = length (Geom.coordinates (MC._Geom e))
    /\ ((0 <= MC._n_trials e)%Z -> (0 <= MC._n_trials e')%Z)).
  { intros e3 Ha Hc Hg Ht w ->. unfold e'. cbn [MC.engine MC.total_pair_energy].
    rewrite Ha, Hc, Hg. unfold a.
    rewrite length_insert, list_lookup_insert_eq by exact Hin.
    repeat split; try assumption.
    intros j Hj. now apply list_lookup_insert_ne. }
  destruct (np_mod _ _ =? 0)%Z.
  - destruct (if save_snaps then _ else _) as [fs | ?];
      cbn [mbind result_bind] in Hstep; [| discriminate Hstep].
    destruct (MC.tune_displacement (MC.set_energy_array e2 a)).
    + destruct (MC._adjust_displacement _) as [e3 | ?] eqn:Hadj;
        cbn [mbind result_bind] in Hstep; [| discriminate Hstep].
      apply adjust_displacement_frame in Hadj
        as (Ha & Hc & Ht & _ & _ & Hg).
      injection Hstep as <-.
      eapply (Hcommon e3); [exact Ha | | exact Hg | lia | reflexivity].
      rewrite Hc. exact Hcs.
    + cbn [mbind result_bind] in Hstep. injection Hstep as <-.
      eapply (Hcommon (MC.set_energy_array e2 a));
        [reflexivity | | reflexivity | | reflexivity].
      * exact Hcs.
      * cbn. rewrite Htr. lia.
  - injection Hstep as <-.
    eapply (Hcommon (MC.set_energy_array e2 a));
      [reflexivity | | reflexivity | | reflexivity].
    + exact Hcs.
    + cbn. rewrite Htr. lia.
Qed.

(** One iteration returns when the box holds particles, the drawn index is
    one of them, the trace has room for the next step and no snapshot is
    requested. *)
Lemma run_step_returns `{Libm} `{RandomSource G} (tail_correction : Q)
    (freq : Z) (save_dir : string) (i_step : nat) (st : MC.loop_state G) :
  let e := MC.engine st in
  0 < Geom.num_particles (MC._Geom e) ->
  (fst (randint (Geom.num_particles (MC._Geom e)) (MC.rng (MC.env st)))
   < length (Geom.coordinates (MC._Geom e)))%nat ->
  (S (MC.current_step e) < length (MC._energy_array e))%nat ->
  (0 <= MC._n_trials e)%Z ->
  exists st',
    MC.run_step tail_correction freq save_dir false i_step st = Ok st'.
Proof.
  intros e HN Hdraw Hroom Htrials. unfold MC.run_step. fold e.
  set (e1 := MC.set_counters _ _ _).
  change (Geom.num_particles (MC._Geom e1))
    with (Geom.num_particles (MC._Geom e)).
  destruct (Qle_bool _ 0) eqn:EN; [apply Qle_bool_iff in EN; lra |].
  destruct (randint _ _) as [i_particle g1]. cbn [fst] in Hdraw.
  destruct (rand_vec 3 g1) as [u g2].
  destruct (trial_move_returns e1 (MC.total_pair_energy st) i_particle
              (map (fun x => (2 * x - 1) * MC.max_displacement e1) u) g2 Hdraw)
    as [[[e2 total] g3] Hmove].
  rewrite Hmove. cbn [mbind result_bind].
  apply trial_move_frame in Hmove as (Harr & Hcs & Htr & _ & _ & _ & _).
  unfold setitem. rewrite Harr, Hcs.
  change (MC.current_step e1) with (MC.current_step e + 1)%nat.
  change (MC._energy_array e1) with (MC._energy_array e).
  rewrite Nat.add_1_r.
  destruct (Nat.ltb_spec (S (MC.current_step e)) (length (MC._energy_array e)));
    [| lia].
  cbn [mbind result_bind].
  destruct (np_mod _ _ =? 0)%Z; [| eexists; reflexivity].
  cbn [mbind result_bind].
  destruct (MC.tune_displacement _); [| eexists; reflexivity].
  unfold MC._adjust_displacement.
  change (MC._n_trials (MC.set_energy_array e2 ?a)) with (MC._n_trials e2).
  rewrite Htr. change (MC._n_trials e1) with (MC._n_trials e + 1)%Z.
  destruct (Z.eqb_spec (MC._n_trials e + 1) 0); [lia |].
  eexists; reflexivity.
Qed.

(** The loop: a run of the iterations [steps] advances the step counter by
    their number, leaves the entries up to the counter it started from as
    they are, and the entry of its [k]-th iteration holds the tail-corrected
    energy per particle of the accumulator after that iteration. *)
Lemma run_loop_trace `{Libm} `{RandomSource G} (tail_correction : Q)
    (freq : Z) (save_dir : string) (save_snaps : bool) (steps : list nat) :
  forall st st' : MC.loop_state G,
  MC.run_loop tail_correction freq save_dir save_snaps steps st = Ok st' ->
  let e := MC.engine st in
  let e' := MC.engine st' in
  MC.current_step e' = (MC.current_step e + length steps)%nat
  /\ length (MC._energy_array e') = length (MC._energy_array e)
  /\ Geom.num_particles (MC._Geom e') = Geom.num_particles (MC._Geom e)
  /\ (forall j, (j <= MC.current_step e)%nat ->
      MC._energy_array e' !! j = MC._energy_array e !! j)
  /\ (forall k, (k < length steps)%nat ->
      exists st_k,
        MC.run_loop tail_correction freq save_dir save_snaps
          (take (S k) steps) st = Ok st_k
        /\ MC._energy_array e' !! (MC.current_step e + S k)%nat
           = Some ((MC.total_pair_energy st_k + tail_correction)
                   / Geom.num_particles (MC._Geom e))).
Proof.
  induction steps as [| i_step rest IH]; intros st st' Hloop; cbv zeta.
  - injection Hloop as <-. cbn [length]. rewrite Nat.add_0_r.
    repeat split; try reflexivity. intros k Hk. inversion Hk.
  - cbn [MC.run_loop] in Hloop.
    destruct (MC.run_step _ _ _ _ _ st) as [st1 | ?] eqn:Hstep;
      cbn [mbind result_bind] in Hloop; [| discriminate Hloop].
    apply run_step_trace in Hstep as Hs. cbv zeta in Hs.
    destruct Hs as (Hcs & Hlen & Hnew & Hold & Hnum & _ & _).
    destruct (IH st1 st' Hloop) as (Hcs' & Hlen' & Hnum' & Hold' & Hnew').
    rewrite Hcs in Hcs', Hold', Hnew'. rewrite Hnum in Hnum', Hnew'.
    rewrite Hlen in Hlen'.
    split; [cbn [length]; lia |]. split; [exact Hlen' |].
    split; [exact Hnum' |]. split.
    + intros j Hj. rewrite Hold' by lia. apply Hold. lia.
    + intros [| k] Hk.
      * exists st1. split.
        -- cbn [take MC.run_loop]. now rewrite Hstep.
        -- rewrite Nat.add_1_r, Hold' by lia. exact Hnew.
      * cbn [length] in Hk.
        destruct (Hnew' k ltac:(lia)) as (st_k & Hrun & Hentry).
        exists st_k. split.
        -- cbn [take MC.run_loop]. now rewrite Hstep.
        -- rewrite <- Hentry. f_equal. lia.
Qed.

Lemma run_loop_returns `{Libm} `{RandomSource G} (tail_correction : Q)
    (freq : Z) (save_dir : string) (steps : list nat) :
  forall st : MC.loop_state G,
  let e := MC.engine st in
  0 < Geom.num_particles (MC._Geom e) ->
  (forall g : G,
     (fst (randint (Geom.num_particles (MC._Geom e)) g)
      < length (Geom.coordinates (MC._Geom e)))%nat) ->
  (MC.current_step e + length steps < length (MC._energy_array e))%nat ->
  (0 <= MC._n_trials e)%Z ->
  exists st',
    MC.run_loop tail_correction freq save_dir false steps st = Ok st'.
Proof.
  induction steps as [| i_step rest IH]; intros st e HN Hdraw Hroom Htrials.
  - eexists; reflexivity.
  - cbn [length] in Hroom.
    destruct (run_step_returns tail_correction freq save_dir i_step st
                HN (Hdraw _) ltac:(fold e; lia) Htrials) as [st1 Hstep].
    cbn [MC.run_loop]. rewrite Hstep. cbn [mbind result_bind].
    apply run_step_trace in Hstep. cbv zeta in Hstep. fold e in Hstep.
    destruct Hstep as (Hcs & Hlen & _ & _ & Hnum & Hcoords & Htr).
    apply IH.
    + now rewrite Hnum.
    + intros g. rewrite Hnum, Hcoords. apply Hdraw.
    + rewrite Hcs, Hlen. lia.
    + now apply Htr.
Qed.

Lemma total_pair_energy_loop_returns (self : Energy.t) (geom : Geom.t)
    (indices : list nat) :
  Forall (fun i => (i < length (Geom.coordinates geom))%nat) indices ->
  forall e_total,
  exists e, Energy.total_pair_energy_loop self geom indices e_total = Ok e.
Proof.
  induction 1 as [| i rest Hi _ IH]; intros e_total; cbn.
  - eexists; reflexivity.
  - unfold Energy.get_particle_energy.
    apply lookup_lt_is_Some_2 in Hi as [r_i ->]. cbn. apply IH.
Qed.

Lemma calculate_total_pair_energy_returns (self : Energy.t) (geom : Geom.t) :
  exists e, Energy.calculate_total_pair_energy self geom = Ok e.
Proof.
  unfold Energy.calculate_total_pair_energy.
  destruct (total_pair_energy_loop_returns self geom
              (seq 0 (length (Geom.coordinates geom)))) with (e_total := 0)
    as [e He].
  - apply Forall_forall. intros i Hi. apply elem_of_seq in Hi. lia.
  - rewrite He. eexists; reflexivity.
Qed.

(** The state in which a fresh engine enters the loop of [run n_steps]: the
    trace is [n_steps + 1] long and its entry 0 is the total pair energy as
    [calculate_total_pair_energy] returned it. *)
Lemma run_enter_fresh {G} (self : MC.t) (n_steps : nat) (freq : Z)
    (w : MC.world G) (e0 : Q) :
  MC.current_step self = 0%nat ->
  MC._energy_array self = [] ->
  Energy.calculate_total_pair_energy (MC._Energy self) (MC._Geom self) = Ok e0 ->
  MC.run_enter self n_steps freq w
  = Ok (MC.mk_loop
          (MC.set_energy_array (MC.set_freq self freq)
             (e0 :: replicate n_steps 0))
          e0 (MC.mk_world (MC.rng w) (MC.files w) [])).
Proof.
  intros Hcs Harr He0. unfold MC.run_enter.
  change (MC._Energy (MC.set_freq self freq)) with (MC._Energy self).
  change (MC._Geom (MC.set_freq self freq)) with (MC._Geom self).
  rewrite He0. cbn [mbind result_bind].
  change (MC.current_step (MC.set_freq self freq)) with (MC.current_step self).
  change (MC._energy_array (MC.set_freq self freq)) with (MC._energy_array self).
  rewrite Hcs, Harr, Nat.add_1_r. reflexivity.
Qed.

(** The energy trace of a first run, as the code fills it: [n_steps + 1]
    entries; entry 0 is the total pair energy itself; entry [k], for
    [1 <= k <= n_steps], is the accumulator after step [k] plus the tail
    correction, divided by the particle count. *)
Lemma run_energy_trace `{Libm} `{RandomSource G} (self self' : MC.t)
    (n_steps : nat) (freq : Z) (save_dir : string) (save_snaps : bool)
    (w w' : MC.world G) :
  MC.current_step self = 0%nat ->
  MC._energy_array self = [] ->
  MC.run self n_steps freq save_dir save_snaps w = Ok (self', w') ->
  let tail_correction :=
    Energy.calculate_tail_correction (MC._Energy self) (MC._Geom self) in
  exists st0,
    MC.run_enter self n_steps freq w = Ok st0
    /\ Energy.calculate_total_pair_energy (MC._Energy self) (MC._Geom self)
       = Ok (MC.total_pair_energy st0)
    /\ length (MC._energy_array self') = (n_steps + 1)%nat
    /\ MC._energy_array self' !! 0%nat = Some (MC.total_pair_energy st0)
    /\ (forall k, (1 <= k <= n_steps)%nat ->
        exists st_k,
          MC.run_loop tail_correction freq save_dir save_snaps (seq 1 k) st0
            = Ok st_k
          /\ MC._energy_array self' !! k
             = Some ((MC.total_pair_energy st_k + tail_correction)
                     / Geom.num_particles (MC._Geom self))).
Proof.
  intros Hcs Harr Hrun tail_correction. unfold MC.run in Hrun.
  fold tail_correction in Hrun.
  destruct (calculate_total_pair_energy_returns (MC._Energy self) (MC._Geom self))
    as [e0 He0].
  rewrite (run_enter_fresh self n_steps freq w e0 Hcs Harr He0) in Hrun |- *.
  cbn [mbind result_bind] in Hrun.
  destruct (MC.run_loop _ _ _ _ _ _) as [st' | ?] eqn:Hloop;
    cbn [mbind result_bind] in Hrun; [| discriminate Hrun].
  injection Hrun as <- <-.
  apply run_loop_trace in Hloop. cbv zeta in Hloop.
  cbn [MC.engine MC.set_energy_array MC._energy_array MC.current_step
       MC.set_freq MC._Geom] in Hloop.
  rewrite Hcs, length_seq in Hloop. cbn [length] in Hloop.
  rewrite length_replicate in Hloop.
  destruct Hloop as (_ & Hlen & _ & Hold & Hnew).
  eexists. split; [reflexivity |]. cbn [MC.total_pair_energy].
  split; [exact He0 |]. split; [lia |].
  split; [now rewrite Hold by lia |].
  intros [| k] Hk; [lia |].
  destruct (Hnew k ltac:(lia)) as (st_k & Hprefix & Hentry).
  rewrite take_seq, Nat.min_l in Hprefix by lia.
  exists st_k. split; [exact Hprefix | exact Hentry].
Qed.

(** A first run without snapshots returns when the box holds as many
    particles as its coordinate array has rows, at least one, and the
    generator draws particle indices below that count. *)
Lemma run_returns `{Libm} `{RandomSource G} (self : MC.t) (n_steps : nat)
    (freq : Z) (save_dir : string) (w : MC.world G) :
  MC.current_step self = 0%nat ->
  MC._energy_array self = [] ->
  (0 <= MC._n_trials self)%Z ->
  0 < Geom.num_particles (MC._Geom self) ->
  (forall g : G,
     (fst (randint (Geom.num_particles (MC._Geom self)) g)
      < length (Geom.coordinates (MC._Geom self)))%nat) ->
  exists self' w',
    MC.run self n_steps freq save_dir false w = Ok (self', w').
Proof.
  intros Hcs Harr Htrials HN Hdraw. unfold MC.run.
  destruct (calculate_total_pair_energy_returns (MC._Energy self) (MC._Geom self))
    as [e0 He0].
  rewrite (run_enter_fresh self n_steps freq w e0 Hcs Harr He0).
  cbn [mbind result_bind].
  edestruct (run_loop_returns
               (Energy.calculate_tail_correction (MC._Energy self) (MC._Geom self))
               freq save_dir (seq 1 n_steps)) as [st' Hloop];
    [| | | | rewrite Hloop; cbn [mbind result_bind]; do 2 eexists; reflexivity].
  - exact HN.
  - exact Hdraw.
  - cbn. rewrite Hcs, length_seq, length_replicate. lia.
  - exact Htrials.
Qed.

(** C1, entry 0 of the trace: a first run of two steps on the two-particle
    engine returns a trace of three entries whose entry 0 is the total pair
    energy [-7/16] as [calculate_total_pair_energy] returned it, neither
    tail-corrected nor divided by the particle count, while the entries 1
    and 2 are in that form. *)
Theorem run_trace_entry_zero_raw :
  let g := mk_script [1 # 2; 1 # 2; 1 # 2; 9 # 10] [0%nat] in
  let w := MC.mk_world g start_files [] in
  let tail_correction :=
    Energy.calculate_tail_correction (Energy.init 3) two_particle_box in
  exists self' w' e0,
    @MC.run libm_approx _ _ two_particle_engine 2 1 "./results" false w
      = Ok (self', w')
    /\ Energy.calculate_total_pair_energy (Energy.init 3) two_particle_box
       = Ok e0
    /\ e0 == - (7 # 16)
    /\ length (MC._energy_array self') = 3%nat
    /\ MC._energy_array self' !! 0%nat = Some e0
    /\ ~ e0 == (e0 + tail_correction) / Geom.num_particles two_particle_box
    /\ (forall k, (1 <= k <= 2)%nat ->
        exists st_k,
          (st0 ← MC.run_enter two_particle_engine 2 1 w;
           @MC.run_loop libm_approx _ _ tail_correction 1 "./results" false
             (seq 1 k) st0) = Ok st_k
          /\ MC._energy_array self' !! k
             = Some ((MC.total_pair_energy st_k + tail_correction)
                     / Geom.num_particles two_particle_box)).
Proof.
  intros g w tail_correction.
  destruct (@MC.run libm_approx _ _ two_particle_engine 2 1 "./results" false w)
    as [[self' w'] | ?] eqn:Hrun; [| vm_compute in Hrun; discriminate Hrun].
  destruct (@run_energy_trace libm_approx _ _ two_particle_engine self' 2 1
              "./results" false w w' eq_refl eq_refl Hrun)
    as (st0 & Henter & He0 & Hlen & Hzero & Hlater).
  set (e0 := MC.total_pair_energy st0) in *. clearbody e0.
  exists self', w', e0.
  split; [reflexivity |]. split; [exact He0 |].
  assert (E : e0 == - (7 # 16)).
  { vm_compute in He0. injection He0 as <-. reflexivity. }
  split; [exact E |]. split; [exact Hlen |]. split; [exact Hzero |].
  split.
  - rewrite E. vm_compute. discriminate.
  - intros k Hk. destruct (Hlater k Hk) as (st_k & Hloop & Hentry).
    exists st_k. split; [| exact Hentry].
    rewrite Henter. exact Hloop.
Qed.

(** * Further properties of the code *)

(** ** More on [np.round] *)

(** [np.round] returns an integer within one half of its argument, and an
    even one when the argument is half-way between two integers. *)
Lemma np_round_nearest_even (x : Q) :
  (- (1 # 2) < x - inject_Z (np_round x) /\ x - inject_Z (np_round x) < 1 # 2)
  \/ ((x - inject_Z (np_round x) == 1 # 2
       \/ x - inject_Z (np_round x) == - (1 # 2))
      /\ Z.even (np_round x) = true).
Proof.
  pose proof (Qfloor_frac x) as [Hl Hu]. unfold np_round.
  destruct (Qcompare (x - inject_Z (Qfloor x)) (1 # 2)) eqn:C.
  - apply Qeq_alt in C. right.
    destruct (Z.even (Qfloor x)) eqn:E.
    + split; [left; exact C | exact E].
    + split.
      * right. rewrite inject_Z_plus. change (inject_Z 1) with 1. lra.
      * rewrite Z.even_add, E. reflexivity.
  - apply Qlt_alt in C. left. split; lra.
  - apply Qgt_alt in C. left. rewrite inject_Z_plus.
    change (inject_Z 1) with 1. split; lra.
Qed.

(** That integer is the only one. *)
Lemma np_round_unique (x : Q) (n : Z) :
  (- (1 # 2) < x - inject_Z n /\ x - inject_Z n < 1 # 2)
  \/ ((x - inject_Z n == 1 # 2 \/ x - inject_Z n == - (1 # 2))
      /\ Z.even n = true) ->
  np_round x = n.
Proof.
  intros Hn. pose proof (np_round_nearest_even x) as Hm.
  set (m := np_round x) in *.
  assert (Hclose : (m - 1 <= n <= m + 1)%Z).
  { assert (inject_Z (m - 2) < inject_Z n /\ inject_Z n < inject_Z (m + 2))
      as [H1 H2].
    { unfold Z.sub. rewrite !inject_Z_plus, inject_Z_opp.
      change (inject_Z 2) with 2.
      destruct Hn as [[? ?] | [[? | ?] _]], Hm as [[? ?] | [[? | ?] _]];
        split; lra. }
    rewrite <- Zlt_Qlt in H1, H2. lia. }
  destruct (Z.eq_dec n m) as [-> | Hne]; [reflexivity | exfalso].
  assert (Hcase : n = (m + 1)%Z \/ n = (m - 1)%Z) by lia.
  assert (Hodd : Z.even n = negb (Z.even m)).
  { destruct Hcase as [-> | ->].
    - rewrite Z.even_add. now destruct (Z.even m).
    - rewrite Z.even_sub. now destruct (Z.even m). }
  assert (Hinj : inject_Z n == inject_Z m + 1 \/ inject_Z n == inject_Z m - 1).
  { destruct Hcase as [-> | ->]; [left | right].
    - rewrite inject_Z_plus. reflexivity.
    - unfold Z.sub. rewrite inject_Z_plus, inject_Z_opp. reflexivity. }
  destruct Hn as [[? ?] | [Hn En]], Hm as [[? ?] | [Hm Em]].
  - destruct Hinj; lra.
  - destruct Hinj, Hm; lra.
  - destruct Hinj, Hn; lra.
  - rewrite Hodd, Em in En. discriminate En.
Qed.

(** Rounding to even is odd: [np.round (-x) = - np.round x]. *)
Lemma np_round_opp (x : Q) : np_round (- x) = (- np_round x)%Z.
Proof.
  apply np_round_unique. rewrite inject_Z_opp, Z.even_opp.
  destruct (np_round_nearest_even x) as [[? ?] | [[? | ?] E]].
  - left. split; lra.
  - right. split; [right; lra | exact E].
  - right. split; [left; lra | exact E].
Qed.

Lemma np_round_inject_Z (k : Z) : np_round (inject_Z k) = k.
Proof. apply np_round_unique. left. split; lra. Qed.

(** ** More on the periodic box *)

(** A squared minimum-image component does not see the sign of the raw
    difference. *)
Lemma image_component_opp (L d e : Q) :
  e == - d ->
  (e - L * inject_Z (np_round (e / L))) ^ 2
  == (d - L * inject_Z (np_round (d / L))) ^ 2.
Proof.
  intros E.
  assert (E' : e / L == - (d / L)) by (rewrite E; unfold Qdiv; ring).
  rewrite (np_round_comp _ _ E'), np_round_opp, inject_Z_opp.
  apply Qsquare_eq_or_opp. right. rewrite E. ring.
Qed.

(** The squared minimum-image distance is symmetric in its two points, in
    every box. *)
Lemma minimum_image_distance_sym (self : Geom.t) (p q : list Q) :
  Geom.minimum_image_distance self p q == Geom.minimum_image_distance self q p.
Proof.
  unfold Geom.minimum_image_distance.
  revert q. induction p as [| x p IH]; intros [| y q]; try reflexivity.
  cbn [zip_with map np_sum foldr].
  apply Qplus_comp; [| apply IH].
  apply image_component_opp. ring.
Qed.

Lemma Qsquare_le_half (L c : Q) :
  - (L / 2) <= c <= L / 2 -> c ^ 2 <= (L / 2) ^ 2.
Proof. intros [Hl Hu]. simpl. nra. Qed.

Lemma inject_Z_succ (n : nat) :
  inject_Z (Z.of_nat (S n)) == inject_Z (Z.of_nat n) + 1.
Proof. rewrite Nat2Z.inj_succ, <- Z.add_1_r, inject_Z_plus. reflexivity. Qed.

(** X1: in a box of positive length the squared minimum-image distance is
    symmetric in its two points, and, every component of a minimum-image
    difference being at most half a box length, it lies between 0 and
    [(length/2)^2] times the number of components (3/4 of the squared box
    length for points in space). *)
Theorem minimum_image_distance_bounded (self : Geom.t) (p q : list Q) :
  0 < Geom.box_length self ->
  Geom.minimum_image_distance self p q == Geom.minimum_image_distance self q p
  /\ 0 <= Geom.minimum_image_distance self p q
  /\ Geom.minimum_image_distance self p q
     <= inject_Z (Z.of_nat (length p)) * (Geom.box_length self / 2) ^ 2.
Proof.
  intros HL. split; [apply minimum_image_distance_sym |].
  split; [apply minimum_image_distance_nonneg |].
  unfold Geom.minimum_image_distance.
  set (L := Geom.box_length self) in *. clearbody L.
  assert (Hsq : 0 <= (L / 2) ^ 2) by apply Qsquare_nonneg.
  revert q. induction p as [| x p IH]; intros q.
  - cbn [zip_with map np_sum foldr length].
    change (inject_Z (Z.of_nat 0)) with 0. lra.
  - assert (Hn : 0 <= inject_Z (Z.of_nat (length p)) * (L / 2) ^ 2).
    { apply Qmult_le_0_compat; [| exact Hsq].
      change 0 with (inject_Z 0). rewrite <- Zle_Qle. lia. }
    cbn [length]. rewrite inject_Z_succ.
    pose proof (Qsquare_le_half L _ (wrap_component_range L HL
                  (x - match q with [] => 0 | y :: _ => y end))) as Hc.
    set (bound := (L / 2) ^ 2) in *.
    destruct q as [| y q]; cbn [zip_with map np_sum foldr]; [lra |].
    specialize (IH q). unfold np_sum in IH. lra.
Qed.

Lemma minimum_image_distance_bounded_witness :
  Geom.minimum_image_distance two_particle_box [0; 0; 0] [1; 1; 0]
    == Geom.minimum_image_distance two_particle_box [1; 1; 0] [0; 0; 0]
  /\ 0 <= Geom.minimum_image_distance two_particle_box [0; 0; 0] [1; 1; 0]
  /\ Geom.minimum_image_distance two_particle_box [0; 0; 0] [1; 1; 0]
     <= inject_Z (Z.of_nat 3) * (Geom.box_length two_particle_box / 2) ^ 2.
Proof.
  apply (minimum_image_distance_bounded two_particle_box [0; 0; 0] [1; 1; 0]).
  reflexivity.
Defined.

(** Points that are periodic images of one another are at minimum-image
    distance zero. *)
Lemma periodic_images_distance_zero (geom : Geom.t) (p q : list Q) :
  0 < Geom.box_length geom ->
  periodic_images (Geom.box_length geom) p q ->
  Geom.minimum_image_distance geom p q == 0.
Proof.
  intros HL. unfold Geom.minimum_image_distance, periodic_images.
  set (L := Geom.box_length geom) in *. clearbody L.
  induction 1 as [| x y p q [k Hk] _ IH]; [reflexivity |].
  cbn [zip_with map np_sum foldr]. unfold np_sum in IH. rewrite IH.
  assert (E : (x - y) / L == inject_Z k) by (rewrite Hk; field; lra).
  rewrite (np_round_comp _ _ E), np_round_inject_Z, Hk. simpl. ring.
Qed.

(** X2: in a box of positive length two points are at minimum-image distance
    zero exactly when they have the same number of components and differ by
    a whole number of box lengths in each of them. *)
Theorem minimum_image_distance_zero_iff (self : Geom.t) (p q : list Q) :
  0 < Geom.box_length self ->
  length p = length q ->
  (Geom.minimum_image_distance self p q == 0
   <-> periodic_images (Geom.box_length self) p q).
Proof.
  intros HL Hlen. split.
  - now apply minimum_image_distance_zero.
  - now apply periodic_images_distance_zero.
Qed.

Lemma minimum_image_distance_zero_iff_witness :
  Geom.minimum_image_distance two_particle_box [1; 0; 0] [5; -4; 0] == 0
  <-> periodic_images (Geom.box_length two_particle_box) [1; 0; 0] [5; -4; 0].
Proof.
  apply (minimum_image_distance_zero_iff two_particle_box [1; 0; 0] [5; -4; 0]);
    reflexivity.
Defined.

(** X3: in a box of positive length wrapping either point does not change
    the squared minimum-image distance of two points. *)
Theorem wrap_keeps_distance (self : Geom.t) (p q : list Q) :
  0 < Geom.box_length self ->
  Geom.minimum_image_distance self (Geom.wrap self p) q
    == Geom.minimum_image_distance self p q
  /\ Geom.minimum_image_distance self p (Geom.wrap self q)
    == Geom.minimum_image_distance self p q.
Proof.
  intros HL. unfold Geom.minimum_image_distance, Geom.wrap.
  set (L := Geom.box_length self) in *. clearbody L.
  revert q. induction p as [| x p IH]; intros [| y q];
    try (split; reflexivity).
  destruct (IH q) as [IHp IHq].
  cbn [zip_with map np_sum foldr]. unfold np_sum in IHp, IHq. split.
  - apply Qplus_comp; [| exact IHp].
    assert (E : x - L * inject_Z (np_round (x / L)) - y
                == (x - y) + inject_Z (- np_round (x / L)) * L)
      by (rewrite inject_Z_opp; ring).
    rewrite (np_round_comp _ _ (Qdiv_comp _ _ E L L (Qeq_refl L))), E.
    apply (image_component_shift _ HL).
  - apply Qplus_comp; [| exact IHq].
    assert (E : x - (y - L * inject_Z (np_round (y / L)))
                == (x - y) + inject_Z (np_round (y / L)) * L) by ring.
    rewrite (np_round_comp _ _ (Qdiv_comp _ _ E L L (Qeq_refl L))), E.
    apply (image_component_shift _ HL).
Qed.

Lemma wrap_keeps_distance_witness :
  Geom.minimum_image_distance two_particle_box
      (Geom.wrap two_particle_box [7; 0; 0]) [1; 1; 0]
    == Geom.minimum_image_distance two_particle_box [7; 0; 0] [1; 1; 0]
  /\ Geom.minimum_image_distance two_particle_box [7; 0; 0]
       (Geom.wrap two_particle_box [1; 1; 0])
    == Geom.minimum_image_distance two_particle_box [7; 0; 0] [1; 1; 0].
Proof.
  apply (wrap_keeps_distance two_particle_box [7; 0; 0] [1; 1; 0]).
  reflexivity.
Defined.

(** X4: in a box of positive length [wrap] returns a periodic image of its
    argument, and returns the argument itself when every component already
    lies within half a box length of zero (both ends included). *)
Theorem wrap_image_and_fixed_points (self : Geom.t) (v : list Q) :
  0 < Geom.box_length self ->
  periodic_images (Geom.box_length self) v (Geom.wrap self v)
  /\ (Forall (fun x => - (Geom.box_length self / 2) <= x
                       /\ x <= Geom.box_length self / 2) v ->
      Forall2 Qeq (Geom.wrap self v) v).
Proof.
  intros HL. unfold Geom.wrap, periodic_images.
  set (L := Geom.box_length self) in *. clearbody L. split.
  - induction v as [| x v IH]; cbn [map]; constructor; [| exact IH].
    exists (np_round (x / L)). ring.
  - induction 1 as [| x v [Hl Hu] _ IH]; cbn [map]; constructor; [| exact IH].
    assert (Hr : np_round (x / L) = 0%Z).
    { apply np_round_half_unit.
      assert (E : x / L == x * / L) by reflexivity.
      pose proof (Qinv_lt_0_compat L HL) as Hinv.
      assert (E1 : (L / 2) * / L == 1 # 2) by (field; lra).
      rewrite E. split; [| rewrite <- E1; apply Qmult_le_r; assumption].
      assert (E2 : - (L / 2) * / L == - (1 # 2)) by (field; lra).
      rewrite <- E2. apply Qmult_le_r; assumption. }
    rewrite Hr. change (inject_Z 0) with 0. ring.
Qed.

Lemma wrap_image_and_fixed_points_witness :
  periodic_images (Geom.box_length two_particle_box) [2; -2; 1]
    (Geom.wrap two_particle_box [2; -2; 1])
  /\ Forall2 Qeq (Geom.wrap two_particle_box [2; -2; 1]) [2; -2; 1].
Proof.
  destruct (wrap_image_and_fixed_points two_particle_box [2; -2; 1])
    as [Himg Hfix]; [reflexivity |].
  split; [exact Himg |]. apply Hfix.
  repeat constructor; discriminate.
Defined.

(** ** More on the pair energies *)

Lemma Qinv_unit_cases (r : Q) :
  0 < r ->
  0 < 1 / r
  /\ (r < 1 -> 1 < 1 / r) /\ (r == 1 -> 1 / r == 1) /\ (1 < r -> 1 / r < 1).
Proof.
  intros Hr. set (u := 1 / r).
  assert (Hu : u * r == 1) by (unfold u; field; lra).
  assert (Hpos : 0 < u) by nra.
  split; [exact Hpos |]. split; [| split]; intros; nra.
Qed.

Lemma Qcube_unit_cases (u : Q) :
  0 < u ->
  0 < u ^ 3
  /\ (1 < u -> 1 < u ^ 3) /\ (u == 1 -> u ^ 3 == 1) /\ (u < 1 -> u ^ 3 < 1).
Proof.
  intros Hu. simpl.
  assert (H2 : 0 < u * u) by nra.
  split; [nra |]. split; [| split]; [intros | intros E | intros].
  - assert (1 < u * u) by nra. nra.
  - rewrite E. reflexivity.
  - assert (u * u < 1) by nra. nra.
Qed.

(** X5: at a positive squared distance the Lennard-Jones potential is never
    below -1; it is positive below the unit distance, zero at it and negative
    beyond. *)
Theorem lennard_jones_potential_sign (rij2 : Q) :
  0 < rij2 ->
  - (1) <= Energy.lennard_jones_potential rij2
  /\ (rij2 < 1 -> 0 < Energy.lennard_jones_potential rij2)
  /\ (rij2 == 1 -> Energy.lennard_jones_potential rij2 == 0)
  /\ (1 < rij2 -> Energy.lennard_jones_potential rij2 < 0).
Proof.
  intros Hr. unfold Energy.lennard_jones_potential.
  destruct (Qinv_unit_cases rij2 Hr) as (Hu & Hu1 & Hu2 & Hu3).
  destruct (Qcube_unit_cases (1 / rij2) Hu) as (Hs & Hs1 & Hs2 & Hs3).
  set (s := (1 / rij2) ^ 3) in *. clearbody s. simpl.
  pose proof (Qsquare_nonneg (2 * s - 1)) as Hsq. simpl in Hsq.
  split; [lra |]. split; [| split]; [intros Hlt | intros Heq | intros Hgt].
  - specialize (Hs1 (Hu1 Hlt)). nra.
  - rewrite (Hs2 (Hu2 Heq)). reflexivity.
  - specialize (Hs3 (Hu3 Hgt)). nra.
Qed.

Lemma lennard_jones_potential_sign_witness :
  - (1) <= Energy.lennard_jones_potential 2
  /\ Energy.lennard_jones_potential 2 < 0.
Proof.
  destruct (lennard_jones_potential_sign 2) as (Hlow & _ & _ & Hneg);
    [reflexivity |].
  split; [exact Hlow | apply Hneg; reflexivity].
Defined.

Lemma np_pi_pos : 0 < np_pi.
Proof. reflexivity. Qed.

(** X6: for a cutoff of at least 1 and a box of positive volume the tail
    correction is never positive, and it vanishes only for an empty box. *)
Theorem tail_correction_sign (self : Energy.t) (geom : Geom.t) :
  1 <= Energy.cutoff self ->
  0 < Geom.volume geom ->
  Energy.calculate_tail_correction self geom <= 0
  /\ (Energy.calculate_tail_correction self geom == 0
      -> Geom.num_particles geom == 0).
Proof.
  intros Hc HV. unfold Energy.calculate_tail_correction.
  assert (Hcpos : 0 < Energy.cutoff self) by lra.
  destruct (Qinv_unit_cases _ Hcpos) as (Hu & _ & Hu2 & Hu3).
  destruct (Qcube_unit_cases _ Hu) as (Hs & _ & Hs2 & Hs3).
  assert (Hs1 : (1 / Energy.cutoff self) ^ 3 <= 1).
  { apply Qle_lteq in Hc as [Hc | Hc].
    - apply Qlt_le_weak. auto.
    - apply Qle_lteq. right. apply Hs2, Hu2. symmetry. exact Hc. }
  set (s := (1 / Energy.cutoff self) ^ 3) in *. clearbody s.
  set (N := Geom.num_particles geom). set (V := Geom.volume geom) in *.
  assert (He : s ^ 3 - 3 * s < 0).
  { simpl. clear - Hs Hs1.
    assert (H1 : 0 <= s * (1 - s)) by (apply Qmult_le_0_compat; lra).
    assert (H2 : 0 <= s * (s * (1 - s))) by (apply Qmult_le_0_compat; lra).
    lra. }
  set (e := s ^ 3 - 3 * s) in *. clearbody e.
  pose proof np_pi_pos as Hpi. set (pi := np_pi) in *. clearbody pi.
  change (8 / 9) with (8 # 9).
  assert (EF : (8 # 9) * pi * N / V * N == ((8 # 9) * pi / V) * (N * N))
    by (field; lra).
  assert (Hk : 0 < (8 # 9) * pi / V).
  { apply Qlt_shift_div_l; [exact HV |]. lra. }
  rewrite EF. set (k := (8 # 9) * pi / V) in *. clearbody k.
  assert (Hsq : 0 <= N * N) by (pose proof (Qsquare_nonneg N) as H; exact H).
  assert (HX : 0 <= k * (N * N)) by (apply Qmult_le_0_compat; lra).
  set (X := N * N) in *. set (Y := k * X) in *.
  split.
  - clearbody Y. nra.
  - intros Hz.
    assert (HY : Y == 0) by (clearbody Y; nra).
    assert (HN : X == 0) by (unfold Y in HY; clearbody X; nra).
    apply Qsquare_zero. exact HN.
Qed.

Lemma tail_correction_sign_witness :
  Energy.calculate_tail_correction (Energy.init 3) two_particle_box <= 0.
Proof.
  apply (tail_correction_sign (Energy.init 3) two_particle_box); reflexivity
    || discriminate.
Defined.

(** ** The accumulator against the total pair energy *)

Lemma np_sum_app (l1 l2 : list Q) :
  np_sum (l1 ++ l2) == np_sum l1 + np_sum l2.
Proof.
  unfold np_sum. induction l1 as [| x l1 IH]; cbn [app foldr]; [ring |].
  rewrite IH. ring.
Qed.

Lemma lennard_jones_potential_comp (r r' : Q) :
  r == r' ->
  Energy.lennard_jones_potential r == Energy.lennard_jones_potential r'.
Proof.
  intros E. unfold Energy.lennard_jones_potential. now rewrite E.
Qed.

Lemma Qltb_comp (r r' c : Q) : r == r' -> Qltb r c = Qltb r' c.
Proof.
  intros E. unfold Qltb.
  now rewrite (Qcompare_comp r r' E c c (Qeq_refl c)).
Qed.

(** A pair contributes the same to either of its particles. *)
Lemma pair_term_sym (self : Energy.t) (geom : Geom.t) (p q : list Q) :
  pair_term self geom p q == pair_term self geom q p.
Proof.
  unfold pair_term. cbv zeta.
  pose proof (minimum_image_distance_sym geom p q) as E.
  rewrite (Qltb_comp _ _ _ E).
  destruct (Qltb _ _); [| reflexivity].
  now apply lennard_jones_potential_comp.
Qed.

Lemma pair_term_box (self : Energy.t) (geom geom' : Geom.t) (p q : list Q) :
  Geom.box_length geom' = Geom.box_length geom ->
  pair_term self geom' p q = pair_term self geom p q.
Proof.
  intros E. unfold pair_term, Geom.minimum_image_distance. now rewrite E.
Qed.

Lemma row_energy_app (self : Energy.t) (geom : Geom.t) (p : list Q)
    (l1 l2 : list (list Q)) :
  row_energy self geom p (l1 ++ l2)
  == row_energy self geom p l1 + row_energy self geom p l2.
Proof. unfold row_energy. rewrite map_app. apply np_sum_app. Qed.

Lemma row_energy_cons (self : Energy.t) (geom : Geom.t) (p q : list Q)
    (l : list (list Q)) :
  row_energy self geom p (q :: l)
  == pair_term self geom p q + row_energy self geom p l.
Proof. reflexivity. Qed.

(** Filtering by the cutoff and summing the potential is summing the pair
    terms. *)
Lemma cutoff_sum_row (self : Energy.t) (geom : Geom.t) (p : list Q)
    (l : list (list Q)) :
  np_sum (map Energy.lennard_jones_potential
            (List.filter (fun r => Qltb r (Energy.cutoff2 self))
               (map (Geom.minimum_image_distance geom p) l)))
  == row_energy self geom p l.
Proof.
  unfold row_energy.
  induction l as [| q l IH]; [reflexivity |].
  cbn [map List.filter]. unfold pair_term at 1. cbv zeta.
  unfold np_sum in *.
  destruct (Qltb _ _); cbn [map foldr]; rewrite IH; ring.
Qed.

(** The energy of the particle at a given place in the array is the sum of
    its pair terms against the particles before and after it. *)
Lemma particle_energy_split (self : Energy.t) (geom : Geom.t) (p : list Q)
    (l1 l2 : list (list Q)) :
  exists e,
    Energy.get_particle_energy self geom (length l1) (l1 ++ p :: l2) = Ok e
    /\ e == row_energy self geom p l1 + row_energy self geom p l2.
Proof.
  unfold Energy.get_particle_energy, Energy.potential_arguments,
    Geom.minimum_image_distances.
  rewrite list_lookup_middle by reflexivity.
  eexists. split; [reflexivity |].
  rewrite map_app. cbn [map].
  rewrite <- (length_map (Geom.minimum_image_distance geom p) l1) at 1.
  rewrite delete_middle, <- map_app, <- row_energy_app.
  apply cutoff_sum_row.
Qed.

(** The same for the particle at an index of the array: its energy and its
    pair term with itself add up to its row of pair terms. *)
Lemma particle_energy_row (self : Energy.t) (geom : Geom.t) (i : nat)
    (c : list (list Q)) (p : list Q) :
  c !! i = Some p ->
  exists e,
    Energy.get_particle_energy self geom i c = Ok e
    /\ e + pair_term self geom p p == row_energy self geom p c.
Proof.
  intros Hi.
  pose proof (take_drop_middle c i p Hi) as Hc.
  pose proof (lookup_lt_Some _ _ _ Hi) as Hlt.
  destruct (particle_energy_split self geom p (take i c) (drop (S i) c))
    as (e & He & Hsum).
  rewrite Hc, length_take, Nat.min_l in He by lia.
  exists e. split; [exact He |].
  rewrite <- Hc at 1. rewrite row_energy_app, row_energy_cons, Hsum. ring.
Qed.

(** The loop of [calculate_total_pair_energy] over the indices from [k] on
    returns, and adds to its accumulator the rows of pair terms of the
    particles from [k] on, less their pair terms with themselves. *)
Lemma total_pair_energy_loop_sum (self : Energy.t) (geom : Geom.t)
    (l : list (list Q)) :
  forall (k : nat) (e_total : Q),
  drop k (Geom.coordinates geom) = l ->
  exists e,
    Energy.total_pair_energy_loop self geom (seq k (length l)) e_total = Ok e
    /\ e + self_terms self geom l
       == e_total + rows_energy self geom l (Geom.coordinates geom).
Proof.
  induction l as [| q l IH]; intros k e_total Hdrop.
  - exists e_total. split; [reflexivity |].
    unfold self_terms, rows_energy. cbn. ring.
  - assert (Hk : Geom.coordinates geom !! k = Some q).
    { rewrite <- (Nat.add_0_r k), <- lookup_drop, Hdrop. reflexivity. }
    destruct (particle_energy_row self geom k _ q Hk) as (e1 & He1 & Hrow).
    rewrite (drop_S _ _ _ Hk) in Hdrop. injection Hdrop as Hdrop.
    destruct (IH (S k) (e_total + e1) Hdrop) as (e & He & Hsum).
    exists e. split.
    + cbn [length seq Energy.total_pair_energy_loop]. rewrite He1.
      cbn [mbind result_bind]. exact He.
    + unfold self_terms, rows_energy in *. cbn [map np_sum foldr].
      unfold np_sum in *. lra.
Qed.

(** [calculate_total_pair_energy] returns half of the sum, over all ordered
    pairs of distinct indices, of the pair terms. *)
Lemma calculate_total_pair_energy_sum (self : Energy.t) (geom : Geom.t) :
  exists T,
    Energy.calculate_total_pair_energy self geom = Ok T
    /\ 2 * T + self_terms self geom (Geom.coordinates geom)
       == rows_energy self geom (Geom.coordinates geom) (Geom.coordinates geom).
Proof.
  unfold Energy.calculate_total_pair_energy.
  destruct (total_pair_energy_loop_sum self geom (Geom.coordinates geom) 0 0
              eq_refl) as (e & He & Hsum).
  rewrite He. cbn [mbind result_bind]. eexists. split; [reflexivity |].
  assert (E : 2 * (e / 2) == e) by field. lra.
Qed.

(** Replacing one point of the array changes the rows of a list of points
    by the pair terms of those points with the old and the new point. *)
Lemma rows_energy_replace (self : Energy.t) (geom : Geom.t)
    (l l1 l2 : list (list Q)) (p p' : list Q) :
  rows_energy self geom l (l1 ++ p' :: l2) + row_energy self geom p l
  == rows_energy self geom l (l1 ++ p :: l2) + row_energy self geom p' l.
Proof.
  unfold rows_energy.
  induction l as [| q l IH]; [reflexivity |].
  cbn [map np_sum foldr]. unfold np_sum in *.
  rewrite !row_energy_app, !row_energy_cons.
  rewrite (pair_term_sym self geom q p), (pair_term_sym self geom q p').
  unfold row_energy in *. unfold np_sum in *.
  cbn [map foldr]. lra.
Qed.

Lemma row_energy_box (self : Energy.t) (geom geom' : Geom.t) (p : list Q)
    (l : list (list Q)) :
  Geom.box_length geom' = Geom.box_length geom ->
  row_energy self geom' p l = row_energy self geom p l.
Proof.
  intros E. unfold row_energy. f_equal. apply map_ext. intros q.
  now apply pair_term_box.
Qed.

Lemma self_terms_box (self : Energy.t) (geom geom' : Geom.t)
    (l : list (list Q)) :
  Geom.box_length geom' = Geom.box_length geom ->
  self_terms self geom' l = self_terms self geom l.
Proof.
  intros E. unfold self_terms. f_equal. apply map_ext. intros q.
  now apply pair_term_box.
Qed.

Lemma rows_energy_box (self : Energy.t) (geom geom' : Geom.t)
    (l c : list (list Q)) :
  Geom.box_length geom' = Geom.box_length geom ->
  rows_energy self geom' l c = rows_energy self geom l c.
Proof.
  intros E. unfold rows_energy. f_equal. apply map_ext. intros q.
  now apply row_energy_box.
Qed.

(** Moving one particle changes the total pair energy by the change of the
    energy of that particle. *)
Lemma total_pair_energy_replace (self : Energy.t) (geom geom' : Geom.t)
    (l1 l2 : list (list Q)) (p p' : list Q) :
  Geom.box_length geom' = Geom.box_length geom ->
  Geom.coordinates geom = l1 ++ p :: l2 ->
  Geom.coordinates geom' = l1 ++ p' :: l2 ->
  exists T T' e e',
    Energy.calculate_total_pair_energy self geom = Ok T
    /\ Energy.calculate_total_pair_energy self geom' = Ok T'
    /\ Energy.get_particle_energy self geom (length l1) (l1 ++ p :: l2) = Ok e
    /\ Energy.get_particle_energy self geom' (length l1) (l1 ++ p' :: l2)
       = Ok e'
    /\ T' - T == e' - e.
Proof.
  intros Hbox Hc Hc'.
  destruct (calculate_total_pair_energy_sum self geom) as (T & HT & HsumT).
  destruct (calculate_total_pair_energy_sum self geom') as (T' & HT' & HsumT').
  destruct (particle_energy_split self geom p l1 l2) as (e & He & Hsplit).
  destruct (particle_energy_split self geom' p' l1 l2) as (e' & He' & Hsplit').
  exists T, T', e, e'. repeat (split; [assumption |]).
  rewrite (self_terms_box _ _ _ _ Hbox), (rows_energy_box _ _ _ _ _ Hbox)
    in HsumT'.
  rewrite !(row_energy_box _ _ _ _ _ Hbox) in Hsplit'.
  rewrite Hc in HsumT. rewrite Hc' in HsumT'.
  unfold self_terms in HsumT, HsumT'. unfold rows_energy in HsumT, HsumT'.
  rewrite !map_app, !np_sum_app in HsumT, HsumT'.
  cbn [map] in HsumT, HsumT'.
  change (np_sum (?x :: ?l)) with (x + np_sum l) in HsumT, HsumT'.
  fold (rows_energy self geom l1 (l1 ++ p :: l2)) in HsumT.
  fold (rows_energy self geom l2 (l1 ++ p :: l2)) in HsumT.
  fold (rows_energy self geom l1 (l1 ++ p' :: l2)) in HsumT'.
  fold (rows_energy self geom l2 (l1 ++ p' :: l2)) in HsumT'.
  fold (self_terms self geom l1) in HsumT, HsumT'.
  fold (self_terms self geom l2) in HsumT, HsumT'.
  pose proof (rows_energy_replace self geom l1 l1 l2 p p') as R1.
  pose proof (rows_energy_replace self geom l2 l1 l2 p p') as R2.
  rewrite !row_energy_app, !row_energy_cons in HsumT, HsumT'.
  lra.
Qed.

Lemma total_pair_energy_same_box (self : Energy.t) (geom geom' : Geom.t) :
  Geom.box_length geom' = Geom.box_length geom ->
  Geom.coordinates geom' = Geom.coordinates geom ->
  Energy.calculate_total_pair_energy self geom'
  = Energy.calculate_total_pair_energy self geom.
Proof.
  intros Hbox Hc. unfold Energy.calculate_total_pair_energy. rewrite Hc.
  f_equal. generalize (seq 0 (length (Geom.coordinates geom))) (0 : Q).
  intros l. induction l as [| i l IH]; intros acc; [reflexivity |].
  cbn [Energy.total_pair_energy_loop]. rewrite Hc.
  unfold Energy.get_particle_energy, Energy.potential_arguments,
    Geom.minimum_image_distances, Geom.minimum_image_distance.
  rewrite Hbox.
  destruct (Geom.coordinates geom !! i); cbn [mbind result_bind];
    [apply IH | reflexivity].
Qed.

(** A trial move changes the accumulator by what it changes the total pair
    energy of the coordinates by. *)
Lemma trial_move_total_change `{Libm} `{RandomSource G} (self self' : MC.t)
    (acc acc' : Q) (i_particle : nat) (d : list Q) (g g' : G) :
  MC.trial_move self acc i_particle d g = Ok (self', acc', g') ->
  MC._Energy self' = MC._Energy self
  /\ exists T T',
       Energy.calculate_total_pair_energy (MC._Energy self) (MC._Geom self)
         = Ok T
       /\ Energy.calculate_total_pair_energy (MC._Energy self) (MC._Geom self')
          = Ok T'
       /\ acc' - acc == T' - T.
Proof.
  intros Hmove.
  destruct (Geom.coordinates (MC._Geom self) !! i_particle) as [old |] eqn:Hi.
  2: { unfold MC.trial_move, Energy.get_particle_energy in Hmove.
       rewrite Hi in Hmove. discriminate Hmove. }
  pose proof (lookup_lt_Some _ _ _ Hi) as Hlt.
  rewrite (trial_move_unfold self acc i_particle d old g Hi) in Hmove.
  cbv zeta in Hmove.
  set (proposed := Geom.wrap (MC._Geom self) (zip_with Qplus old d)) in *.
  set (moved := <[i_particle := proposed]> (Geom.coordinates (MC._Geom self)))
    in *.
  destruct (fst (MC._accept_or_reject self _ g)).
  - injection Hmove as <- <- _. split; [reflexivity |].
    destruct (total_pair_energy_replace (MC._Energy self) (MC._Geom self)
                (MC._Geom (MC.set_coordinates self moved))
                (take i_particle (Geom.coordinates (MC._Geom self)))
                (drop (S i_particle) (Geom.coordinates (MC._Geom self)))
                old proposed)
      as (T & T' & e & e' & HT & HT' & He & He' & Hchange).
    + reflexivity.
    + symmetry. now apply take_drop_middle.
    + unfold moved. cbn. now apply insert_take_drop.
    + exists T, T'. split; [exact HT |]. split; [exact HT' |].
      rewrite length_take, Nat.min_l in He, He' by lia.
      rewrite (take_drop_middle _ _ _ Hi) in He.
      rewrite <- (insert_take_drop _ _ proposed Hlt) in He'. fold moved in He'.
      unfold Energy.get_particle_energy in He, He'.
      rewrite Hi in He. unfold moved in He' at 1.
      rewrite list_lookup_insert_eq in He' by exact Hlt.
      injection He as <-. injection He' as <-.
      rewrite <- Hchange. ring.
  - injection Hmove as <- <- _. split; [reflexivity |].
    destruct (calculate_total_pair_energy_sum (MC._Energy self) (MC._Geom self))
      as (T & HT & _).
    exists T, T. split; [exact HT |]. split; [| ring].
    rewrite <- HT. now apply total_pair_energy_same_box.
Qed.

(** X7: the incremental update is exact.  When a trial move returns and the
    accumulator held the total pair energy of the coordinates before it, the
    new accumulator is the total pair energy of the new coordinates, as
    [calculate_total_pair_energy] computes it from scratch, whether the move
    was accepted or rejected. *)
Theorem trial_move_keeps_total `{Libm} `{RandomSource G} (self self' : MC.t)
    (acc acc' T : Q) (i_particle : nat) (d : list Q) (g g' : G) :
  Energy.calculate_total_pair_energy (MC._Energy self) (MC._Geom self) = Ok T ->
  acc == T ->
  MC.trial_move self acc i_particle d g = Ok (self', acc', g') ->
  exists T',
    Energy.calculate_total_pair_energy (MC._Energy self') (MC._Geom self')
      = Ok T'
    /\ acc' == T'.
Proof.
  intros HT Hacc Hmove.
  destruct (trial_move_total_change _ _ _ _ _ _ _ _ Hmove)
    as (HE & T0 & T' & HT0 & HT' & Hchange).
  rewrite HT in HT0. injection HT0 as <-.
  exists T'. rewrite HE. split; [exact HT' | lra].
Qed.

Lemma trial_move_keeps_total_witness :
  let g := mk_script [9 # 10] [] in
  exists self' acc' g' T',
    @MC.trial_move libm_approx _ _ two_particle_engine (- (7 # 16)) 0
      [1 # 20; 0; 0] g = Ok (self', acc', g')
    /\ Energy.calculate_total_pair_energy (MC._Energy self') (MC._Geom self')
       = Ok T'
    /\ acc' == T'.
Proof.
  intros g.
  destruct (@MC.trial_move libm_approx _ _ two_particle_engine (- (7 # 16)) 0
              [1 # 20; 0; 0] g) as [[[self' acc'] g'] | ?] eqn:Hmove;
    [| vm_compute in Hmove; discriminate Hmove].
  destruct (@trial_move_keeps_total libm_approx _ _ two_particle_engine self'
              (- (7 # 16)) acc' (-229376 # 524288) 0 [1 # 20; 0; 0] g g')
    as (T' & HT' & Hacc').
  - vm_compute. reflexivity.
  - reflexivity.
  - exact Hmove.
  - exists self', acc', g', T'. repeat split; assumption || reflexivity.
Defined.

Lemma adjust_displacement_box (self self' : MC.t) :
  MC._adjust_displacement self = Ok self' ->
  MC._Geom self' = MC._Geom self /\ MC._Energy self' = MC._Energy self.
Proof.
  unfold MC._adjust_displacement.
  destruct (MC._n_trials self =? 0)%Z; [discriminate |].
  intros E. injection E as <-.
  destruct (Qltb _ (38 # 100)); [| destruct (Qltb (42 # 100) _)]; now split.
Qed.

(** One iteration of the loop keeps the accumulator exact. *)
Lemma run_step_accumulator `{Libm} `{RandomSource G} (tail_correction : Q)
    (freq : Z) (save_dir : string) (save_snaps : bool) (i_step : nat)
    (st st' : MC.loop_state G) :
  MC.run_step tail_correction freq save_dir save_snaps i_step st = Ok st' ->
  accumulator_exact st -> accumulator_exact st'.
Proof.
  intros Hstep (T & HT & Hacc). unfold MC.run_step in Hstep.
  set (e := MC.engine st) in *.
  set (e1 := MC.set_counters _ _ _) in Hstep.
  destruct (Qle_bool _ 0); [discriminate Hstep |].
  destruct (randint _ _) as [i_particle g1].
  destruct (rand_vec 3 g1) as [u g2].
  destruct (MC.trial_move e1 _ _ _ _) as [[[e2 total] g3] | ?] eqn:Hmove;
    cbn [mbind result_bind] in Hstep; [| discriminate Hstep].
  apply trial_move_total_change in Hmove
    as (HE & T0 & T' & HT0 & HT' & Hchange).
  change (MC._Energy e1) with (MC._Energy e) in HE, HT0, HT'.
  change (MC._Geom e1) with (MC._Geom e) in HT0.
  rewrite HT in HT0. injection HT0 as <-.
  assert (Hdone : forall (e3 : MC.t) (w : MC.world G),
    MC._Geom e3 = MC._Geom e2 -> MC._Energy e3 = MC._Energy e2 ->
    accumulator_exact (MC.mk_loop e3 total w)).
  { intros e3 w Hg He. exists T'. cbn [MC.engine MC.total_pair_energy].
    rewrite Hg, He, HE. split; [exact HT' | lra]. }
  destruct (setitem _ _ _) as [a | ?];
    cbn [mbind result_bind] in Hstep; [| discriminate Hstep].
  destruct (np_mod _ _ =? 0)%Z.
  - destruct (if save_snaps then _ else _) as [fs | ?];
      cbn [mbind result_bind] in Hstep; [| discriminate Hstep].
    destruct (MC.tune_displacement (MC.set_energy_array e2 a)).
    + destruct (MC._adjust_displacement _) as [e3 | ?] eqn:Hadj;
        cbn [mbind result_bind] in Hstep; [| discriminate Hstep].
      apply adjust_displacement_box in Hadj as [Hg He].
      injection Hstep as <-. now apply Hdone.
    + cbn [mbind result_bind] in Hstep. injection Hstep as <-.
      now apply Hdone.
  - injection Hstep as <-. now apply Hdone.
Qed.

Lemma run_loop_accumulator `{Libm} `{RandomSource G} (tail_correction : Q)
    (freq : Z) (save_dir : string) (save_snaps : bool) (steps : list nat) :
  forall st st' : MC.loop_state G,
  MC.run_loop tail_correction freq save_dir save_snaps steps st = Ok st' ->
  accumulator_exact st -> accumulator_exact st'.
Proof.
  induction steps as [| i_step rest IH]; intros st st' Hloop Hexact.
  - injection Hloop as <-. exact Hexact.
  - cbn [MC.run_loop] in Hloop.
    destruct (MC.run_step _ _ _ _ _ st) as [st1 | ?] eqn:Hstep;
      cbn [mbind result_bind] in Hloop; [| discriminate Hloop].
    apply (IH st1 st' Hloop).
    exact (run_step_accumulator _ _ _ _ _ _ _ Hstep Hexact).
Qed.

(** X8: along a first run the trace records the energy of the configuration
    itself.  For every step [k] of [1..n_steps] the entry [k] of the trace
    equals the total pair energy of the coordinates after step [k], computed
    from scratch by [calculate_total_pair_energy], plus the tail correction,
    per particle. *)
Theorem run_trace_is_exact `{Libm} `{RandomSource G} (self self' : MC.t)
    (n_steps : nat) (freq : Z) (save_dir : string) (save_snaps : bool)
    (w w' : MC.world G) :
  MC.current_step self = 0%nat ->
  MC._energy_array self = [] ->
  MC.run self n_steps freq save_dir save_snaps w = Ok (self', w') ->
  let tail_correction :=
    Energy.calculate_tail_correction (MC._Energy self) (MC._Geom self) in
  forall k, (1 <= k <= n_steps)%nat ->
  exists st_k T_k x,
    (st0 ← MC.run_enter self n_steps freq w;
     MC.run_loop tail_correction freq save_dir save_snaps (seq 1 k) st0)
    = Ok st_k
    /\ Energy.calculate_total_pair_energy (MC._Energy (MC.engine st_k))
         (MC._Geom (MC.engine st_k)) = Ok T_k
    /\ MC._energy_array self' !! k = Some x
    /\ x == (T_k + tail_correction) / Geom.num_particles (MC._Geom self).
Proof.
  intros Hcs Harr Hrun tail_correction k Hk.
  destruct (run_energy_trace self self' n_steps freq save_dir save_snaps w w'
              Hcs Harr Hrun) as (st0 & Henter & He0 & _ & _ & Hlater).
  destruct (Hlater k Hk) as (st_k & Hloop & Hentry).
  fold tail_correction in Hloop, Hentry.
  assert (Hexact0 : accumulator_exact st0).
  { rewrite (run_enter_fresh self n_steps freq w _ Hcs Harr He0) in Henter.
    injection Henter as <-. eexists. split; [exact He0 | reflexivity]. }
  destruct (run_loop_accumulator _ _ _ _ _ _ _ Hloop Hexact0)
    as (T_k & HT_k & Hacc).
  exists st_k, T_k. eexists. rewrite Henter. cbn [mbind result_bind].
  split; [exact Hloop |]. split; [exact HT_k |]. split; [exact Hentry |].
  now rewrite Hacc.
Qed.

Lemma run_trace_is_exact_witness :
  let g := mk_script [1 # 2; 1 # 2; 1 # 2; 9 # 10] [0%nat] in
  let w := MC.mk_world g start_files [] in
  let tail_correction :=
    Energy.calculate_tail_correction (Energy.init 3) two_particle_box in
  exists self' w' st T x,
    @MC.run libm_approx _ _ two_particle_engine 2 1 "./results" false w
      = Ok (self', w')
    /\ (st0 ← MC.run_enter two_particle_engine 2 1 w;
        @MC.run_loop libm_approx _ _ tail_correction 1 "./results" false
          (seq 1 2) st0) = Ok st
    /\ Energy.calculate_total_pair_energy (MC._Energy (MC.engine st))
         (MC._Geom (MC.engine st)) = Ok T
    /\ MC._energy_array self' !! 2%nat = Some x
    /\ x == (T + tail_correction) / Geom.num_particles two_particle_box.
Proof.
  intros g w tail_correction.
  destruct (@MC.run libm_approx _ _ two_particle_engine 2 1 "./results" false w)
    as [[self' w'] | ?] eqn:Hrun; [| vm_compute in Hrun; discriminate Hrun].
  destruct (@run_trace_is_exact libm_approx _ _ two_particle_engine self' 2 1
              "./results" false w w' eq_refl eq_refl Hrun 2%nat)
    as (st & T & x & Hloop & HT & Hentry & Hx); [lia |].
  exists self', w', st, T, x. repeat (split; [assumption || reflexivity |]).
  exact Hx.
Defined.

(** ** What a run keeps *)

(** An iteration that returns, taken apart: the draws, the trial move, the
    entry written to the trace and, at the logging cadence, the log line,
    the snapshot and the tuning. *)
Lemma run_step_inversion `{Libm} `{RandomSource G} (tail_correction : Q)
    (freq : Z) (save_dir : string) (save_snaps : bool) (i_step : nat)
    (st st' : MC.loop_state G) :
  MC.run_step tail_correction freq save_dir save_snaps i_step st = Ok st' ->
  let e := MC.engine st in
  let e1 := MC.set_counters (MC.set_current_step e (MC.current_step e + 1))
              (MC._n_trials e + 1) (MC._n_accept e) in
  let N := Geom.num_particles (MC._Geom e) in
  exists i_particle u g1 g2 e2 g3 a,
    randint N (MC.rng (MC.env st)) = (i_particle, g1)
    /\ rand_vec 3 g1 = (u, g2)
    /\ MC.trial_move e1 (MC.total_pair_energy st) i_particle
         (map (fun x => (2 * x - 1) * MC.max_displacement e) u) g2
       = Ok (e2, MC.total_pair_energy st', g3)
    /\ setitem (MC._energy_array e2) (MC.current_step e2)
         ((MC.total_pair_energy st' + tail_correction) / N) = Ok a
    /\ MC.rng (MC.env st') = g3
    /\ ((np_mod (Z.of_nat i_step + 1) freq <> 0%Z
         /\ MC.engine st' = MC.set_energy_array e2 a
         /\ MC.files (MC.env st') = MC.files (MC.env st)
         /\ MC.log (MC.env st') = MC.log (MC.env st))
        \/ (np_mod (Z.of_nat i_step + 1) freq = 0%Z
            /\ (if save_snaps
                then MC.save_snapshot (MC.set_energy_array e2 a)
                       (MC.files (MC.env st)) (snapshot_path save_dir i_step)
                     = Ok (MC.files (MC.env st'))
                else MC.files (MC.env st') = MC.files (MC.env st))
            /\ (if MC.tune_displacement e2
                then MC._adjust_displacement (MC.set_energy_array e2 a)
                     = Ok (MC.engine st')
                else MC.engine st' = MC.set_energy_array e2 a)
            /\ MC.log (MC.env st')
               = MC.log (MC.env st)
                 ++ [((Z.of_nat i_step + 1)%Z,
                      (MC.total_pair_energy st' + tail_correction) / N)])).
Proof.
  intros Hstep e e1 N. unfold MC.run_step in Hstep.
  fold e in Hstep.
  set (e1' := MC.set_counters _ _ _) in Hstep.
  change e1' with e1 in Hstep. clear e1'.
  change (Geom.num_particles (MC._Geom e1)) with N in Hstep.
  change (MC.max_displacement e1) with (MC.max_displacement e) in Hstep.
  destruct (Qle_bool N 0); [discriminate Hstep |].
  destruct (randint N _) as [i_particle g1] eqn:Hri.
  destruct (rand_vec 3 g1) as [u g2] eqn:Hrv.
  destruct (MC.trial_move e1 _ _ _ _) as [[[e2 total] g3] | ?] eqn:Hmove;
    cbn [mbind result_bind] in Hstep; [| discriminate Hstep].
  destruct (setitem _ _ _) as [a | ?] eqn:Hset;
    cbn [mbind result_bind] in Hstep; [| discriminate Hstep].
  exists i_particle, u, g1, g2, e2, g3, a.
  destruct (Z.eqb_spec (np_mod (Z.of_nat i_step + 1) freq) 0) as [Hmod | Hmod].
  - destruct save_snaps.
    + destruct (MC.save_snapshot _ _ _) as [fs | ?] eqn:Hsnap;
        cbn [mbind result_bind] in Hstep; [| discriminate Hstep].
      change (MC.tune_displacement (MC.set_energy_array e2 a))
        with (MC.tune_displacement e2) in Hstep.
      destruct (MC.tune_displacement e2).
      * destruct (MC._adjust_displacement _) as [e3 | ?] eqn:Hadj;
          cbn [mbind result_bind] in Hstep; [| discriminate Hstep].
        injection Hstep as <-. cbn [MC.total_pair_energy MC.env MC.rng
          MC.engine MC.files MC.log].
        repeat (split; [reflexivity || assumption |]). right.
        repeat (split; [reflexivity || assumption |]). reflexivity.
      * cbn [mbind result_bind] in Hstep. injection Hstep as <-.
        cbn [MC.total_pair_energy MC.env MC.rng MC.engine MC.files MC.log].
        repeat (split; [reflexivity || assumption |]). right.
        repeat (split; [reflexivity || assumption |]). reflexivity.
    + cbn [mbind result_bind] in Hstep.
      change (MC.tune_displacement (MC.set_energy_array e2 a))
        with (MC.tune_displacement e2) in Hstep.
      destruct (MC.tune_displacement e2).
      * destruct (MC._adjust_displacement _) as [e3 | ?] eqn:Hadj;
          cbn [mbind result_bind] in Hstep; [| discriminate Hstep].
        injection Hstep as <-. cbn [MC.total_pair_energy MC.env MC.rng
          MC.engine MC.files MC.log].
        repeat (split; [reflexivity || assumption |]). right.
        repeat (split; [reflexivity || assumption |]). reflexivity.
      * cbn [mbind result_bind] in Hstep. injection Hstep as <-.
        cbn [MC.total_pair_energy MC.env MC.rng MC.engine MC.files MC.log].
        repeat (split; [reflexivity || assumption |]). right.
        repeat (split; [reflexivity || assumption |]). reflexivity.
  - injection Hstep as <-.
    cbn [MC.total_pair_energy MC.env MC.rng MC.engine MC.files MC.log].
    repeat (split; [reflexivity || assumption |]). left.
    repeat (split; [reflexivity || assumption |]). reflexivity.
Qed.

Lemma rand_vec_length `{RandomSource G} (n : nat) (g : G) :
  length (fst (rand_vec n g)) = n.
Proof.
  revert g. induction n as [| n IH]; intros g; [reflexivity |].
  cbn [rand_vec]. destruct (rand g) as [u g1].
  specialize (IH g1). destruct (rand_vec n g1) as [us g2].
  cbn [fst length] in *. now rewrite IH.
Qed.

(** What a trial move leaves alone, continued: the box, the parameters of
    the engine, and the primary cell. *)
Lemma trial_move_keeps `{Libm} `{RandomSource G} (self self' : MC.t)
    (total total' : Q) (i_particle : nat) (d : list Q) (g g' : G) :
  MC.trial_move self total i_particle d g = Ok (self', total', g') ->
  same_box (MC._Geom self) (MC._Geom self')
  /\ MC._Energy self' = MC._Energy self
  /\ MC.beta self' = MC.beta self
  /\ MC.max_displacement self' = MC.max_displacement self
  /\ MC.freq self' = MC.freq self
  /\ (0 < Geom.box_length (MC._Geom self) -> length d = 3%nat ->
      in_primary_cell (MC._Geom self) -> in_primary_cell (MC._Geom self')).
Proof.
  intros Hmove.
  destruct (Geom.coordinates (MC._Geom self) !! i_particle) as [old |] eqn:Hi.
  2: { unfold MC.trial_move, Energy.get_particle_energy in Hmove.
       rewrite Hi in Hmove. discriminate Hmove. }
  rewrite (trial_move_unfold self total i_particle d old g Hi) in Hmove.
  cbv zeta in Hmove. unfold same_box, in_primary_cell.
  destruct (fst (MC._accept_or_reject self _ g)); injection Hmove as <- _ _;
    cbn [MC.set_counters MC.set_coordinates MC._Geom MC._Energy MC.beta
         MC.max_displacement MC.freq Geom.num_particles Geom.box_length
         Geom.volume Geom.coordinates];
    rewrite ?length_insert;
    (split; [repeat split |]); repeat (split; [reflexivity |]).
  - intros HL Hd Hcell. apply Forall_insert; [exact Hcell |].
    destruct (Forall_lookup_1 _ _ _ _ Hcell Hi) as [Hold _].
    unfold Geom.wrap. split.
    + rewrite length_map, length_zip_with, Hold, Hd. reflexivity.
    + apply Forall_forall. intros x Hx.
      apply list_elem_of_In, in_map_iff in Hx as (y & <- & _).
      apply (wrap_component_range _ HL).
  - intros _ _ Hcell. exact Hcell.
Qed.

(** What one iteration of the loop keeps. *)
Lemma run_step_keeps `{Libm} `{RandomSource G} (tail_correction : Q)
    (freq : Z) (save_dir : string) (save_snaps : bool) (i_step : nat)
    (st st' : MC.loop_state G) :
  MC.run_step tail_correction freq save_dir save_snaps i_step st = Ok st' ->
  let e := MC.engine st in
  let e' := MC.engine st' in
  same_box (MC._Geom e) (MC._Geom e')
  /\ MC._Energy e' = MC._Energy e
  /\ MC.beta e' = MC.beta e
  /\ MC.tune_displacement e' = MC.tune_displacement e
  /\ MC.freq e' = MC.freq e
  /\ (0 < Geom.box_length (MC._Geom e) ->
      in_primary_cell (MC._Geom e) -> in_primary_cell (MC._Geom e'))
  /\ ((0 <= MC._n_accept e <= MC._n_trials e)%Z ->
      (0 <= MC._n_accept e' <= MC._n_trials e')%Z
      /\ (MC._n_trials e' <= MC._n_trials e + 1)%Z)
  /\ (0 < MC.max_displacement e -> 0 < MC.max_displacement e')
  /\ (MC.tune_displacement e = false ->
      MC.max_displacement e' = MC.max_displacement e).
Proof.
  intros Hstep e e'.
  apply run_step_inversion in Hstep. cbv zeta in Hstep. fold e in Hstep.
  destruct Hstep
    as (i_particle & u & g1 & g2 & e2 & g3 & a & _ & Hrv & Hmove & _ & _ & Hend).
  pose proof (trial_move_frame _ _ _ _ _ _ _ _ Hmove)
    as (_ & _ & Htr & Hacc & Htune & _ & _).
  pose proof (trial_move_keeps _ _ _ _ _ _ _ _ Hmove)
    as (Hbox & HE & Hbeta & Hmd & Hfreq & Hcell).
  assert (Hd : length (map (fun x => (2 * x - 1) * MC.max_displacement e) u)
               = 3%nat).
  { rewrite length_map. pose proof (rand_vec_length 3 g1) as Hl.
    now rewrite Hrv in Hl. }
  cbn [MC.set_counters MC.set_current_step MC._Geom MC._Energy MC.beta
       MC.max_displacement MC.freq MC._n_trials MC._n_accept
       MC.tune_displacement] in Hbox, HE, Hbeta, Hmd, Hfreq, Hcell, Htr,
       Hacc, Htune.
  assert (Hplain : MC.engine st' = MC.set_energy_array e2 a ->
    same_box (MC._Geom e) (MC._Geom e')
    /\ MC._Energy e' = MC._Energy e
    /\ MC.beta e' = MC.beta e
    /\ MC.tune_displacement e' = MC.tune_displacement e
    /\ MC.freq e' = MC.freq e
    /\ (0 < Geom.box_length (MC._Geom e) ->
        in_primary_cell (MC._Geom e) -> in_primary_cell (MC._Geom e'))
    /\ ((0 <= MC._n_accept e <= MC._n_trials e)%Z ->
        (0 <= MC._n_accept e' <= MC._n_trials e')%Z
        /\ (MC._n_trials e' <= MC._n_trials e + 1)%Z)
    /\ (0 < MC.max_displacement e -> 0 < MC.max_displacement e')
    /\ (MC.tune_displacement e = false ->
        MC.max_displacement e' = MC.max_displacement e)).
  { intros He'. unfold e'. rewrite He'.
    cbn [MC.set_energy_array MC._Geom MC._Energy MC.beta MC.max_displacement
         MC.freq MC._n_trials MC._n_accept MC.tune_displacement].
    split; [exact Hbox |]. split; [exact HE |]. split; [exact Hbeta |].
    split; [exact Htune |]. split; [exact Hfreq |].
    split; [intros HL Hc; now apply Hcell |].
    split; [intros Hc; split; lia |].
    split; [now rewrite Hmd | intros _; exact Hmd]. }
  destruct Hend as [(_ & He' & _) | (_ & _ & Hadj & _)]; [now apply Hplain |].
  rewrite Htune in Hadj. destruct (MC.tune_displacement e) eqn:Et;
    [| now apply Hplain].
  unfold MC._adjust_displacement in Hadj.
  destruct (MC._n_trials (MC.set_energy_array e2 a) =? 0)%Z;
    [discriminate Hadj |].
  injection Hadj as Hadj. fold e' in Hadj.
  assert (Hfields :
    MC._Geom e' = MC._Geom e2 /\ MC._Energy e' = MC._Energy e2
    /\ MC.beta e' = MC.beta e2
    /\ MC.tune_displacement e' = MC.tune_displacement e2
    /\ MC.freq e' = MC.freq e2
    /\ MC._n_trials e' = 0%Z /\ MC._n_accept e' = 0%Z
    /\ (MC.max_displacement e' = MC.max_displacement e2 * (8 # 10)
        \/ MC.max_displacement e' = MC.max_displacement e2 * (12 # 10)
        \/ MC.max_displacement e' = MC.max_displacement e2)).
  { rewrite <- Hadj.
    destruct (Qltb _ (38 # 100)); [| destruct (Qltb (42 # 100) _)];
      cbn; repeat (split; [reflexivity |]); auto. }
  destruct Hfields as (-> & -> & -> & -> & -> & -> & -> & Hnew).
  split; [exact Hbox |]. split; [exact HE |]. split; [exact Hbeta |].
  split; [now rewrite Htune |]. split; [exact Hfreq |].
  split; [intros HL Hc; now apply Hcell |].
  split; [intros Hc; split; lia |].
  split; [| discriminate].
  intros Hpos. rewrite Hmd in Hnew. destruct Hnew as [-> | [-> | ->]]; lra.
Qed.

Lemma same_box_trans (g1 g2 g3 : Geom.t) :
  same_box g1 g2 -> same_box g2 g3 -> same_box g1 g3.
Proof.
  unfold same_box. intros (A1 & B1 & C1 & D1) (A2 & B2 & C2 & D2).
  repeat split; congruence.
Qed.

(** What the loop keeps, over any number of iterations. *)
Lemma run_loop_keeps `{Libm} `{RandomSource G} (tail_correction : Q)
    (freq : Z) (save_dir : string) (save_snaps : bool) (steps : list nat) :
  forall st st' : MC.loop_state G,
  MC.run_loop tail_correction freq save_dir save_snaps steps st = Ok st' ->
  let e := MC.engine st in
  let e' := MC.engine st' in
  same_box (MC._Geom e) (MC._Geom e')
  /\ MC._Energy e' = MC._Energy e
  /\ MC.beta e' = MC.beta e
  /\ MC.tune_displacement e' = MC.tune_displacement e
  /\ MC.freq e' = MC.freq e
  /\ (0 < Geom.box_length (MC._Geom e) ->
      in_primary_cell (MC._Geom e) -> in_primary_cell (MC._Geom e'))
  /\ ((0 <= MC._n_accept e <= MC._n_trials e)%Z ->
      (0 <= MC._n_accept e' <= MC._n_trials e')%Z
      /\ (MC._n_trials e' <= MC._n_trials e + Z.of_nat (length steps))%Z)
  /\ (0 < MC.max_displacement e -> 0 < MC.max_displacement e')
  /\ (MC.tune_displacement e = false ->
      MC.max_displacement e' = MC.max_displacement e).
Proof.
  induction steps as [| i_step rest IH]; intros st st' Hloop; cbv zeta.
  - injection Hloop as <-. unfold same_box. cbn [length].
    repeat split; auto; lia.
  - cbn [MC.run_loop] in Hloop.
    destruct (MC.run_step _ _ _ _ _ st) as [st1 | ?] eqn:Hstep;
      cbn [mbind result_bind] in Hloop; [| discriminate Hloop].
    apply run_step_keeps in Hstep. cbv zeta in Hstep.
    destruct Hstep as (B1 & E1 & Be1 & T1 & F1 & C1 & N1 & P1 & M1).
    destruct (IH st1 st' Hloop) as (B2 & E2 & Be2 & T2 & F2 & C2 & N2 & P2 & M2).
    split; [exact (same_box_trans _ _ _ B1 B2) |].
    split; [congruence |]. split; [congruence |]. split; [congruence |].
    split; [congruence |].
    split.
    { intros HL Hc. apply C2; [| now apply C1].
      destruct B1 as (_ & -> & _). exact HL. }
    split.
    { intros Hc. destruct (N1 Hc) as [Hc1 Hb1].
      destruct (N2 Hc1) as [Hc2 Hb2]. split; [exact Hc2 |].
      cbn [length]. lia. }
    split; [auto |].
    intros Et. rewrite M2, M1; congruence.
Qed.

Lemma run_enter_keeps {G} (self : MC.t) (n_steps : nat) (freq : Z)
    (w : MC.world G) (st0 : MC.loop_state G) :
  MC.run_enter self n_steps freq w = Ok st0 ->
  let e := MC.engine st0 in
  MC._Geom e = MC._Geom self
  /\ MC._Energy e = MC._Energy self
  /\ MC.beta e = MC.beta self
  /\ MC.tune_displacement e = MC.tune_displacement self
  /\ MC.max_displacement e = MC.max_displacement self
  /\ MC._n_trials e = MC._n_trials self
  /\ MC._n_accept e = MC._n_accept self
  /\ MC.current_step e = MC.current_step self
  /\ MC.freq e = Some freq
  /\ MC.rng (MC.env st0) = MC.rng w
  /\ MC.files (MC.env st0) = MC.files w
  /\ MC.log (MC.env st0) = [].
Proof.
  unfold MC.run_enter. intros Henter.
  destruct (Energy.calculate_total_pair_energy _ _) as [e0 | ?];
    cbn [mbind result_bind] in Henter; [| discriminate Henter].
  destruct (MC.current_step (MC.set_freq self freq) =? 0)%nat.
  - destruct (setitem _ _ _) as [a | ?];
      cbn [mbind result_bind] in Henter; [| discriminate Henter].
    injection Henter as <-. repeat split.
  - cbn [mbind result_bind] in Henter. injection Henter as <-. repeat split.
Qed.

(** X9: a run never changes the box.  Whenever [run] returns, the particle
    count, the box length, the volume, the number of coordinate rows, the
    cutoff and [beta] are what they were. *)
Theorem run_keeps_box `{Libm} `{RandomSource G} (self self' : MC.t)
    (n_steps : nat) (freq : Z) (save_dir : string) (save_snaps : bool)
    (w w' : MC.world G) :
  MC.run self n_steps freq save_dir save_snaps w = Ok (self', w') ->
  same_box (MC._Geom self) (MC._Geom self')
  /\ MC._Energy self' = MC._Energy self
  /\ MC.beta self' = MC.beta self.
Proof.
  unfold MC.run. intros Hrun.
  destruct (MC.run_enter self n_steps freq w) as [st0 | ?] eqn:Henter;
    cbn [mbind result_bind] in Hrun; [| discriminate Hrun].
  destruct (MC.run_loop _ _ _ _ _ st0) as [st' | ?] eqn:Hloop;
    cbn [mbind result_bind] in Hrun; [| discriminate Hrun].
  injection Hrun as <- _.
  apply run_enter_keeps in Henter. cbv zeta in Henter.
  destruct Henter as (Hg & HE & Hb & _).
  apply run_loop_keeps in Hloop. cbv zeta in Hloop.
  destruct Hloop as (B & E & Be & _).
  rewrite Hg in B. rewrite HE in E. rewrite Hb in Be.
  repeat (split; [assumption |]). exact Be.
Qed.

Lemma run_keeps_box_witness :
  let g := mk_script [1 # 2; 1 # 2; 1 # 2; 9 # 10] [0%nat] in
  let w := MC.mk_world g start_files [] in
  exists self' w',
    @MC.run libm_approx _ _ two_particle_engine 2 1 "./results" false w
      = Ok (self', w')
    /\ same_box two_particle_box (MC._Geom self').
Proof.
  intros g w.
  destruct (@MC.run libm_approx _ _ two_particle_engine 2 1 "./results" false w)
    as [[self' w'] | ?] eqn:Hrun; [| vm_compute in Hrun; discriminate Hrun].
  destruct (@run_keeps_box libm_approx _ _ two_particle_engine self' 2 1
              "./results" false w w' Hrun) as (Hbox & _ & _).
  exists self', w'. split; [reflexivity |]. exact Hbox.
Defined.

(** In exact arithmetic a run keeps the particles in the primary cell: if
    the box length is positive and the coordinates formed an N x 3 array
    within half a box length of zero in every component, they still do when
    [run] returns. *)
Lemma run_keeps_primary_cell `{Libm} `{RandomSource G} (self self' : MC.t)
    (n_steps : nat) (freq : Z) (save_dir : string) (save_snaps : bool)
    (w w' : MC.world G) :
  MC.run self n_steps freq save_dir save_snaps w = Ok (self', w') ->
  0 < Geom.box_length (MC._Geom self) ->
  in_primary_cell (MC._Geom self) -> in_primary_cell (MC._Geom self').
Proof.
  unfold MC.run. intros Hrun.
  destruct (MC.run_enter self n_steps freq w) as [st0 | ?] eqn:Henter;
    cbn [mbind result_bind] in Hrun; [| discriminate Hrun].
  destruct (MC.run_loop _ _ _ _ _ st0) as [st' | ?] eqn:Hloop;
    cbn [mbind result_bind] in Hrun; [| discriminate Hrun].
  injection Hrun as <- _.
  apply run_enter_keeps in Henter. cbv zeta in Henter.
  destruct Henter as (Hg & _).
  apply run_loop_keeps in Hloop. cbv zeta in Hloop.
  destruct Hloop as (_ & _ & _ & _ & _ & C & _).
  rewrite Hg in C. exact C.
Qed.

(** X10: a run advances the step counter by [n_steps] and keeps the
    acceptance statistics meaningful: if the accept counter was between 0 and
    the trial counter, it still is, and the trial counter has grown by at
    most [n_steps]. *)
Theorem run_counters `{Libm} `{RandomSource G} (self self' : MC.t)
    (n_steps : nat) (freq : Z) (save_dir : string) (save_snaps : bool)
    (w w' : MC.world G) :
  (0 <= MC._n_accept self <= MC._n_trials self)%Z ->
  MC.run self n_steps freq save_dir save_snaps w = Ok (self', w') ->
  MC.current_step self' = (MC.current_step self + n_steps)%nat
  /\ (0 <= MC._n_accept self' <= MC._n_trials self')%Z
  /\ (MC._n_trials self' <= MC._n_trials self + Z.of_nat n_steps)%Z.
Proof.
  unfold MC.run. intros Hc Hrun.
  destruct (MC.run_enter self n_steps freq w) as [st0 | ?] eqn:Henter;
    cbn [mbind result_bind] in Hrun; [| discriminate Hrun].
  destruct (MC.run_loop _ _ _ _ _ st0) as [st' | ?] eqn:Hloop;
    cbn [mbind result_bind] in Hrun; [| discriminate Hrun].
  injection Hrun as <- _.
  apply run_enter_keeps in Henter. cbv zeta in Henter.
  destruct Henter as (_ & _ & _ & _ & _ & Ht & Ha & Hs & _).
  pose proof (run_loop_trace _ _ _ _ _ _ _ Hloop) as Htrace.
  cbv zeta in Htrace. destruct Htrace as (Hstep & _).
  apply run_loop_keeps in Hloop. cbv zeta in Hloop.
  destruct Hloop as (_ & _ & _ & _ & _ & _ & N & _).
  rewrite Ht, Ha in N. rewrite Hs, length_seq in Hstep. rewrite length_seq in N.
  split; [exact Hstep |]. exact (N Hc).
Qed.

Lemma run_counters_witness :
  let g := mk_script [1 # 2; 1 # 2; 1 # 2; 9 # 10] [0%nat] in
  let w := MC.mk_world g start_files [] in
  exists self' w',
    @MC.run libm_approx _ _ two_particle_engine 2 5 "./results" false w
      = Ok (self', w')
    /\ MC.current_step self' = 2%nat
    /\ (0 <= MC._n_accept self' <= MC._n_trials self')%Z.
Proof.
  intros g w.
  destruct (@MC.run libm_approx _ _ two_particle_engine 2 5 "./results" false w)
    as [[self' w'] | ?] eqn:Hrun; [| vm_compute in Hrun; discriminate Hrun].
  destruct (@run_counters libm_approx _ _ two_particle_engine self' 2 5
              "./results" false w w' ltac:(cbn; lia) Hrun) as (Hs & Hc & _).
  exists self', w'. split; [reflexivity |]. split; assumption.
Defined.

(** X11: a run keeps the maximum displacement positive, and leaves it
    unchanged when the engine was built with [tune_displacement=False]. *)
Theorem run_max_displacement `{Libm} `{RandomSource G} (self self' : MC.t)
    (n_steps : nat) (freq : Z) (save_dir : string) (save_snaps : bool)
    (w w' : MC.world G) :
  MC.run self n_steps freq save_dir save_snaps w = Ok (self', w') ->
  (0 < MC.max_displacement self -> 0 < MC.max_displacement self')
  /\ (MC.tune_displacement self = false ->
      MC.max_displacement self' = MC.max_displacement self)
  /\ MC.tune_displacement self' = MC.tune_displacement self.
Proof.
  unfold MC.run. intros Hrun.
  destruct (MC.run_enter self n_steps freq w) as [st0 | ?] eqn:Henter;
    cbn [mbind result_bind] in Hrun; [| discriminate Hrun].
  destruct (MC.run_loop _ _ _ _ _ st0) as [st' | ?] eqn:Hloop;
    cbn [mbind result_bind] in Hrun; [| discriminate Hrun].
  injection Hrun as <- _.
  apply run_enter_keeps in Henter. cbv zeta in Henter.
  destruct Henter as (_ & _ & _ & Htune & Hmd & _).
  apply run_loop_keeps in Hloop. cbv zeta in Hloop.
  destruct Hloop as (_ & _ & _ & T & _ & _ & _ & P & M).
  rewrite Hmd in P, M. rewrite Htune in T, M.
  split; [exact P |]. split; [exact M | exact T].
Qed.

Lemma run_max_displacement_witness :
  let g := mk_script [1 # 2; 1 # 2; 1 # 2; 9 # 10] [0%nat] in
  let w := MC.mk_world g start_files [] in
  exists self' w',
    @MC.run libm_approx _ _ two_particle_engine 2 1 "./results" false w
      = Ok (self', w')
    /\ 0 < MC.max_displacement self'.
Proof.
  intros g w.
  destruct (@MC.run libm_approx _ _ two_particle_engine 2 1 "./results" false w)
    as [[self' w'] | ?] eqn:Hrun; [| vm_compute in Hrun; discriminate Hrun].
  destruct (@run_max_displacement libm_approx _ _ two_particle_engine self' 2 1
              "./results" false w w' Hrun) as (Hpos & _).
  exists self', w'. split; [reflexivity |]. apply Hpos. reflexivity.
Defined.

(** ** Successive runs *)

(** The loop writes the entries of its own steps only. *)
Lemma run_loop_untouched `{Libm} `{RandomSource G} (tail_correction : Q)
    (freq : Z) (save_dir : string) (save_snaps : bool) (steps : list nat) :
  forall st st' : MC.loop_state G,
  MC.run_loop tail_correction freq save_dir save_snaps steps st = Ok st' ->
  forall j,
    (j <= MC.current_step (MC.engine st)
     \/ MC.current_step (MC.engine st) + length steps < j)%nat ->
    MC._energy_array (MC.engine st') !! j = MC._energy_array (MC.engine st) !! j.
Proof.
  induction steps as [| i_step rest IH]; intros st st' Hloop j Hj.
  - now injection Hloop as <-.
  - cbn [MC.run_loop] in Hloop.
    destruct (MC.run_step _ _ _ _ _ st) as [st1 | ?] eqn:Hstep;
      cbn [mbind result_bind] in Hloop; [| discriminate Hloop].
    apply run_step_trace in Hstep. cbv zeta in Hstep.
    destruct Hstep as (Hcs & _ & _ & Hold & _).
    cbn [length] in Hj.
    rewrite (IH st1 st' Hloop j) by (rewrite Hcs; lia).
    apply Hold. lia.
Qed.

(** The shape of the trace after any run: [n_steps] more entries, one more
    still when the step counter was 0, the step counter advanced by
    [n_steps], and no entry changed but entry 0 of a run that starts from
    step 0 and the entries of the steps of this run. *)
Lemma run_shape `{Libm} `{RandomSource G} (self self' : MC.t)
    (n_steps : nat) (freq : Z) (save_dir : string) (save_snaps : bool)
    (w w' : MC.world G) :
  MC.run self n_steps freq save_dir save_snaps w = Ok (self', w') ->
  let c := MC.current_step self in
  let extra := if (c =? 0)%nat then 1%nat else 0%nat in
  MC.current_step self' = (c + n_steps)%nat
  /\ length (MC._energy_array self')
     = (length (MC._energy_array self) + n_steps + extra)%nat
  /\ (forall j, (j <= c \/ c + n_steps < j)%nat -> (c = 0%nat -> j <> 0%nat) ->
      MC._energy_array self' !! j
      = (MC._energy_array self ++ replicate (n_steps + extra) 0) !! j).
Proof.
  intros Hrun c extra. unfold MC.run in Hrun.
  destruct (MC.run_enter self n_steps freq w) as [st0 | ?] eqn:Henter;
    cbn [mbind result_bind] in Hrun; [| discriminate Hrun].
  destruct (MC.run_loop _ _ _ _ _ st0) as [st' | ?] eqn:Hloop;
    cbn [mbind result_bind] in Hrun; [| discriminate Hrun].
  injection Hrun as <- _.
  pose proof (run_loop_trace _ _ _ _ _ _ _ Hloop) as Htrace.
  cbv zeta in Htrace. destruct Htrace as (Hcs & Hlen & _).
  pose proof (run_loop_untouched _ _ _ _ _ _ _ Hloop) as Hsame.
  rewrite length_seq in Hcs, Hsame.
  assert (Hst0 : MC.current_step (MC.engine st0) = c
    /\ length (MC._energy_array (MC.engine st0))
       = (length (MC._energy_array self) + n_steps + extra)%nat
    /\ forall j, (c = 0%nat -> j <> 0%nat) ->
         MC._energy_array (MC.engine st0) !! j
         = (MC._energy_array self ++ replicate (n_steps + extra) 0) !! j).
  { unfold MC.run_enter in Henter.
    destruct (Energy.calculate_total_pair_energy _ _) as [e0 | ?];
      cbn [mbind result_bind] in Henter; [| discriminate Henter].
    change (MC.current_step (MC.set_freq self freq)) with c in Henter.
    change (MC._energy_array (MC.set_freq self freq))
      with (MC._energy_array self) in Henter.
    unfold extra. destruct (Nat.eqb_spec c 0) as [Hc | Hc].
    - destruct (setitem _ _ _) as [a | ?] eqn:Hset;
        cbn [mbind result_bind] in Henter; [| discriminate Henter].
      apply setitem_Ok in Hset as [_ ->]. injection Henter as <-.
      cbn [MC.engine MC.set_energy_array MC._energy_array MC.current_step
           MC.set_freq].
      split; [reflexivity |]. split.
      + rewrite length_insert, length_app, length_replicate. lia.
      + intros j Hj. rewrite list_lookup_insert_ne by (specialize (Hj Hc); lia).
        reflexivity.
    - cbn [mbind result_bind] in Henter. injection Henter as <-.
      cbn [MC.engine MC.set_energy_array MC._energy_array MC.current_step
           MC.set_freq].
      split; [reflexivity |]. split.
      + rewrite length_app, length_replicate. lia.
      + intros j _. now rewrite Nat.add_0_r. }
  destruct Hst0 as (Hc0 & Hlen0 & Hentries).
  rewrite Hc0 in Hcs, Hsame. rewrite Hlen0 in Hlen.
  split; [exact Hcs |]. split; [exact Hlen |].
  intros j Hj Hz. rewrite Hsame by exact Hj. now apply Hentries.
Qed.

(** X12: a run is resumable.  When a first run of at least one step on a
    fresh engine is followed by a second run, the trace has
    [n_steps + m_steps + 1] entries, its entries up to [n_steps] are the
    trace the first run left, and the step counter is [n_steps + m_steps]. *)
Theorem run_resumes `{Libm} `{RandomSource G} (self self1 self2 : MC.t)
    (n_steps m_steps : nat) (freq freq' : Z) (save_dir save_dir' : string)
    (save_snaps save_snaps' : bool) (w w1 w1' w2 : MC.world G) :
  MC.current_step self = 0%nat ->
  MC._energy_array self = [] ->
  (1 <= n_steps)%nat ->
  MC.run self n_steps freq save_dir save_snaps w = Ok (self1, w1) ->
  MC.run self1 m_steps freq' save_dir' save_snaps' w1' = Ok (self2, w2) ->
  length (MC._energy_array self2) = (n_steps + m_steps + 1)%nat
  /\ take (n_steps + 1) (MC._energy_array self2) = MC._energy_array self1
  /\ MC.current_step self2 = (n_steps + m_steps)%nat.
Proof.
  intros Hcs Harr Hn Hrun1 Hrun2.
  apply run_shape in Hrun1. cbv zeta in Hrun1.
  destruct Hrun1 as (Hc1 & Hlen1 & _).
  rewrite Hcs, Harr in *. cbn [Nat.eqb length] in Hlen1.
  apply run_shape in Hrun2. cbv zeta in Hrun2.
  destruct Hrun2 as (Hc2 & Hlen2 & Hsame2).
  rewrite Hc1 in Hc2, Hlen2, Hsame2. rewrite Hlen1 in Hlen2.
  destruct (Nat.eqb_spec (0 + n_steps) 0) as [Hz | _]; [lia |].
  split; [lia |]. split; [| lia].
  apply list_eq. intros j.
  destruct (Nat.lt_ge_cases j (n_steps + 1)) as [Hlt | Hge].
  - rewrite lookup_take_lt by exact Hlt.
    rewrite Hsame2 by lia.
    apply lookup_app_l. lia.
  - rewrite lookup_take_ge by exact Hge.
    symmetry. apply lookup_ge_None. lia.
Qed.

Lemma run_resumes_witness :
  let g := mk_script [1 # 2; 1 # 2; 1 # 2; 9 # 10] [0%nat] in
  let w := MC.mk_world g start_files [] in
  exists self1 w1 self2 w2,
    @MC.run libm_approx _ _ two_particle_engine 1 5 "./results" false w
      = Ok (self1, w1)
    /\ @MC.run libm_approx _ _ self1 2 5 "./results" false w1 = Ok (self2, w2)
    /\ length (MC._energy_array self2) = 4%nat
    /\ take 2 (MC._energy_array self2) = MC._energy_array self1.
Proof.
  intros g w.
  destruct (@MC.run libm_approx _ _ two_particle_engine 1 5 "./results" false w)
    as [[self1 w1] | ?] eqn:Hrun1; [| vm_compute in Hrun1; discriminate Hrun1].
  destruct (@MC.run libm_approx _ _ self1 2 5 "./results" false w1)
    as [[self2 w2] | ?] eqn:Hrun2.
  - destruct (@run_resumes libm_approx _ _ two_particle_engine self1 self2
                1 2 5 5 "./results" "./results" false false w w1 w1 w2
                eq_refl eq_refl ltac:(lia) Hrun1 Hrun2) as (Hlen & Htake & _).
    exists self1, w1, self2, w2. repeat split; assumption.
  - exfalso. vm_compute in Hrun1. injection Hrun1 as <- <-.
    vm_compute in Hrun2. discriminate Hrun2.
Defined.

(** X13: a run of zero steps is mistaken for no run at all.  After
    [run(0)] on a fresh engine the step counter is still 0, so a following
    run of [m_steps] steps appends [m_steps + 1] entries once more: the trace
    has [m_steps + 2] entries instead of [m_steps + 1], and its last entry is
    a zero that no step has written. *)
Theorem run_zero_then_run `{Libm} `{RandomSource G} (self self1 self2 : MC.t)
    (m_steps : nat) (freq freq' : Z) (save_dir save_dir' : string)
    (save_snaps save_snaps' : bool) (w w1 w1' w2 : MC.world G) :
  MC.current_step self = 0%nat ->
  MC._energy_array self = [] ->
  MC.run self 0 freq save_dir save_snaps w = Ok (self1, w1) ->
  MC.run self1 m_steps freq' save_dir' save_snaps' w1' = Ok (self2, w2) ->
  MC.current_step self2 = m_steps
  /\ length (MC._energy_array self2) = (m_steps + 2)%nat
  /\ MC._energy_array self2 !! (m_steps + 1)%nat = Some 0.
Proof.
  intros Hcs Harr Hrun1 Hrun2.
  apply run_shape in Hrun1. cbv zeta in Hrun1.
  destruct Hrun1 as (Hc1 & Hlen1 & _).
  rewrite Hcs, Harr in *. cbn [Nat.eqb length Nat.add] in Hc1, Hlen1.
  apply run_shape in Hrun2. cbv zeta in Hrun2.
  destruct Hrun2 as (Hc2 & Hlen2 & Hsame2).
  rewrite Hc1 in Hc2, Hlen2, Hsame2. rewrite Hlen1 in Hlen2.
  cbn [Nat.eqb Nat.add] in Hc2, Hlen2, Hsame2.
  split; [exact Hc2 |]. split; [lia |].
  rewrite Hsame2 by lia.
  rewrite lookup_app_r by lia. rewrite Hlen1.
  apply lookup_replicate_2. lia.
Qed.

Lemma run_zero_then_run_witness :
  let g := mk_script [1 # 2; 1 # 2; 1 # 2; 9 # 10] [0%nat] in
  let w := MC.mk_world g start_files [] in
  exists self1 w1 self2 w2,
    @MC.run libm_approx _ _ two_particle_engine 0 5 "./results" false w
      = Ok (self1, w1)
    /\ @MC.run libm_approx _ _ self1 1 5 "./results" false w1 = Ok (self2, w2)
    /\ length (MC._energy_array self2) = 3%nat
    /\ MC._energy_array self2 !! 2%nat = Some 0.
Proof.
  intros g w.
  destruct (@MC.run libm_approx _ _ two_particle_engine 0 5 "./results" false w)
    as [[self1 w1] | ?] eqn:Hrun1; [| vm_compute in Hrun1; discriminate Hrun1].
  destruct (@MC.run libm_approx _ _ self1 1 5 "./results" false w1)
    as [[self2 w2] | ?] eqn:Hrun2.
  - destruct (@run_zero_then_run libm_approx _ _ two_particle_engine self1
                self2 1 5 5 "./results" "./results" false false w w1 w1 w2
                eq_refl eq_refl Hrun1 Hrun2) as (_ & Hlen & Hlast).
    exists self1, w1, self2, w2. repeat split; assumption.
  - exfalso. vm_compute in Hrun1. injection Hrun1 as <- <-.
    vm_compute in Hrun2. discriminate Hrun2.
Defined.

(** X14: once a run has returned on an engine that was fresh or already
    had a trace, [get_energy] returns the trace, in both copies of [mc.py]:
    the trace is not empty, so the length test of [mm_2019_sss_1] passes. *)
Theorem get_energy_after_run `{Libm} `{RandomSource G} (self self' : MC.t)
    (n_steps : nat) (freq : Z) (save_dir : string) (save_snaps : bool)
    (w w' : MC.world G) :
  MC.current_step self = 0%nat \/ MC._energy_array self <> [] ->
  MC.run self n_steps freq save_dir save_snaps w = Ok (self', w') ->
  (1 <= length (MC._energy_array self'))%nat
  /\ MC_sss.get_energy self' = Ok (MC._energy_array self')
  /\ MC.get_energy self' = Ok (MC._energy_array self').
Proof.
  intros Hstart Hrun.
  apply run_shape in Hrun. cbv zeta in Hrun. destruct Hrun as (_ & Hlen & _).
  assert (Hpos : (1 <= length (MC._energy_array self'))%nat).
  { rewrite Hlen. destruct Hstart as [-> | Hne].
    - cbn [Nat.eqb]. lia.
    - destruct (MC._energy_array self); [contradiction | cbn [length]; lia]. }
  split; [exact Hpos |]. split; [| reflexivity].
  unfold MC_sss.get_energy.
  destruct (Nat.eqb_spec (length (MC._energy_array self')) 0); [lia |].
  reflexivity.
Qed.

Lemma get_energy_after_run_witness :
  let g := mk_script [1 # 2; 1 # 2; 1 # 2; 9 # 10] [0%nat] in
  let w := MC.mk_world g start_files [] in
  exists self' w',
    @MC.run libm_approx _ _ two_particle_engine 2 1 "./results" false w
      = Ok (self', w')
    /\ MC_sss.get_energy self' = Ok (MC._energy_array self').
Proof.
  intros g w.
  destruct (@MC.run libm_approx _ _ two_particle_engine 2 1 "./results" false w)
    as [[self' w'] | ?] eqn:Hrun; [| vm_compute in Hrun; discriminate Hrun].
  destruct (@get_energy_after_run libm_approx _ _ two_particle_engine self' 2
              1 "./results" false w w' (or_introl eq_refl) Hrun)
    as (_ & Hsss & _).
  exists self', w'. split; [reflexivity | exact Hsss].
Defined.

(** ** Construction of the geometry *)

Lemma rand_vec_range `{RandomSource G} (n : nat) (g : G) :
  (forall g0 : G, 0 <= fst (rand g0) /\ fst (rand g0) < 1) ->
  Forall (fun u => 0 <= u /\ u < 1) (fst (rand_vec n g)).
Proof.
  intros Hlaw. revert g. induction n as [| n IH]; intros g; [constructor |].
  cbn [rand_vec]. pose proof (Hlaw g) as Hu. destruct (rand g) as [u g1].
  specialize (IH g1). destruct (rand_vec n g1) as [us g2].
  cbn [fst] in *. now constructor.
Qed.

Lemma rand_matrix_shape `{RandomSource G} (n m : nat) (g : G) :
  (forall g0 : G, 0 <= fst (rand g0) /\ fst (rand g0) < 1) ->
  length (fst (rand_matrix n m g)) = n
  /\ Forall (fun row => length row = m
                        /\ Forall (fun u => 0 <= u /\ u < 1) row)
       (fst (rand_matrix n m g)).
Proof.
  intros Hlaw. revert g. induction n as [| n IH]; intros g.
  - split; [reflexivity | constructor].
  - cbn [rand_matrix].
    pose proof (rand_vec_length m g) as Hlen.
    pose proof (rand_vec_range m g Hlaw) as Hrange.
    destruct (rand_vec m g) as [row g1].
    destruct (IH g1) as [IHlen IHrows].
    destruct (rand_matrix n m g1) as [rows g2]. cbn [fst length] in *.
    split; [now rewrite IHlen |]. constructor; [now split | exact IHrows].
Qed.

(** X15: what the random construction returns.  With a generator whose
    draws lie in [[0,1)], whenever [Geom('random', num_particles=n,
    reduced_den=den)] returns a box of positive length, [n] is not negative
    and [den] not zero, the box length is the cube root of [n / den], the
    volume its cube, and the coordinates are [n] rows of 3 components each
    in the half-open interval [(-length/2, length/2]]. *)
Theorem random_state_shape `{Libm} `{RandomSource G} (fs : gmap string file)
    (kw : Geom.kwargs) (n : Z) (den : Q) (g g' : G) (geom : Geom.t) :
  (forall g0 : G, 0 <= fst (rand g0) /\ fst (rand g0) < 1) ->
  Geom.kw_num_particles kw = Some n ->
  Geom.kw_reduced_den kw = Some den ->
  Geom.generate_initial_state fs "random" kw g = (Ok geom, g') ->
  0 < Geom.box_length geom ->
  (0 <= n)%Z /\ ~ den == 0
  /\ Geom.num_particles geom = inject_Z n
  /\ Geom.box_length geom = np_cbrt (inject_Z n / den)
  /\ Geom.volume geom = Geom.box_length geom ^ 3
  /\ length (Geom.coordinates geom) = Z.to_nat n
  /\ Forall (fun r => length r = 3%nat
                      /\ Forall (fun x => - (Geom.box_length geom / 2) < x
                                          /\ x <= Geom.box_length geom / 2) r)
       (Geom.coordinates geom).
Proof.
  intros Hlaw Hn Hden Hgen HL. unfold Geom.generate_initial_state in Hgen.
  cbn [String.eqb Ascii.eqb Bool.eqb andb] in Hgen. rewrite Hn, Hden in Hgen.
  destruct (Qeq_bool den 0) eqn:Ed; [discriminate Hgen |].
  destruct (Z.ltb_spec n 0) as [| Hnn]; [discriminate Hgen |].
  pose proof (rand_matrix_shape (Z.to_nat n) 3 g Hlaw) as [Hlen Hrows].
  destruct (rand_matrix (Z.to_nat n) 3 g) as [r g1]. cbn [fst] in *.
  injection Hgen as <- _. cbn [Geom.num_particles Geom.box_length Geom.volume
    Geom.coordinates] in *.
  set (L := np_cbrt (inject_Z n / den)) in *. clearbody L.
  split; [exact Hnn |]. split.
  { intros E. apply Qeq_bool_iff in E. congruence. }
  repeat (split; [reflexivity |]). split; [now rewrite length_map |].
  apply Forall_forall. intros row Hrow.
  apply list_elem_of_In, in_map_iff in Hrow as (us & <- & Hus).
  apply list_elem_of_In in Hus.
  rewrite Forall_forall in Hrows. destruct (Hrows us Hus) as [Hl Hr].
  split; [now rewrite length_map |].
  apply Forall_forall. intros x Hx.
  apply list_elem_of_In, in_map_iff in Hx as (u & <- & Hu).
  apply list_elem_of_In in Hu. rewrite Forall_forall in Hr.
  destruct (Hr u Hu) as [Hu0 Hu1].
  assert (Hlow : 0 < (1 - u) * L) by (apply Qmult_lt_0_compat; lra).
  assert (Hup : 0 <= u * L) by (apply Qmult_le_0_compat; lra).
  assert (Ehalf : L / 2 == (1 # 2) * L) by field.
  rewrite Ehalf. split; lra.
Qed.

Lemma counter_source_unit (g : counter) :
  0 <= fst (rand g) /\ fst (rand g) < 1.
Proof.
  cbn [rand counter_source fst].
  pose proof (Nat.mod_upper_bound (count g) 16 ltac:(lia)) as Hb.
  unfold Qle, Qlt. cbn [Qnum Qden]. split; lia.
Qed.

Lemma random_state_shape_witness :
  exists geom g',
    @Geom.generate_initial_state libm_approx _ _ start_files "random"
      (Geom.mk_kwargs (Some 2%Z) (Some (1 # 32)) None) (mk_counter 0)
    = (Ok geom, g')
    /\ length (Geom.coordinates geom) = 2%nat
    /\ Forall (fun r => length r = 3%nat
                        /\ Forall (fun x => - (Geom.box_length geom / 2) < x
                                            /\ x <= Geom.box_length geom / 2) r)
         (Geom.coordinates geom).
Proof.
  destruct (@Geom.generate_initial_state libm_approx _ _ start_files "random"
              (Geom.mk_kwargs (Some 2%Z) (Some (1 # 32)) None) (mk_counter 0))
    as [[geom | e] g'] eqn:Hgen; [| vm_compute in Hgen; discriminate Hgen].
  destruct (@random_state_shape libm_approx _ _ start_files
              (Geom.mk_kwargs (Some 2%Z) (Some (1 # 32)) None) 2 (1 # 32)
              (mk_counter 0) g' geom counter_source_unit eq_refl eq_refl Hgen)
    as (_ & _ & _ & _ & _ & Hlen & Hrows).
  - vm_compute in Hgen. injection Hgen as <- _. reflexivity.
  - exists geom, g'. split; [reflexivity |]. split; assumption.
Defined.

(** [loadtxt] on data lines of at least four fields each: the fields 1, 2
    and 3 of every line. *)
Lemma loadtxt_rows (header counts : list Q) (rows : file) :
  Forall (fun r => (4 <= length r)%nat) rows ->
  Geom.loadtxt (header :: counts :: rows)
  = Ok (map (fun r => take 3 (drop 1 r)) rows).
Proof.
  unfold Geom.loadtxt. cbn [drop]. rewrite drop_0.
  induction 1 as [| r rows Hr _ IH]; [reflexivity |].
  destruct r as [| i [| x [| y [| z rest]]]]; cbn [length] in Hr; try lia.
  cbn [List.filter length Nat.eqb negb mapM]. rewrite IH. reflexivity.
Qed.

(** X16: what loading a configuration file returns.  For a file whose
    first line starts with the number [L], whose second line starts with
    [n], and whose [n] further lines (any number but one) have at least four
    fields each, [Geom('file', file_name=...)] returns the box of length [L]
    and volume [L^3] with [n] particles whose coordinates are the fields 1,
    2 and 3 of those lines: the index in field 0 and any later field are
    ignored, and no random number is drawn. *)
Theorem load_configuration `{Libm} `{RandomSource G} (fs : gmap string file)
    (kw : Geom.kwargs) (file_name : string) (L n : Q) (hrest crest : list Q)
    (rows : file) (g : G) :
  Geom.kw_file_name kw = Some file_name ->
  fs !! file_name = Some ((L :: hrest) :: (n :: crest) :: rows) ->
  Forall (fun r => (4 <= length r)%nat) rows ->
  length rows <> 1%nat ->
  n == inject_Z (Z.of_nat (length rows)) ->
  Geom.generate_initial_state fs "file" kw g
  = (Ok (Geom.mk n L (L ^ 3) (map (fun r => take 3 (drop 1 r)) rows)), g).
Proof.
  intros Hkw Hfile Hrows Hone Hn. unfold Geom.generate_initial_state.
  cbn [String.eqb Ascii.eqb Bool.eqb andb]. rewrite Hkw. cbv beta iota.
  unfold file in *. rewrite Hfile.
  cbn [lookup list_lookup Geom.first_number mbind result_bind].
  rewrite (loadtxt_rows _ _ _ Hrows). cbn [mbind result_bind].
  assert (Hshape : Geom.loadtxt_shape0 (map (fun r => take 3 (drop 1 r)) rows)
                   = length rows).
  { destruct rows as [| r [| r' rows']]; [reflexivity | contradiction |].
    cbn [map Geom.loadtxt_shape0 length]. now rewrite length_map. }
  rewrite Hshape. apply Qeq_bool_iff in Hn. now rewrite Hn.
Qed.

Lemma load_configuration_witness :
  @Geom.generate_initial_state libm_approx _ _ start_files "file"
    (Geom.mk_kwargs None None (Some "start.txt"%string)) (mk_script [] [])
  = (Ok (Geom.mk 2 4 (4 ^ 3)
           (map (fun r => take 3 (drop 1 r)) [[1; 0; 0; 0]; [2; 1; 1; 0]])),
     mk_script [] []).
Proof.
  apply (@load_configuration libm_approx _ _ start_files
           (Geom.mk_kwargs None None (Some "start.txt"%string)) "start.txt"
           4 2 [] [] [[1; 0; 0; 0]; [2; 1; 1; 0]] (mk_script [] [])).
  - reflexivity.
  - vm_compute. reflexivity.
  - repeat constructor.
  - discriminate.
  - reflexivity.
Defined.

(** X17: a declared particle count that differs from [shape[0]] of the
    coordinate array is rejected with the inconsistency error, where
    [shape[0]] is the number of data lines except for a single data line,
    whose array [np.loadtxt] squeezes to one dimension of length 3: a file
    with one particle loads only if it declares 3. *)
Theorem load_inconsistent_count `{Libm} `{RandomSource G}
    (fs : gmap string file) (kw : Geom.kwargs) (file_name : string)
    (L n : Q) (hrest crest : list Q) (rows : file) (g : G) :
  Geom.kw_file_name kw = Some file_name ->
  fs !! file_name = Some ((L :: hrest) :: (n :: crest) :: rows) ->
  Forall (fun r => (4 <= length r)%nat) rows ->
  ~ n == inject_Z (Z.of_nat (match rows with
                             | [_] => 3
                             | _ => length rows
                             end)) ->
  Geom.generate_initial_state fs "file" kw g
  = (Raise (ValueError "Inconsistent value of number of particles in file!"),
     g).
Proof.
  intros Hkw Hfile Hrows Hn. unfold Geom.generate_initial_state.
  cbn [String.eqb Ascii.eqb Bool.eqb andb]. rewrite Hkw. cbv beta iota.
  unfold file in *. rewrite Hfile.
  cbn [lookup list_lookup Geom.first_number mbind result_bind].
  rewrite (loadtxt_rows _ _ _ Hrows). cbn [mbind result_bind].
  assert (Hshape : Geom.loadtxt_shape0 (map (fun r => take 3 (drop 1 r)) rows)
                   = match rows with [_] => 3%nat | _ => length rows end).
  { destruct rows as [| r [| r' rows']]; try reflexivity.
    cbn [map Geom.loadtxt_shape0 length]. now rewrite length_map. }
  rewrite Hshape.
  destruct (Qeq_bool n _) eqn:E; [| reflexivity].
  apply Qeq_bool_iff in E. contradiction.
Qed.

(** A file that holds one particle and says so. *)
Lemma load_inconsistent_count_witness :
  let fs : gmap string file :=
    {[ "one.txt"%string := [[4]; [1]; [1; 0; 0; 0]] ]} in
  @Geom.generate_initial_state libm_approx _ _ fs "file"
    (Geom.mk_kwargs None None (Some "one.txt"%string)) (mk_script [] [])
  = (Raise (ValueError "Inconsistent value of number of particles in file!"),
     mk_script [] []).
Proof.
  intros fs.
  apply (@load_inconsistent_count libm_approx _ _ fs
           (Geom.mk_kwargs None None (Some "one.txt"%string)) "one.txt"
           4 1 [] [] [[1; 0; 0; 0]] (mk_script [] [])).
  - reflexivity.
  - vm_compute. reflexivity.
  - repeat constructor.
  - discriminate.
Defined.

(** ** Snapshots written by a run *)

Lemma save_state_Ok (self : Geom.t) (fs fs' : gmap string file)
    (file_name : string) :
  Geom.save_state self fs file_name = Ok fs' ->
  fs !! file_name = None
  /\ fs' = <[file_name :=
              [Geom.box_length self; Geom.box_length self; Geom.box_length self]
              :: [inject_Z (py_int (Geom.num_particles self))]
              :: Geom.coordinates self]> fs.
Proof.
  unfold Geom.save_state. destruct (fs !! file_name); [discriminate |].
  intros E. injection E as <-. split; reflexivity.
Qed.

(** What one iteration does to the files: nothing without snapshots or off
    the logging cadence; otherwise it adds the snapshot of this iteration,
    whose path was free. *)
Lemma run_step_files `{Libm} `{RandomSource G} (tail_correction : Q)
    (freq : Z) (save_dir : string) (save_snaps : bool) (i_step : nat)
    (st st' : MC.loop_state G) :
  MC.run_step tail_correction freq save_dir save_snaps i_step st = Ok st' ->
  let fs := MC.files (MC.env st) in
  let fs' := MC.files (MC.env st') in
  (forall f lines, fs !! f = Some lines -> fs' !! f = Some lines)
  /\ (save_snaps = false -> fs' = fs)
  /\ (save_snaps = true -> np_mod (Z.of_nat i_step + 1) freq = 0%Z ->
      fs !! snapshot_path save_dir i_step = None
      /\ is_Some (fs' !! snapshot_path save_dir i_step)).
Proof.
  intros Hstep fs fs'.
  apply run_step_inversion in Hstep. cbv zeta in Hstep.
  destruct Hstep as (? & ? & ? & ? & e2 & ? & a & _ & _ & _ & _ & _ & Hend).
  fold fs fs' in Hend.
  destruct Hend as [(Hmod & _ & -> & _) | (Hmod & Hsnap & _)].
  - split; [auto |]. split; [auto |]. intros _ Hz. contradiction.
  - destruct save_snaps.
    + apply save_state_Ok in Hsnap as [Hfree ->].
      split; [| split; [discriminate |]].
      * intros f lines Hf. rewrite lookup_insert_ne; [exact Hf |].
        intros <-. rewrite Hfree in Hf. discriminate Hf.
      * intros _ _. split; [exact Hfree |].
        rewrite lookup_insert_eq. eexists; reflexivity.
    + rewrite Hsnap. split; [auto |]. split; [auto | discriminate].
Qed.

Lemma run_loop_files `{Libm} `{RandomSource G} (tail_correction : Q)
    (freq : Z) (save_dir : string) (save_snaps : bool) (steps : list nat) :
  forall st st' : MC.loop_state G,
  MC.run_loop tail_correction freq save_dir save_snaps steps st = Ok st' ->
  let fs := MC.files (MC.env st) in
  let fs' := MC.files (MC.env st') in
  (forall f lines, fs !! f = Some lines -> fs' !! f = Some lines)
  /\ (save_snaps = false -> fs' = fs)
  /\ (save_snaps = true ->
      forall i_step, i_step ∈ steps ->
        np_mod (Z.of_nat i_step + 1) freq = 0%Z ->
        fs !! snapshot_path save_dir i_step = None
        /\ is_Some (fs' !! snapshot_path save_dir i_step)).
Proof.
  induction steps as [| i rest IH]; intros st st' Hloop; cbv zeta.
  - injection Hloop as <-. split; [auto |]. split; [auto |].
    intros _ i_step Hin. inversion Hin.
  - cbn [MC.run_loop] in Hloop.
    destruct (MC.run_step _ _ _ _ _ st) as [st1 | ?] eqn:Hstep;
      cbn [mbind result_bind] in Hloop; [| discriminate Hloop].
    apply run_step_files in Hstep. cbv zeta in Hstep.
    destruct Hstep as (Hkeep1 & Hoff1 & Hsnap1).
    destruct (IH st1 st' Hloop) as (Hkeep2 & Hoff2 & Hsnap2).
    split; [auto |]. split; [intros Hs; rewrite Hoff2, Hoff1; auto |].
    intros Hs i_step Hin Hmod. apply elem_of_cons in Hin as [-> | Hin].
    + destruct (Hsnap1 Hs Hmod) as [Hfree [lines Hthere]].
      split; [exact Hfree |]. exists lines. now apply Hkeep2.
    + destruct (Hsnap2 Hs i_step Hin Hmod) as [Hfree Hthere].
      split; [| exact Hthere].
      destruct (MC.files (MC.env st) !! snapshot_path save_dir i_step)
        as [lines |] eqn:Hf; [| reflexivity].
      apply Hkeep1 in Hf. rewrite Hfree in Hf. discriminate Hf.
Qed.

(** X18: a run never overwrites or removes a file.  Every file that existed
    before a run that returns is unchanged after it; without snapshots the
    file system is the same; with snapshots, every step [i] of [1..n_steps]
    at the logging cadence has written [save_dir/snap_(i+1).txt], and that
    path was free before the run: a run whose snapshot file exists already
    does not return. *)
Theorem run_snapshots `{Libm} `{RandomSource G} (self self' : MC.t)
    (n_steps : nat) (freq : Z) (save_dir : string) (save_snaps : bool)
    (w w' : MC.world G) :
  MC.run self n_steps freq save_dir save_snaps w = Ok (self', w') ->
  (forall f lines, MC.files w !! f = Some lines ->
                   MC.files w' !! f = Some lines)
  /\ (save_snaps = false -> MC.files w' = MC.files w)
  /\ (save_snaps = true ->
      forall i_step, (1 <= i_step <= n_steps)%nat ->
        np_mod (Z.of_nat i_step + 1) freq = 0%Z ->
        MC.files w !! snapshot_path save_dir i_step = None
        /\ is_Some (MC.files w' !! snapshot_path save_dir i_step)).
Proof.
  intros Hrun. unfold MC.run in Hrun.
  destruct (MC.run_enter self n_steps freq w) as [st0 | ?] eqn:Henter;
    cbn [mbind result_bind] in Hrun; [| discriminate Hrun].
  destruct (MC.run_loop _ _ _ _ _ st0) as [st' | ?] eqn:Hloop;
    cbn [mbind result_bind] in Hrun; [| discriminate Hrun].
  injection Hrun as _ <-.
  apply run_enter_keeps in Henter. cbv zeta in Henter.
  destruct Henter as (_ & _ & _ & _ & _ & _ & _ & _ & _ & _ & Hfs & _).
  apply run_loop_files in Hloop. cbv zeta in Hloop. rewrite Hfs in Hloop.
  destruct Hloop as (Hkeep & Hoff & Hsnap).
  split; [exact Hkeep |]. split; [exact Hoff |].
  intros Hs i_step Hi Hmod. apply (Hsnap Hs i_step); [| exact Hmod].
  apply elem_of_seq. lia.
Qed.

Lemma run_snapshots_witness :
  let g := mk_script [1 # 2; 1 # 2; 1 # 2; 9 # 10] [0%nat] in
  let w := MC.mk_world g start_files [] in
  exists self' w',
    @MC.run libm_approx _ _ two_particle_engine 2 3 "./results" true w
      = Ok (self', w')
    /\ MC.files w' !! "start.txt"%string = Some two_particles
    /\ is_Some (MC.files w' !! snapshot_path "./results" 2).
Proof.
  intros g w.
  destruct (@MC.run libm_approx _ _ two_particle_engine 2 3 "./results" true w)
    as [[self' w'] | ?] eqn:Hrun; [| vm_compute in Hrun; discriminate Hrun].
  destruct (@run_snapshots libm_approx _ _ two_particle_engine self' 2 3
              "./results" true w w' Hrun) as (Hkeep & _ & Hsnap).
  exists self', w'. split; [reflexivity |]. split.
  - apply Hkeep. vm_compute. reflexivity.
  - apply (Hsnap eq_refl 2%nat); [lia | reflexivity].
Defined.

(** ** Runs that return, and their log *)

(** X19: a run without snapshots returns.  On an engine that is fresh or
    whose trace reaches its step counter, with a non-negative trial counter,
    a positive particle count and a generator that draws particle indices
    among the rows of the coordinate array, [run] with [save_snaps=False]
    raises nothing, whatever the step count and the logging frequency (zero
    and negative ones included). *)
Theorem run_without_snapshots_returns `{Libm} `{RandomSource G}
    (self : MC.t) (n_steps : nat) (freq : Z) (save_dir : string)
    (w : MC.world G) :
  (MC.current_step self = 0%nat
   \/ MC.current_step self < length (MC._energy_array self))%nat ->
  (0 <= MC._n_trials self)%Z ->
  0 < Geom.num_particles (MC._Geom self) ->
  (forall g : G,
     (fst (randint (Geom.num_particles (MC._Geom self)) g)
      < length (Geom.coordinates (MC._Geom self)))%nat) ->
  exists self' w',
    MC.run self n_steps freq save_dir false w = Ok (self', w').
Proof.
  intros Hstart Htrials HN Hdraw. unfold MC.run.
  destruct (calculate_total_pair_energy_returns (MC._Energy self) (MC._Geom self))
    as [e0 He0].
  assert (Henter : exists st0,
    MC.run_enter self n_steps freq w = Ok st0
    /\ MC._Geom (MC.engine st0) = MC._Geom self
    /\ MC._n_trials (MC.engine st0) = MC._n_trials self
    /\ (MC.current_step (MC.engine st0) + n_steps
        < length (MC._energy_array (MC.engine st0)))%nat).
  { unfold MC.run_enter.
    change (MC._Energy (MC.set_freq self freq)) with (MC._Energy self).
    change (MC._Geom (MC.set_freq self freq)) with (MC._Geom self).
    rewrite He0. cbn [mbind result_bind].
    change (MC.current_step (MC.set_freq self freq))
      with (MC.current_step self).
    change (MC._energy_array (MC.set_freq self freq))
      with (MC._energy_array self).
    destruct (Nat.eqb_spec (MC.current_step self) 0) as [Hz | Hnz].
    - unfold setitem. rewrite length_app, length_replicate.
      destruct (Nat.ltb_spec 0 (length (MC._energy_array self) + (n_steps + 1)));
        [| lia].
      cbn [mbind result_bind]. eexists. split; [reflexivity |].
      cbn [MC.engine MC.set_energy_array MC.set_freq MC._Geom MC._n_trials
           MC.current_step MC._energy_array].
      rewrite length_insert, length_app, length_replicate, Hz.
      repeat split. lia.
    - cbn [mbind result_bind]. eexists. split; [reflexivity |].
      cbn [MC.engine MC.set_energy_array MC.set_freq MC._Geom MC._n_trials
           MC.current_step MC._energy_array].
      rewrite length_app, length_replicate.
      repeat split. destruct Hstart; lia. }
  destruct Henter as (st0 & -> & Hg & Ht & Hroom). cbn [mbind result_bind].
  destruct (run_loop_returns
              (Energy.calculate_tail_correction (MC._Energy self) (MC._Geom self))
              freq save_dir (seq 1 n_steps) st0) as [st' Hloop].
  - now rewrite Hg.
  - intros g. rewrite Hg. apply Hdraw.
  - now rewrite length_seq.
  - now rewrite Ht.
  - rewrite Hloop. cbn [mbind result_bind]. do 2 eexists. reflexivity.
Qed.

Lemma run_without_snapshots_returns_witness :
  exists self' w',
    @MC.run libm_approx _ _ two_particle_engine 7 0 "./results" false
      (MC.mk_world (mk_counter 0) start_files []) = Ok (self', w').
Proof.
  apply (@run_without_snapshots_returns libm_approx _ _ two_particle_engine
           7 0 "./results" (MC.mk_world (mk_counter 0) start_files [])).
  - left. reflexivity.
  - reflexivity.
  - reflexivity.
  - intros g. cbn. apply Nat.mod_upper_bound. discriminate.
Defined.

(** The log lines of the iterations [first, first + 1, ...]: one for each
    iteration at the logging cadence, labelled with the iteration number
    plus one and carrying the trace entry that iteration wrote. *)
Lemma run_loop_log `{Libm} `{RandomSource G} (tail_correction : Q)
    (freq : Z) (save_dir : string) (save_snaps : bool) (m : nat) :
  forall (first : nat) (st st' : MC.loop_state G),
  MC.run_loop tail_correction freq save_dir save_snaps (seq first m) st
    = Ok st' ->
  exists lines,
    MC.log (MC.env st') = MC.log (MC.env st) ++ lines
    /\ Forall2
         (fun line i_step =>
            (first <= i_step)%nat
            /\ fst line = (Z.of_nat i_step + 1)%Z
            /\ MC._energy_array (MC.engine st')
                 !! (MC.current_step (MC.engine st) + (i_step - first) + 1)%nat
               = Some (snd line))
         lines (logging_steps freq first m).
Proof.
  induction m as [| m IH]; intros first st st' Hloop.
  - injection Hloop as <-. exists []. split; [now rewrite app_nil_r |].
    constructor.
  - cbn [seq MC.run_loop] in Hloop.
    destruct (MC.run_step _ _ _ _ _ st) as [st1 | ?] eqn:Hstep;
      cbn [mbind result_bind] in Hloop; [| discriminate Hloop].
    pose proof (run_step_trace _ _ _ _ _ _ _ Hstep) as Htrace.
    cbv zeta in Htrace. destruct Htrace as (Hcs & _ & Hnew & _).
    pose proof (run_loop_untouched _ _ _ _ _ _ _ Hloop
                  (S (MC.current_step (MC.engine st)))) as Hsame.
    rewrite <- Hsame in Hnew by (left; lia). clear Hsame.
    apply run_step_inversion in Hstep. cbv zeta in Hstep.
    destruct Hstep as (? & ? & ? & ? & ? & ? & ? & _ & _ & _ & _ & _ & Hend).
    destruct (IH (S first) st1 st' Hloop) as (lines & Hlog & Hlines).
    assert (Hshift : Forall2
      (fun line i_step =>
         (first <= i_step)%nat
         /\ fst line = (Z.of_nat i_step + 1)%Z
         /\ MC._energy_array (MC.engine st')
              !! (MC.current_step (MC.engine st) + (i_step - first) + 1)%nat
            = Some (snd line))
      lines (logging_steps freq (S first) m)).
    { eapply Forall2_impl; [exact Hlines |].
      intros line i (Hi & Hlabel & Hentry). split; [lia |].
      split; [exact Hlabel |]. rewrite <- Hentry. f_equal. rewrite Hcs. lia. }
    unfold logging_steps in *. cbn [seq List.filter].
    destruct Hend as [(Hmod & _ & _ & Hlog1) | (Hmod & _ & _ & Hlog1)].
    + apply Z.eqb_neq in Hmod. rewrite Hmod.
      exists lines. split; [now rewrite Hlog, Hlog1 | exact Hshift].
    + rewrite Hmod. cbn [Z.eqb].
      eexists (_ :: lines). split.
      * rewrite Hlog, Hlog1, <- app_assoc. reflexivity.
      * constructor; [| exact Hshift]. cbn [fst snd].
        split; [lia |]. split; [reflexivity |].
        rewrite Nat.sub_diag, Nat.add_0_r, Nat.add_1_r. exact Hnew.
Qed.

(** X20: the log of a run.  A run that returns leaves in [results.log]
    exactly one line for each step [i] of [1..n_steps] with [i + 1] a
    multiple of [freq] (every step when [freq] is 0), in order; the line is
    labelled [i + 1] and carries the entry of the trace that step [i] wrote. *)
Theorem run_log `{Libm} `{RandomSource G} (self self' : MC.t)
    (n_steps : nat) (freq : Z) (save_dir : string) (save_snaps : bool)
    (w w' : MC.world G) :
  MC.run self n_steps freq save_dir save_snaps w = Ok (self', w') ->
  Forall2
    (fun line i_step =>
       fst line = (Z.of_nat i_step + 1)%Z
       /\ MC._energy_array self' !! (MC.current_step self + i_step)%nat
          = Some (snd line))
    (MC.log w') (logging_steps freq 1 n_steps).
Proof.
  intros Hrun. unfold MC.run in Hrun.
  destruct (MC.run_enter self n_steps freq w) as [st0 | ?] eqn:Henter;
    cbn [mbind result_bind] in Hrun; [| discriminate Hrun].
  destruct (MC.run_loop _ _ _ _ _ st0) as [st' | ?] eqn:Hloop;
    cbn [mbind result_bind] in Hrun; [| discriminate Hrun].
  injection Hrun as <- <-.
  apply run_enter_keeps in Henter. cbv zeta in Henter.
  destruct Henter as (_ & _ & _ & _ & _ & _ & _ & Hcs & _ & _ & _ & Hlog0).
  apply run_loop_log in Hloop as (lines & Hlog & Hlines).
  rewrite Hlog, Hlog0, app_nil_l.
  eapply Forall2_impl; [exact Hlines |].
  intros line i (Hi & Hlabel & Hentry). split; [exact Hlabel |].
  rewrite <- Hentry, Hcs. f_equal. lia.
Qed.

Lemma run_log_witness :
  let g := mk_script [1 # 2; 1 # 2; 1 # 2; 9 # 10] [0%nat] in
  let w := MC.mk_world g start_files [] in
  exists self' w',
    @MC.run libm_approx _ _ two_particle_engine 2 3 "./results" false w
      = Ok (self', w')
    /\ Forall2
         (fun line i_step =>
            fst line = (Z.of_nat i_step + 1)%Z
            /\ MC._energy_array self' !! (0 + i_step)%nat = Some (snd line))
         (MC.log w') [2%nat].
Proof.
  intros g w.
  destruct (@MC.run libm_approx _ _ two_particle_engine 2 3 "./results" false w)
    as [[self' w'] | ?] eqn:Hrun; [| vm_compute in Hrun; discriminate Hrun].
  exists self', w'. split; [reflexivity |].
  exact (@run_log libm_approx _ _ two_particle_engine self' 2 3 "./results"
           false w w' Hrun).
Defined.

(** ** What the constructor returns *)

(** X21: what [MC(...)] returns when it returns.  The method is ['random']
    or ['file'], the reduced temperature is positive, a reduced density is
    given (also for method ['file'], which does not use it: [None] fails the
    comparison of the guard) and is not negative; the engine is fresh, with
    [beta = 1 / reduced_temp] positive, zero counters, an empty trace and the
    geometry that [Geom(method, ...)] builds from the same arguments. *)
Theorem init_postcondition `{Libm} `{RandomSource G} (fs : gmap string file)
    (method : string) (reduced_temp max_displacement cutoff : Q)
    (num_particles : option Z) (file_name : option string)
    (tune_displacement : bool) (reduced_den : option Q) (g g' : G)
    (self : MC.t) :
  MC.init fs method reduced_temp max_displacement cutoff num_particles
    file_name tune_displacement reduced_den g = (Ok self, g') ->
  (method = "random"%string \/ method = "file"%string)
  /\ 0 < reduced_temp
  /\ (exists den, reduced_den = Some den /\ 0 <= den)
  /\ Geom.init fs method
       (Geom.mk_kwargs num_particles reduced_den file_name) g
     = (Ok (MC._Geom self), g')
  /\ self = MC.mk (1 / reduced_temp) 0 0 max_displacement tune_displacement
              [] 0 (MC._Geom self) (Energy.init cutoff) None
  /\ 0 < MC.beta self.
Proof.
  unfold MC.init. intros Hinit.
  destruct (Qeq_bool reduced_temp 0) eqn:Ez; [discriminate Hinit |].
  assert (Hnz : ~ reduced_temp == 0)
    by (intros E; apply Qeq_bool_iff in E; congruence).
  assert (Hgeom : forall geom g1,
    (if String.eqb method "random"
     then Geom.init fs method (Geom.mk_kwargs num_particles reduced_den None) g
     else if String.eqb method "file"
          then Geom.init fs method (Geom.mk_kwargs None None file_name) g
          else (Raise (ValueError "Method must be either 'file' or 'random'"),
                g)) = (Ok geom, g1) ->
    (method = "random"%string \/ method = "file"%string)
    /\ Geom.init fs method
         (Geom.mk_kwargs num_particles reduced_den file_name) g
       = (Ok geom, g1)).
  { intros geom g1.
    destruct (String.eqb_spec method "random") as [-> | _].
    - intros E. split; [now left | exact E].
    - destruct (String.eqb_spec method "file") as [-> | _]; [| discriminate].
      intros E. split; [now right | exact E]. }
  destruct (if String.eqb method "random" then _ else _) as [[geom | e] g1];
    cbn [mbind result_bind] in Hinit; [| discriminate Hinit].
  destruct (Hgeom geom g1 eq_refl) as [Hmethod Hbuilt]. clear Hgeom.
  destruct reduced_den as [den |]; cbn [mbind result_bind] in Hinit;
    [| discriminate Hinit].
  destruct (Qltb den 0) eqn:Ed; [discriminate Hinit |].
  destruct (Qltb reduced_temp 0) eqn:Et; [discriminate Hinit |].
  cbn [orb] in Hinit. injection Hinit as <- <-.
  apply Qltb_ge in Ed, Et.
  assert (Hpos : 0 < reduced_temp).
  { apply Qle_lteq in Et as [Hlt | Heq]; [exact Hlt |].
    exfalso. apply Hnz. symmetry. exact Heq. }
  split; [exact Hmethod |]. split; [exact Hpos |].
  split; [exists den; split; [reflexivity | exact Ed] |].
  split; [exact Hbuilt |]. split; [reflexivity |].
  cbn [MC.beta]. apply Qlt_shift_div_l; [exact Hpos | lra].
Qed.

Lemma init_postcondition_witness :
  let g := mk_script [] [] in
  (exists den, Some (9 # 10) = Some den /\ 0 <= den)
  /\ 0 < MC.beta two_particle_engine.
Proof.
  intros g.
  destruct (@init_postcondition libm_approx _ _ start_files "file" 1 (1 # 10)
              3 None (Some "start.txt"%string) true (Some (9 # 10)) g g
              two_particle_engine) as (_ & _ & Hden & _ & _ & Hbeta).
  - vm_compute. reflexivity.
  - split; [exact Hden | exact Hbeta].
Defined.
